(** * Withdrawal queue and chain backends: a shallow embedding

    The development follows three source files of the repository:
    - [backend/utils/eco/withdrawalQueue.ts]  (class [WithdrawalQueue]),
    - the Solana service ([SolanaService], [@b/blockchains/sol.ts]),
    - the Monero service ([MoneroService], [@b/blockchains/xmr]).

    Conventions of the embedding.
    - The [transaction], [wallet], [user] and [adminProfit] tables are finite
      maps keyed by primary key (or, for the append-only ledger, a list).
      Every [models.transaction.update] of the sources has [where: {id}]
      (possibly with a status condition), hence it is an [alter] at one key
      returning the number of affected rows.
    - JavaScript numbers are exact rationals ([Q]); [NaN], infinities and
      binary rounding of doubles are outside the model.
    - Calls that leave the process (chain RPC, the e-mail queue, the refund
      and notification helpers) take their outcome from an environment
      record; the calls themselves are recorded in an event trace.
    - [async] code is sequential code in a state-and-exception monad; the
      only interleaving that the queue admits (an [addTransaction] arriving
      while a run is awaiting) is modelled by the [Action]s of the [System]
      section. *)

From Stdlib Require Import QArith Qround Lqa.
From stdpp Require Import gmap strings list fin_maps.

Set Default Proof Using "Type".
Open Scope string_scope.
Open Scope list_scope.

(** ** Data model *)

Inductive Status := PENDING | PROCESSING | COMPLETED | FAILED.

#[global] Instance Status_eq_dec : EqDecision Status.
Proof. solve_decision. Defined.

Definition Status_eqb (a b : Status) : bool := bool_decide (a = b).

Definition terminal (s : Status) : bool :=
  match s with COMPLETED | FAILED => true | _ => false end.

(** [transaction.metadata] after the source's
    [typeof m === "string" ? JSON.parse(m) : m]. *)
Record Metadata := {
  chain : option string;      (* [None]: the property is missing *)
  toAddress : string;
}.

Inductive MetadataField :=
| MetaUnparsable (err : string)   (* a string on which [JSON.parse] throws *)
| MetaNull                        (* null, undefined or a falsy parse result *)
| MetaObject (m : Metadata).

Record Transaction := {
  tx_id : string;
  tx_walletId : string;
  tx_userId : string;
  tx_type : string;               (* "DEPOSIT" / "WITHDRAW" *)
  tx_amount : Q;
  tx_fee : option Q;              (* [None]: null or [typeof fee !== "number"] *)
  tx_status : Status;
  tx_referenceId : option string;
  tx_description : option string;
  tx_metadata : MetadataField;
}.

Record Wallet := {
  w_id : string;
  w_userId : string;
  w_currency : string;
  w_type : string;
}.

Record User := {
  u_id : string;
  u_email : string;
  u_firstName : string;
}.

(** The object literal given to [models.adminProfit.create]; its
    [description] is a template literal over the other fields and is not
    kept. *)
Record AdminProfit := {
  ap_amount : Q;
  ap_currency : string;
  ap_chain : string;
  ap_type : string;
  ap_transactionId : string;
}.

(** The values object of a [models.transaction.update]. *)
Record Patch := {
  p_status : option Status;
  p_referenceId : option string;
  p_description : option string;
}.

Definition apply_patch (p : Patch) (t : Transaction) : Transaction :=
  {| tx_id := tx_id t;
     tx_walletId := tx_walletId t;
     tx_userId := tx_userId t;
     tx_type := tx_type t;
     tx_amount := tx_amount t;
     tx_fee := tx_fee t;
     tx_status := default (tx_status t) (p_status p);
     tx_referenceId :=
       match p_referenceId p with Some r => Some r | None => tx_referenceId t end;
     tx_description :=
       match p_description p with Some d => Some d | None => tx_description t end;
     tx_metadata := tx_metadata t |}.

(** ** Observable events

    The trace is ghost state: it records, in order, the calls that leave
    the process and the status changes made by UPDATE statements, so that
    "how many times" and "in which order" can be stated. No decision of
    the code reads it. *)

Inductive Event :=
| EvStatus (id : string) (old new : Status)
    (* an UPDATE changed the status column of row [id] from [old] to [new] *)
| EvChain (chainName op : string)
    (* a call that reaches the chain node or the wallet daemon *)
| EvTransfer (chainName to_ : string) (units : Z)
    (* the call that moves funds: [sendRawTransaction] of a signed transfer
       of [units] lamports, or the wallet RPC [transfer] of [units] atomic
       units *)
| EvRefund (t : Transaction)                    (* [refundUser(transaction)] *)
| EvEmail (emailType to_ : string) (t : Transaction) (extra : string)
    (* [emailQueue.add]; [extra] is CHAIN or REASON *)
| EvNotification (userId title : string) (amount : Q) (currency : string)
    (* [handleNotification] *)
| EvDeposit (walletId chainName hash : string) (amount8 fee8 : Z).
    (* [storeAndBroadcastTransaction(txData, hash)] *)

(** ** The world: tables, in-memory singletons, trace *)

Record World := {
  transactions : gmap string Transaction;
  wallets : gmap string Wallet;
  users : gmap string User;
  adminProfits : list AdminProfit;
  (* WithdrawalQueue instance fields *)
  queue : list string;
  isProcessing : bool;
  processingTransactions : gset string;
  (* MoneroService.processedTransactions *)
  processedTransactions : gset string;
  trace : list Event;
}.

Definition set_transactions (f : gmap string Transaction → gmap string Transaction)
    (w : World) : World :=
  {| transactions := f (transactions w); wallets := wallets w; users := users w;
     adminProfits := adminProfits w; queue := queue w;
     isProcessing := isProcessing w;
     processingTransactions := processingTransactions w;
     processedTransactions := processedTransactions w; trace := trace w |}.

Definition set_adminProfits (f : list AdminProfit → list AdminProfit)
    (w : World) : World :=
  {| transactions := transactions w; wallets := wallets w; users := users w;
     adminProfits := f (adminProfits w); queue := queue w;
     isProcessing := isProcessing w;
     processingTransactions := processingTransactions w;
     processedTransactions := processedTransactions w; trace := trace w |}.

Definition set_queue (f : list string → list string) (w : World) : World :=
  {| transactions := transactions w; wallets := wallets w; users := users w;
     adminProfits := adminProfits w; queue := f (queue w);
     isProcessing := isProcessing w;
     processingTransactions := processingTransactions w;
     processedTransactions := processedTransactions w; trace := trace w |}.

Definition set_isProcessing (b : bool) (w : World) : World :=
  {| transactions := transactions w; wallets := wallets w; users := users w;
     adminProfits := adminProfits w; queue := queue w;
     isProcessing := b;
     processingTransactions := processingTransactions w;
     processedTransactions := processedTransactions w; trace := trace w |}.

Definition set_processingTransactions (f : gset string → gset string)
    (w : World) : World :=
  {| transactions := transactions w; wallets := wallets w; users := users w;
     adminProfits := adminProfits w; queue := queue w;
     isProcessing := isProcessing w;
     processingTransactions := f (processingTransactions w);
     processedTransactions := processedTransactions w; trace := trace w |}.

Definition set_processedTransactions (f : gset string → gset string)
    (w : World) : World :=
  {| transactions := transactions w; wallets := wallets w; users := users w;
     adminProfits := adminProfits w; queue := queue w;
     isProcessing := isProcessing w;
     processingTransactions := processingTransactions w;
     processedTransactions := f (processedTransactions w); trace := trace w |}.

(** Appending to the trace. *)
Definition emits (evs : list Event) (w : World) : World :=
  {| transactions := transactions w; wallets := wallets w; users := users w;
     adminProfits := adminProfits w; queue := queue w;
     isProcessing := isProcessing w;
     processingTransactions := processingTransactions w;
     processedTransactions := processedTransactions w;
     trace := trace w ++ evs |}.

Definition emit (e : Event) (w : World) : World := emits [e] w.

(** ** A state-and-exception monad for [async] bodies *)

Inductive Result (A : Type) :=
| Ok (a : A)
| Throw (msg : string).      (* [throw new Error(msg)] / a rejected promise *)
Arguments Ok {A} a.
Arguments Throw {A} msg.

Definition M (A : Type) : Type := World → Result A * World.

Definition ret {A} (a : A) : M A := fun w => (Ok a, w).
Definition throw {A} (msg : string) : M A := fun w => (Throw msg, w).
Definition bind {A B} (m : M A) (k : A → M B) : M B :=
  fun w => match m w with
           | (Ok a, w') => k a w'
           | (Throw e, w') => (Throw e, w')
           end.
Definition modify (f : World → World) : M unit := fun w => (Ok tt, f w).
Definition gets {A} (f : World → A) : M A := fun w => (Ok (f w), w).

(** [try { m } catch (error) { h error.message }] *)
Definition try_catch {A} (m : M A) (h : string → M A) : M A :=
  fun w => match m w with
           | (Ok a, w') => (Ok a, w')
           | (Throw e, w') => h e w'
           end.

(** [try { m } finally { f }]: [f] always runs; its own exception replaces
    the completion of [m]. *)
Definition try_finally {A} (m : M A) (f : M unit) : M A :=
  fun w => match m w with
           | (r, w') => match f w' with
                        | (Ok _, w'') => (r, w'')
                        | (Throw e, w'') => (Throw e, w'')
                        end
           end.

(** An external call whose outcome the environment fixes. *)
Definition external {A} (outcome : Result A) : M A := fun w => (outcome, w).

(** The bodies below are written with stdpp's [x ← m; k] and [m;; k]. *)
#[global] Instance M_ret : MRet M := @ret.
#[global] Instance M_bind : MBind M := fun A B k m => bind m k.

(** ** Table operations *)

(** [models.transaction.update(values, {where: {id, ...cond}})], resolving
    to the affected-row count. *)
Definition transaction_update (values : Patch) (id : string)
    (cond : Transaction → bool) : M nat :=
  fun w =>
    match transactions w !! id with
    | Some t =>
        if cond t then
          let w1 := set_transactions (insert id (apply_patch values t)) w in
          let w2 := match p_status values with
                    | Some s => emit (EvStatus id (tx_status t) s) w1
                    | None => w1
                    end in
          (Ok 1%nat, w2)
        else (Ok 0%nat, w)
    | None => (Ok 0%nat, w)
    end.

(** [findOne]/[findByPk] on a transaction with
    [include: [{model: wallet, as: "wallet", where: {type: "ECO"}}]]: the
    join is required, so a row whose wallet is missing or of another type
    is not returned. *)
Definition eco_transaction (w : World) (id : string)
    : option (Transaction * Wallet) :=
  t ← transactions w !! id;
  wl ← wallets w !! tx_walletId t;
  if (w_type wl =? "ECO")%string then Some (t, wl) else None.

Definition transaction_find_with_eco_wallet (id : string)
    : M (option (Transaction * Wallet)) :=
  gets (fun w => eco_transaction w id).

(** ** Numbers *)

(** [Math.round]: the integer nearest to its argument, ties towards
    +infinity. *)
Definition Math_round (x : Q) : Z := Qfloor (x + (1 # 2)).

(** Truncation towards zero ([Math.trunc]), for comparison. *)
Definition Math_trunc (x : Q) : Z := Z.quot (Qnum x) (Z.pos (Qden x)).

Definition e9 : Z := 1000000000.
Definition e12 : Z := 1000000000000.

(** [Math.round(amount * 1e9)] of [handleSolanaWithdrawal]. *)
Definition toLamports (amount : Q) : Z := Math_round (amount * inject_Z e9).

(** [Math.round(amount * 1e12)], the conversion written out in
    [handleMoneroWithdrawal], [transferXMR] and [estimateMoneroFee]. *)
Definition toAtomicUnits (amount : Q) : Z := Math_round (amount * inject_Z e12).

(** [(atomic / 1e12).toFixed(8)] for a non-negative integer [atomic], as
    used by [processMoneroTransaction] and [parseMoneroTransactions]:
    [toFixed(8)] picks the integer [n] with [n / 10^8] nearest to the
    argument (the larger on a tie) and prints [n] with eight decimals. The
    result is kept as [n], a count of units of [10^-8] XMR. *)
Definition toFixed8 (atomic : Z) : Z :=
  Math_round (inject_Z atomic / inject_Z e12 * inject_Z 100000000).


(** JavaScript truthiness of a string. *)
Definition truthy (s : string) : bool := negb (s =? "")%string.

(** ** SolanaService *)

(** What [connection.getTransaction] resolves to. [err] is [None] for
    JavaScript [null]; otherwise it carries the [JSON.stringify] text of
    the node's [TransactionError] (an object or a variant name, truthy). *)
Record TxMeta := { err : option string }.
Record TxResult := { meta : option TxMeta }.

Record SolanaEnv := {
  sol_getInstance : Result unit;
    (* SolanaService.getInstance(): raises when the constructor does
       (an unknown SOL_NETWORK); the probe itself never raises *)
  sol_chainActive : bool;                       (* this.chainActive *)
  sol_PublicKey : string → Result unit;         (* new PublicKey(toAddress) *)
  sol_walletData : string → option string;
    (* walletData.findOne({walletId, currency: "SOL", chain: "SOL"}).data *)
  sol_Keypair : string → Result unit;
    (* JSON.parse(decrypt(data)), Buffer.from, Keypair.fromSecretKey *)
  sol_getLatestBlockhash : Result unit;
  sol_sendRawTransaction : Result string;
  sol_confirmTransaction : Result unit;
  sol_getTransaction : Result (option TxResult);
}.

(** [checkChainStatus]: the probe run once by [getInstance]. [files] is the
    outcome of [readdirSync(__dirname)]; [chainActive] starts [false]. *)
Definition Solana_checkChainStatus (files : Result (list string)) : bool :=
  match files with
  | Ok fs => if existsb (fun file => String.prefix "sol.bin" file) fs
             then true else false
  | Throw _ => false
  end.

Definition Solana_ensureChainActive (env : SolanaEnv) : M unit :=
  if sol_chainActive env then mret tt
  else throw "Chain 'SOL' is not active in ecosystemBlockchain.".

Definition transferSol (env : SolanaEnv) (walletId : string)
    (recipient : string) (amount : Z) : M string :=
  try_catch
    (match sol_walletData env walletId with
     | None => throw "Private key not found for the wallet"
     | Some data =>
         external (sol_Keypair env data);;
         modify (emit (EvChain "SOL" "getLatestBlockhash"));;
         external (sol_getLatestBlockhash env);;
         modify (emit (EvTransfer "SOL" recipient amount));;
         signature ← external (sol_sendRawTransaction env);
         (* Confirm the transaction; a failure here is only logged *)
         modify (emit (EvChain "SOL" "confirmTransaction"));;
         try_catch (external (sol_confirmTransaction env))
                   (fun _ => mret tt);;
         (* Check the transaction status on the blockchain *)
         modify (emit (EvChain "SOL" "getTransaction"));;
         txResult ← external (sol_getTransaction env);
         match txResult with
         | Some {| meta := Some {| err := None |} |} => mret signature
         | Some {| meta := Some {| err := Some e |} |} =>
             throw ("Transaction failed with error: " +:+ e)
         | _ => throw "Transaction not found or not confirmed"
         end
     end)
    (fun message => throw ("Failed to transfer SOL: " +:+ message)).

Definition handleSolanaWithdrawal (env : SolanaEnv)
    (transactionId walletId : string) (amount : Q) (toAddress : string)
    : M unit :=
  try_catch
    (external (sol_PublicKey env toAddress);;
     let amountLamports := toLamports amount in
     transactionSignature ← transferSol env walletId toAddress amountLamports;
     if truthy transactionSignature then
       transaction_update
         {| p_status := Some COMPLETED;
            p_referenceId := Some transactionSignature;
            p_description := None |}
         transactionId (fun _ => true);;
       mret tt
     else throw "Failed to receive transaction signature")
    (fun message =>
       (* Update transaction status to 'FAILED' *)
       transaction_update
         {| p_status := Some FAILED;
            p_referenceId := None;
            p_description := Some ("Withdrawal failed: " +:+ message) |}
         transactionId (fun _ => true);;
       throw message).

(** ** MoneroService *)

(** The fields of a wallet-RPC JSON response that the code reads. *)
Record RpcResponse := {
  rpc_error : option string;        (* response.error *)
  rpc_tx_hash : option string;      (* response.result?.tx_hash *)
}.

Record MoneroEnv := {
  xmr_getInstance : Result unit;
    (* MoneroService.getInstance(): raises when the [get_info] request of
       the first call fails *)
  xmr_chainActive : bool;
  xmr_open_wallet : Result RpcResponse;
  xmr_transfer : Result RpcResponse;
  xmr_close_wallet : Result RpcResponse;
}.

(** [checkChainStatus]: [status?.result?.synchronized] of the daemon's
    [get_info]. *)
Definition Monero_checkChainStatus (synchronized : option bool) : bool :=
  match synchronized with Some true => true | _ => false end.

Definition Monero_ensureChainActive (env : MoneroEnv) : M unit :=
  if xmr_chainActive env then mret tt
  else throw "Chain 'Monero' is not active.".

(** [addToQueue]/[processQueue] with the operation queue idle: the
    operation runs at once and [processQueue] catches and logs whatever it
    throws. *)
Definition Monero_addToQueue (operation : M unit) : M unit :=
  try_catch operation (fun _ => mret tt).

Definition openWallet (env : MoneroEnv) (walletName : string) : M unit :=
  Monero_addToQueue
    (modify (emit (EvChain "XMR" "open_wallet"));;
     response ← external (xmr_open_wallet env);
     match rpc_error response with
     | Some e => throw ("Failed to open wallet: " +:+ e)
     | None => mret tt
     end).

Definition closeWallet (env : MoneroEnv) : M unit :=
  Monero_addToQueue
    (modify (emit (EvChain "XMR" "close_wallet"));;
     response ← external (xmr_close_wallet env);
     match rpc_error response with
     | Some e => throw ("Failed to close wallet: " +:+ e)
     | None => mret tt
     end).

Definition handleMoneroWithdrawal (env : MoneroEnv)
    (transactionId walletId : string) (amount : Q) (toAddress : string)
    : M unit :=
  try_finally
    (try_catch
       (openWallet env walletId;;
        (* Step 1: Execute the transfer *)
        modify (emit (EvTransfer "XMR" toAddress (toAtomicUnits amount)));;
        transferResponse ← external (xmr_transfer env);
        match rpc_tx_hash transferResponse with
        | Some tx_hash =>
            if truthy tx_hash then
              transaction_update
                {| p_status := Some COMPLETED;
                   p_referenceId := Some tx_hash;
                   p_description := None |}
                transactionId (fun _ => true);;
              mret tt
            else throw "Failed to execute Monero transaction."
        | None => throw "Failed to execute Monero transaction."
        end)
       (fun message =>
          transaction_update
            {| p_status := Some FAILED;
               p_referenceId := None;
               p_description := Some ("Withdrawal failed: " +:+ message) |}
            transactionId (fun _ => true);;
          throw message))
    (closeWallet env).

(** ** Collaborators of the queue that are not among the sources *)

(** Modelled from the spec: [handleUTXOWithdrawal],
    [TronService.handleTronWithdrawal] and [handleEvmWithdrawal] are
    imported by the queue but their code is absent. Section 4.2 gives every
    backend one shape (a transfer that yields a reference id or fails with
    an error); they are given the behaviour of the two handlers that are
    present: on success the row becomes COMPLETED with the reference id,
    on failure it becomes FAILED with a description and the error is
    re-raised; they may also raise before any write (as a [getInstance]
    does). *)
Inductive ExtOutcome :=
| ExtCompleted (referenceId : string)
| ExtFailed (message : string)
| ExtRaised (message : string).

Definition external_withdrawal (family : string) (o : ExtOutcome)
    (transactionId toAddress : string) : M unit :=
  modify (emit (EvChain family "withdrawal"));;
  match o with
  | ExtCompleted r =>
      transaction_update
        {| p_status := Some COMPLETED; p_referenceId := Some r;
           p_description := None |}
        transactionId (fun _ => true);;
      mret tt
  | ExtFailed message =>
      transaction_update
        {| p_status := Some FAILED; p_referenceId := None;
           p_description := Some ("Withdrawal failed: " +:+ message) |}
        transactionId (fun _ => true);;
      throw message
  | ExtRaised message => throw message
  end.

(** Outcomes of everything a run of [processNext] awaits outside the
    database. *)
Record RunEnv := {
  solana : SolanaEnv;
  monero : MoneroEnv;
  ext : ExtOutcome;
  confirmationEmail : Result unit;  (* emailQueue.add, EcoWithdrawalConfirmation *)
  refund : Result unit;             (* refundUser *)
  failedEmail : Result unit;        (* emailQueue.add, EcoWithdrawalFailed *)
  notification : Result unit;       (* handleNotification *)
}.

Definition sendEcoWithdrawalConfirmationEmail (env : RunEnv) (user : User)
    (transaction : Transaction) (toAddress chainName : string) : M unit :=
  modify (emit (EvEmail "EcoWithdrawalConfirmation" (u_email user)
                        transaction chainName));;
  external (confirmationEmail env).

Definition sendEcoWithdrawalFailedEmail (env : RunEnv) (user : User)
    (transaction : Transaction) (toAddress reason : string) : M unit :=
  modify (emit (EvEmail "EcoWithdrawalFailed" (u_email user)
                        transaction reason));;
  external (failedEmail env).

Definition refundUser (env : RunEnv) (transaction : Transaction) : M unit :=
  modify (emit (EvRefund transaction));;
  external (refund env).

Definition handleNotification (env : RunEnv) (userId title : string)
    (amount : Q) (currency : string) : M unit :=
  modify (emit (EvNotification userId title amount currency));;
  external (notification env).

(** [models.wallet.findOne({where: {userId, currency, type: "ECO"}})] *)
Definition wallet_findOne (userId currency : string) : M (option Wallet) :=
  gets (fun w =>
    snd <$> List.find
      (fun kv => (w_userId (snd kv) =? userId)%string
                 && (w_currency (snd kv) =? currency)%string
                 && (w_type (snd kv) =? "ECO")%string)
      (map_to_list (wallets w))).

(** ** WithdrawalQueue *)

(** [typeof m === "string" ? JSON.parse(m) : m] *)
Definition parse_metadata (m : MetadataField) : M (option Metadata) :=
  match m with
  | MetaUnparsable e => throw e
  | MetaNull => mret None
  | MetaObject md => mret (Some md)
  end.

Definition is_utxo_chain (c : string) : bool :=
  bool_decide (c ∈ ["BTC"; "LTC"; "DOGE"; "DASH"]).

(** The branch on [metadata.chain]. *)
Definition dispatch (env : RunEnv) (transactionId : string)
    (transaction : Transaction) (chainName toAddress : string) : M unit :=
  if is_utxo_chain chainName then
    external_withdrawal "UTXO" (ext env) transactionId toAddress
  else if (chainName =? "SOL")%string then
    external (sol_getInstance (solana env));;
    handleSolanaWithdrawal (solana env) transactionId
      (tx_walletId transaction) (tx_amount transaction) toAddress
  else if (chainName =? "TRON")%string then
    external_withdrawal "TRON" (ext env) transactionId toAddress
  else if (chainName =? "XMR")%string then
    external (xmr_getInstance (monero env));;
    handleMoneroWithdrawal (monero env) transactionId
      (tx_walletId transaction) (tx_amount transaction) toAddress
  else
    external_withdrawal "EVM" (ext env) transactionId toAddress.

(** [typeof transaction.fee === "number" && transaction.fee > 0] *)
Definition fee_is_positive_number (t : Transaction) : bool :=
  match tx_fee t with
  | Some f => negb (Qle_bool f 0)
  | None => false
  end.

(** "Send email to the user": the statements between the dispatch and the
    admin-profit block. [transaction] is the object loaded at the start of
    the run. *)
Definition notifyWithdrawalConfirmed (env : RunEnv)
    (transaction : Transaction) (wallet : Wallet)
    (toAddress chainName : string) : M unit :=
  user ← gets (fun w => users w !! tx_userId transaction);
  match user with
  | Some u =>
      wallet' ← wallet_findOne (u_id u) (w_currency wallet);
      match wallet' with
      | Some _ =>
          sendEcoWithdrawalConfirmationEmail env u transaction
            toAddress chainName
      | None => mret tt
      end
  | None => mret tt
  end.

(** The object given to [models.adminProfit.create]. *)
Definition profit_entry (transaction : Transaction) (wallet : Wallet)
    (chainName : string) : AdminProfit :=
  {| ap_amount := default 0%Q (tx_fee transaction);
     ap_currency := w_currency wallet;
     ap_chain := chainName;
     ap_type := "WITHDRAW";
     ap_transactionId := tx_id transaction |}.

(** "Admin Profit Recording" *)
Definition recordAdminProfit (transaction : Transaction) (wallet : Wallet)
    (chainName : string) : M unit :=
  if fee_is_positive_number transaction then
    modify (set_adminProfits
              (fun l => l ++ [profit_entry transaction wallet chainName]))
  else mret tt.

Definition processing_patch : Patch :=
  {| p_status := Some PROCESSING; p_referenceId := None;
     p_description := None |}.

(** [metadata] with a truthy [chain], or the validation error. *)
Definition routing (metadata : option Metadata) : M (string * string) :=
  match metadata with
  | Some {| chain := Some chainName; toAddress := to_ |} =>
      if truthy chainName then mret (chainName, to_)
      else throw "Invalid or missing chain in transaction metadata"
  | _ => throw "Invalid or missing chain in transaction metadata"
  end.

(** The [try] block of [processNext], from the [findOne] on. An early
    [return] is [mret tt]: control goes to [finally] either way. *)
Definition processNext_try (env : RunEnv) (transactionId : string) : M unit :=
  found ← transaction_find_with_eco_wallet transactionId;
  match found with
  | None => mret tt
  | Some (transaction, wallet) =>
      (* Update transaction status to 'PROCESSING' to prevent duplicate
         processing *)
      updatedCount ← transaction_update processing_patch transactionId
        (fun t => Status_eqb (tx_status t) PENDING);
      if Nat.eqb updatedCount 0 then mret tt
      else
        metadata ← parse_metadata (tx_metadata transaction);
        '(chainName, to_) ← routing metadata;
        dispatch env transactionId transaction chainName to_;;
        notifyWithdrawalConfirmed env transaction wallet to_ chainName;;
        recordAdminProfit transaction wallet chainName
  end.

(** The statements of the [catch] block that follow the refund. *)
Definition notifyWithdrawalFailed (env : RunEnv) (transaction : Transaction)
    (wallet : Wallet) (message : string) : M unit :=
  user ← gets (fun w => users w !! tx_userId transaction);
  match user with
  | Some u =>
      metadata ← parse_metadata (tx_metadata transaction);
      match metadata with
      | Some md =>
          sendEcoWithdrawalFailedEmail env u transaction
            (toAddress md) message
      | None =>
          throw "Cannot read properties of null (reading 'toAddress')"
      end
  | None => mret tt
  end;;
  handleNotification env (tx_userId transaction) "Withdrawal Failed"
    (tx_amount transaction) (w_currency wallet).

(** The [catch (error)] block. *)
Definition processNext_catch (env : RunEnv) (transactionId : string)
    (message : string) : M unit :=
  (* Update transaction status to 'FAILED' to prevent reprocessing *)
  transaction_update
    {| p_status := Some FAILED; p_referenceId := None;
       p_description := Some ("Transaction failed: " +:+ message) |}
    transactionId (fun _ => true);;
  (* Refund the user if necessary *)
  found ← transaction_find_with_eco_wallet transactionId;
  match found with
  | Some (transaction, wallet) =>
      refundUser env transaction;;
      notifyWithdrawalFailed env transaction wallet message
  | None => mret tt
  end.

(** The synchronous head of [processNext], up to and including
    [this.processingTransactions.add(transactionId)]. It yields the id whose
    run has been started, if any. *)
Definition processNext_begin (w : World) : option string * World :=
  if isProcessing w || bool_decide (queue w = []) then (None, w)
  else
    let w1 := set_isProcessing true w in
    match queue w1 with
    | transactionId :: rest =>
        let w2 := set_queue (fun _ => rest) w1 in
        if truthy transactionId then
          (Some transactionId,
           set_processingTransactions (fun s => s ∪ {[transactionId]}) w2)
        else (None, set_isProcessing false w2)
    | [] => (None, set_isProcessing false w1)
    end.

(** The rest of the run of [transactionId]: [try]/[catch], then the
    [finally] block, whose last statement calls [processNext] again. An
    exception escaping the [catch] block rejects the promise of
    [processNext], which nobody awaits; [finally] has run by then. *)
Definition processNext_body (env : RunEnv) (transactionId : string) : M unit :=
  try_catch (processNext_try env transactionId)
            (processNext_catch env transactionId).

Definition processNext_resume (env : RunEnv) (transactionId : string)
    (w : World) : option string * World :=
  let '(_, w') :=
    try_finally
      (processNext_body env transactionId)
      (modify (set_processingTransactions (fun s => s ∖ {[transactionId]}));;
       modify (set_isProcessing false))
      w in
  processNext_begin w'.

Definition addTransaction (transactionId : string) (w : World)
    : option string * World :=
  if bool_decide (transactionId ∈ processingTransactions w) then (None, w)
  else if bool_decide (transactionId ∈ queue w) then (None, w)
  else processNext_begin (set_queue (fun q => (q ++ [transactionId])%list) w).

(** ** The queue as a transition system

    Between two [await]s the run of a withdrawal is not observable by the
    queue's callers except through [addTransaction], which only reads and
    writes the three instance fields. A history of the coordinator is
    therefore a list of actions: an enqueue, or the in-flight run going
    through to its [finally] under some environment. *)
Record System := {
  world : World;
  inflight : option string;
}.

Inductive Action :=
| Enqueue (transactionId : string)
| Resume (env : RunEnv).

Definition step (s : System) (a : Action) : System :=
  match a with
  | Enqueue transactionId =>
      let '(started, w') := addTransaction transactionId (world s) in
      {| world := w';
         inflight := match started with
                     | Some t => Some t
                     | None => inflight s
                     end |}
  | Resume env =>
      match inflight s with
      | Some transactionId =>
          let '(next, w') := processNext_resume env transactionId (world s) in
          {| world := w'; inflight := next |}
      | None => s
      end
  end.

Definition exec (s : System) (actions : list Action) : System :=
  foldl step s actions.

(** ** MoneroService: the deposit monitor *)

(** [transactionInfo.result.transfer] of [get_transfer_by_txid]: amount and
    fee in atomic units. *)
Record Transfer := {
  transfer_amount : Z;
  transfer_fee : Z;
}.

Inductive StoreOutcome :=
| Stored (newId : string)
| StoreThrowsBeforeWrite (message : string)
| StoreThrowsAfterWrite (newId : string) (message : string).

Record DepositEnv := {
  dep_get_transfer_by_txid : Result (option Transfer);
    (* [None]: no [result] or no [result.transfer] *)
  dep_address : Result string;
    (* JSON.parse(wallet.address)["XMR"].address *)
  dep_store : StoreOutcome;
}.

(** The literal [txData] of [processMoneroTransaction]; amount and fee are
    the eight-decimal strings, kept as counts of [10^-8] XMR. *)
Record TxData := {
  td_id : string;             (* wallet.id *)
  td_chain : string;
  td_hash : string;
  td_type : string;
  td_address : string;
  td_amount : Z;
  td_fee : Z;
  td_status : Status;
}.

Definition fixed8_to_number (n : Z) : Q := (inject_Z n / inject_Z 100000000)%Q.

(** Whether the table holds a COMPLETED row whose [referenceId] is
    [hash]: the [where] clause of the monitor's [findOne]. *)
Definition completed_with_reference (hash : string)
    (m : gmap string Transaction) : Prop :=
  map_Exists (fun _ t => tx_referenceId t = Some hash ∧ tx_status t = COMPLETED) m.

#[global] Instance completed_with_reference_dec hash m :
  Decision (completed_with_reference hash m).
Proof. unfold completed_with_reference. apply _. Defined.

(** Modelled from the spec: [storeAndBroadcastTransaction] (module
    [@b/utils/eco/redis/deposit]) is called by the monitor but its code is
    absent. Per sections 2 and 4.3 it writes a new COMPLETED deposit
    record for the wallet whose [referenceId] is the chain-native
    transaction id, then broadcasts it. The primary key of the new row and
    whether the call raises (before or after the row is written) come from
    the environment; inserting an existing key raises, as the database
    does. *)
Definition storeAndBroadcastTransaction (o : StoreOutcome) (wallet : Wallet)
    (txData : TxData) (hash : string) : M unit :=
  let write (newId : string) : M unit :=
    exists_ ← gets (fun w => bool_decide (is_Some (transactions w !! newId)));
    if (exists_ : bool) then throw "Validation error"
    else
      modify (set_transactions (insert newId
        {| tx_id := newId; tx_walletId := td_id txData;
           tx_userId := w_userId wallet; tx_type := td_type txData;
           tx_amount := fixed8_to_number (td_amount txData);
           tx_fee := Some (fixed8_to_number (td_fee txData));
           tx_status := td_status txData; tx_referenceId := Some hash;
           tx_description := None; tx_metadata := MetaNull |}));;
      modify (emit (EvDeposit (td_id txData) (td_chain txData) hash
                              (td_amount txData) (td_fee txData))) in
  match o with
  | Stored newId => write newId
  | StoreThrowsBeforeWrite message => throw message
  | StoreThrowsAfterWrite newId message => write newId;; throw message
  end.

(** [tx.amount ? (tx.amount / 1e12).toFixed(8) : null] *)
Definition amount_or_null (atomic : Z) : option Z :=
  if (atomic =? 0)%Z then None else Some (toFixed8 atomic).

Definition processMoneroTransaction (env : DepositEnv)
    (transactionHash : string) (wallet : Wallet) : M bool :=
  try_catch
    ((* Step 1: already processed, in memory or in the database? *)
     inMemory ← gets (fun w =>
       bool_decide (transactionHash ∈ processedTransactions w));
     if (inMemory : bool) then mret false
     else
       existingTransaction ← gets (fun w =>
         bool_decide (completed_with_reference transactionHash (transactions w)));
       if (existingTransaction : bool) then
         modify (set_processedTransactions (fun s => s ∪ {[transactionHash]}));;
         mret false
       else
         modify (emit (EvChain "XMR" "get_transfer_by_txid"));;
         transactionInfo ← external (dep_get_transfer_by_txid env);
         match transactionInfo with
         | Some transfer =>
             let amount := amount_or_null (transfer_amount transfer) in
             let fee := amount_or_null (transfer_fee transfer) in
             moneroAddress ← external (dep_address env);
             match amount, fee with
             | Some amount, Some fee =>
                 let txData :=
                   {| td_id := w_id wallet; td_chain := "XMR";
                      td_hash := transactionHash; td_type := "DEPOSIT";
                      td_address := moneroAddress; td_amount := amount;
                      td_fee := fee; td_status := COMPLETED |} in
                 (* Store and broadcast the transaction *)
                 storeAndBroadcastTransaction (dep_store env) wallet txData
                   transactionHash;;
                 (* Add the processed transaction to the in-memory cache *)
                 modify (set_processedTransactions
                           (fun s => s ∪ {[transactionHash]}));;
                 mret true
             | _, _ =>
                 throw ("Amount or fee is null for transaction "
                        +:+ transactionHash)
             end
         | None => mret false
         end)
    (fun _ => mret false).

(** An entry of [transfers.result.in] as the poll loop reads it. *)
Record InTransfer := {
  txid : string;
  confirmations : Z;
}.

Definition minConfirmations : Z := 6.





(** ** Reading the trace *)

(** The world after [models.transaction.update(p, {where: {id}})]. *)
Definition patched (p : Patch) (id : string) (w : World) : World :=
  (transaction_update p id (fun _ => true) w).2.

(** The events appended to the trace between [w] and a later [w']. *)
Definition events_since (w w' : World) : list Event :=
  drop (length (trace w)) (trace w').

Definition is_chain_event (e : Event) : bool :=
  match e with EvChain _ _ | EvTransfer _ _ _ => true | _ => false end.

Definition chain_events (evs : list Event) : Prop :=
  Forall (fun e => is_chain_event e = true) evs.

Definition is_transfer (e : Event) : bool :=
  match e with EvTransfer _ _ _ => true | _ => false end.

Definition is_refund (e : Event) : bool :=
  match e with EvRefund _ => true | _ => false end.

(** A successful PENDING -> PROCESSING claim of row [id]. *)
Definition is_claim_of (id : string) (e : Event) : bool :=
  match e with
  | EvStatus i PENDING PROCESSING => bool_decide (i = id)
  | _ => false
  end.


Definition count (f : Event → bool) (evs : list Event) : nat :=
  length (filter (fun e => f e = true) evs).

(** The patches written by the handlers. *)
Definition completed_patch (referenceId : string) : Patch :=
  {| p_status := Some COMPLETED; p_referenceId := Some referenceId;
     p_description := None |}.

Definition failed_patch (description : string) : Patch :=
  {| p_status := Some FAILED; p_referenceId := None;
     p_description := Some description |}.

(** The same environment with another value of the [chainActive] field. *)
Definition set_sol_chainActive (b : bool) (env : SolanaEnv) : SolanaEnv :=
  {| sol_getInstance := sol_getInstance env;
     sol_chainActive := b;
     sol_PublicKey := sol_PublicKey env;
     sol_walletData := sol_walletData env;
     sol_Keypair := sol_Keypair env;
     sol_getLatestBlockhash := sol_getLatestBlockhash env;
     sol_sendRawTransaction := sol_sendRawTransaction env;
     sol_confirmTransaction := sol_confirmTransaction env;
     sol_getTransaction := sol_getTransaction env |}.

Definition set_xmr_chainActive (b : bool) (env : MoneroEnv) : MoneroEnv :=
  {| xmr_getInstance := xmr_getInstance env;
     xmr_chainActive := b;
     xmr_open_wallet := xmr_open_wallet env;
     xmr_transfer := xmr_transfer env;
     xmr_close_wallet := xmr_close_wallet env |}.

(** The row written on the failure path of a handler: only [status] and
    [description] differ from [t]. *)
Definition marked_failed (description : string) (t : Transaction)
    : Transaction :=
  {| tx_id := tx_id t; tx_walletId := tx_walletId t; tx_userId := tx_userId t;
     tx_type := tx_type t; tx_amount := tx_amount t; tx_fee := tx_fee t;
     tx_status := FAILED;
     tx_referenceId := tx_referenceId t;
     tx_description := Some description;
     tx_metadata := tx_metadata t |}.

(** The row written on the success path: only [status] and [referenceId]
    differ from [t]. *)
Definition marked_completed (referenceId : string) (t : Transaction)
    : Transaction :=
  {| tx_id := tx_id t; tx_walletId := tx_walletId t; tx_userId := tx_userId t;
     tx_type := tx_type t; tx_amount := tx_amount t; tx_fee := tx_fee t;
     tx_status := COMPLETED;
     tx_referenceId := Some referenceId;
     tx_description := tx_description t;
     tx_metadata := tx_metadata t |}.


Definition is_status (e : Event) : bool :=
  match e with EvStatus _ _ _ => true | _ => false end.

(** The status writes among a list of events, in order. *)
Definition statuses (evs : list Event) : list Event :=
  filter (fun e => is_status e = true) evs.

(** Events of the collaborators the queue calls after the transfer. *)
Definition is_business (e : Event) : bool :=
  match e with
  | EvRefund _ | EvEmail _ _ _ _ | EvNotification _ _ _ _ => true
  | _ => false
  end.

Definition empty_patch : Patch :=
  {| p_status := None; p_referenceId := None; p_description := None |}.

(** What the dispatch of a withdrawal does to the world: chain calls, and
    in between one write on row [id], of COMPLETED with a reference id when
    it returns, of FAILED with a description when it raises - or no write
    at all when it raises before the handler's own [catch] is in force. *)
Definition terminal_write (id : string) (r : Result unit) (w w' : World)
    : Prop :=
  ∃ pre post p,
    chain_events pre ∧ chain_events post ∧
    w' = emits post (patched p id (emits pre w)) ∧
    match r with
    | Ok _ => ∃ referenceId, p = completed_patch referenceId
    | Throw message =>
        p = failed_patch ("Withdrawal failed: " +:+ message) ∨ p = empty_patch
    end.

(** The status writes a run of [processNext] can make on its row once it
    has claimed it. *)
Definition claim_event (id : string) : Event := EvStatus id PENDING PROCESSING.

Definition run_status_writes (id : string) : list (list Event) :=
  [ [claim_event id; EvStatus id PROCESSING FAILED];
    [claim_event id; EvStatus id PROCESSING FAILED; EvStatus id FAILED FAILED];
    [claim_event id; EvStatus id PROCESSING COMPLETED];
    [claim_event id; EvStatus id PROCESSING COMPLETED;
     EvStatus id COMPLETED FAILED] ].




(** The events of a history of the coordinator. *)
Definition history_events (s : System) (actions : list Action) : list Event :=
  events_since (world s) (world (exec s actions)).

Definition pending (w : World) (id : string) : Prop :=
  ∃ t, transactions w !! id = Some t ∧ tx_status t = PENDING.

(** The end of the [finally] block before [processNext] is called again. *)
Definition finish (transactionId : string) (w : World) : World :=
  set_isProcessing false
    (set_processingTransactions (fun s => s ∖ {[transactionId]}) w).

(** [metadata] as the run reads it carries the truthy chain name [c] and
    the destination [to_]. *)
Definition routed (t : Transaction) (c to_ : string) : Prop :=
  tx_metadata t = MetaObject {| chain := Some c; toAddress := to_ |} ∧
  truthy c = true.



(** ** Sample data (the scenarios of the specification's section 8) *)

Definition wallet_w1 : Wallet :=
  {| w_id := "w1"; w_userId := "u1"; w_currency := "SOL"; w_type := "ECO" |}.

Definition wallet_w2 : Wallet :=
  {| w_id := "w2"; w_userId := "u1"; w_currency := "XMR"; w_type := "ECO" |}.

Definition user_u1 : User :=
  {| u_id := "u1"; u_email := "u1@example.org"; u_firstName := "U" |}.

Definition tx1 : Transaction :=
  {| tx_id := "tx1"; tx_walletId := "w1"; tx_userId := "u1";
     tx_type := "WITHDRAW"; tx_amount := 1; tx_fee := Some (5 # 2);
     tx_status := PENDING; tx_referenceId := None; tx_description := None;
     tx_metadata :=
       MetaObject {| chain := Some "SOL"; toAddress := "Addr1" |} |}.

Definition tx2 : Transaction :=
  {| tx_id := "tx2"; tx_walletId := "w2"; tx_userId := "u1";
     tx_type := "WITHDRAW"; tx_amount := 1 # 2; tx_fee := None;
     tx_status := PENDING; tx_referenceId := None; tx_description := None;
     tx_metadata :=
       MetaObject {| chain := Some "XMR"; toAddress := "Addr2" |} |}.

Definition world0 : World :=
  {| transactions := {[ "tx1" := tx1; "tx2" := tx2 ]};
     wallets := {[ "w1" := wallet_w1; "w2" := wallet_w2 ]};
     users := {[ "u1" := user_u1 ]};
     adminProfits := [];
     queue := [];
     isProcessing := false;
     processingTransactions := ∅;
     processedTransactions := ∅;
     trace := [] |}.

Definition final_success : option TxResult :=
  Some {| meta := Some {| err := None |} |}.

(** A Solana node that accepts the transfer and reports it confirmed. *)
Definition solana_ok : SolanaEnv :=
  {| sol_getInstance := Ok tt;
     sol_chainActive := true;
     sol_PublicKey := fun _ => Ok tt;
     sol_walletData := fun _ => Some "encrypted";
     sol_Keypair := fun _ => Ok tt;
     sol_getLatestBlockhash := Ok tt;
     sol_sendRawTransaction := Ok "Sig1";
     sol_confirmTransaction := Ok tt;
     sol_getTransaction := Ok final_success |}.

Definition rpc_ok : RpcResponse := {| rpc_error := None; rpc_tx_hash := None |}.

Definition monero_ok : MoneroEnv :=
  {| xmr_getInstance := Ok tt;
     xmr_chainActive := true;
     xmr_open_wallet := Ok rpc_ok;
     xmr_transfer := Ok {| rpc_error := None; rpc_tx_hash := Some "Hash1" |};
     xmr_close_wallet := Ok rpc_ok |}.


Definition env_ok : RunEnv :=
  {| solana := solana_ok; monero := monero_ok; ext := ExtCompleted "Ref1";
     confirmationEmail := Ok tt; refund := Ok tt; failedEmail := Ok tt;
     notification := Ok tt |}.

(** The node accepts the raw transaction, the confirmation wait times out
    and the transaction is not visible afterwards. *)
Definition solana_unconfirmed : SolanaEnv :=
  {| sol_getInstance := Ok tt;
     sol_chainActive := true;
     sol_PublicKey := fun _ => Ok tt;
     sol_walletData := fun _ => Some "encrypted";
     sol_Keypair := fun _ => Ok tt;
     sol_getLatestBlockhash := Ok tt;
     sol_sendRawTransaction := Ok "Sig1";
     sol_confirmTransaction := Throw "timeout";
     sol_getTransaction := Ok None |}.

(** The confirmation wait times out although the transaction went through. *)
Definition solana_timeout_then_found : SolanaEnv :=
  {| sol_getInstance := Ok tt;
     sol_chainActive := true;
     sol_PublicKey := fun _ => Ok tt;
     sol_walletData := fun _ => Some "encrypted";
     sol_Keypair := fun _ => Ok tt;
     sol_getLatestBlockhash := Ok tt;
     sol_sendRawTransaction := Ok "Sig1";
     sol_confirmTransaction := Throw "timeout";
     sol_getTransaction := Ok final_success |}.

(** The startup probe found no [sol.bin*] file; the node itself answers. *)
Definition solana_inactive : SolanaEnv :=
  {| sol_getInstance := Ok tt;
     sol_chainActive := Solana_checkChainStatus (Ok ["index.js"]);
     sol_PublicKey := fun _ => Ok tt;
     sol_walletData := fun _ => Some "encrypted";
     sol_Keypair := fun _ => Ok tt;
     sol_getLatestBlockhash := Ok tt;
     sol_sendRawTransaction := Ok "Sig1";
     sol_confirmTransaction := Ok tt;
     sol_getTransaction := Ok final_success |}.

(** The daemon reported [synchronized: false] at startup; the wallet RPC
    answers. *)
Definition monero_inactive : MoneroEnv :=
  {| xmr_getInstance := Ok tt;
     xmr_chainActive := Monero_checkChainStatus (Some false);
     xmr_open_wallet := Ok rpc_ok;
     xmr_transfer := Ok {| rpc_error := None; rpc_tx_hash := Some "Hash1" |};
     xmr_close_wallet := Ok rpc_ok |}.

(** The wallet RPC reports an incoming transfer of 12345 atomic units. *)
Definition deposit_env : DepositEnv :=
  {| dep_get_transfer_by_txid :=
       Ok (Some {| transfer_amount := 12345; transfer_fee := 30000 |});
     dep_address := Ok "4Addr";
     dep_store := Stored "dep1" |}.




Definition system0 : System := {| world := world0; inflight := None |}.


(** ** The coordinator seen from outside *)

(** The message with which the [try] block leaves for [catch] before any
    dispatch: the error of [JSON.parse], or the validation error. *)
Definition invalid_chain_message : string :=
  "Invalid or missing chain in transaction metadata".

Definition routing_error (t : Transaction) : option string :=
  match tx_metadata t with
  | MetaUnparsable e => Some e
  | MetaNull => Some invalid_chain_message
  | MetaObject {| chain := Some c; toAddress := _ |} =>
      if truthy c then None else Some invalid_chain_message
  | MetaObject {| chain := None; toAddress := _ |} =>
      Some invalid_chain_message
  end.

(** Where, and with which message, a run that has claimed its row enters
    the [catch] block: straight after the claim, out of the dispatch, or
    out of the confirmation e-mail. *)
Definition catch_entry (env : RunEnv) (id : string) (t : Transaction)
    (w1 : World) (message : string) (wc : World) : Prop :=
  (routing_error t = Some message ∧ wc = w1) ∨
  (∃ c to_, routed t c to_ ∧
            dispatch env id t c to_ w1 = (Throw message, wc)) ∨
  (∃ c to_ wd u,
     routed t c to_ ∧
     dispatch env id t c to_ w1 = (Ok tt, wd) ∧
     users wd !! tx_userId t = Some u ∧
     confirmationEmail env = Throw message ∧
     wc = emits [EvEmail "EcoWithdrawalConfirmation" (u_email u) t c] wd).

(** The world at the end of the [try] block when nothing was thrown. *)
Definition with_profit (t : Transaction) (wl : Wallet) (c : string)
    (w : World) : World :=
  if fee_is_positive_number t
  then set_adminProfits (fun l => l ++ [profit_entry t wl c]) w
  else w.

(** A state of the coordinator as its own code leaves it: no id twice in
    the pending list; busy exactly while a run is in flight, with that
    run's id alone in the in-flight set and not in the list. *)
Definition coordinator_ok (s : System) : Prop :=
  NoDup (queue (world s)) ∧
  match inflight s with
  | Some t =>
      isProcessing (world s) = true ∧
      processingTransactions (world s) = {[t]} ∧
      (t ∉ queue (world s)) ∧
      truthy t = true
  | None =>
      isProcessing (world s) = false ∧
      processingTransactions (world s) = ∅
  end.

Definition is_email (e : Event) : bool :=
  match e with EvEmail _ _ _ _ => true | _ => false end.

(** The columns no UPDATE of the queue or of a handler names. *)
Definition same_immutable (t t' : Transaction) : Prop :=
  tx_id t' = tx_id t ∧ tx_walletId t' = tx_walletId t ∧
  tx_userId t' = tx_userId t ∧ tx_type t' = tx_type t ∧
  tx_amount t' = tx_amount t ∧ tx_fee t' = tx_fee t ∧
  tx_metadata t' = tx_metadata t.

Definition row_evolves (o o' : option Transaction) : Prop :=
  match o, o' with
  | None, None => True
  | Some t, Some t' => same_immutable t t'
  | _, _ => False
  end.

(** No row appears or disappears, and every row keeps its immutable
    columns. *)
Definition rows_evolve (w w' : World) : Prop :=
  ∀ k, row_evolves (transactions w !! k) (transactions w' !! k).



(** The fields of the world a run of the body leaves alone. *)
Definition same_coordinator (w w' : World) : Prop :=
  queue w' = queue w ∧ isProcessing w' = isProcessing w ∧
  processingTransactions w' = processingTransactions w ∧
  wallets w' = wallets w ∧ users w' = users w ∧
  processedTransactions w' = processedTransactions w.

(** Events that precede the refund in a run: chain calls, status writes
    and the confirmation e-mail. *)
Definition before_refund (e : Event) : bool :=
  is_chain_event e || is_status e || is_email e.

(** What [refundUser] is given: a row that the [catch] block has just
    marked FAILED. *)
Definition refund_of_failed_row (e : Event) : Prop :=
  match e with
  | EvRefund t =>
      tx_status t = FAILED ∧
      ∃ m, tx_description t = Some ("Transaction failed: " +:+ m)
  | _ => True
  end.

(** The rows carried by the confirmation e-mails among a list of events:
    the [transaction] argument of [sendEcoWithdrawalConfirmationEmail],
    from which the e-mail takes AMOUNT and TRANSACTION_ID. *)
Definition confirmation_rows (evs : list Event) : list Transaction :=
  omap (fun e => match e with
                 | EvEmail type _ t _ =>
                     if (type =? "EcoWithdrawalConfirmation")%string
                     then Some t else None
                 | _ => None
                 end) evs.

(** [transaction.referenceId || transaction.id] *)
Definition TRANSACTION_ID (t : Transaction) : string :=
  match tx_referenceId t with
  | Some r => if truthy r then r else tx_id t
  | None => tx_id t
  end.




(** ** The service singletons *)

(** [SolanaService.getInstance]. The static [instance] is [None] until a
    constructor call has returned; the service object is represented by
    its [chainActive] flag. [ctor] is the outcome of [new SolanaService()]
    (which raises on an unknown [SOL_NETWORK]), [files] that of
    [readdirSync]. *)
Definition Solana_getInstance (ctor : Result unit)
    (files : Result (list string)) (instance : option bool)
    : Result bool * option bool :=
  match instance with
  | Some chainActive => (Ok chainActive, instance)
  | None =>
      match ctor with
      | Throw message => (Throw message, None)
      | Ok _ =>
          let chainActive := Solana_checkChainStatus files in
          (Ok chainActive, Some chainActive)
      end
  end.

(** [MoneroService.getInstance]. The instance is assigned before the
    probe is awaited; [get_info] is the outcome of the daemon call, with
    [status?.result?.synchronized] when it answers. *)
Definition Monero_getInstance (get_info : Result (option bool))
    (instance : option bool) : Result bool * option bool :=
  match instance with
  | Some chainActive => (Ok chainActive, instance)
  | None =>
      match get_info with
      | Ok synchronized =>
          let chainActive := Monero_checkChainStatus synchronized in
          (Ok chainActive, Some chainActive)
      | Throw message => (Throw message, Some false)
      end
  end.

(** Successive calls, each with the outcomes the environment would give
    it. *)
Fixpoint calls {E A S} (f : E → S → Result A * S) (envs : list E) (s : S)
    : list (Result A) * S :=
  match envs with
  | [] => ([], s)
  | e :: envs =>
      let '(r, s1) := f e s in
      let '(rs, s2) := calls f envs s1 in
      (r :: rs, s2)
  end.

(** ** MoneroService: transaction history *)

(** An entry of the [in], [out], [pending] or [failed] array of
    [get_transfers]. *)
Record RawMoneroTx := {
  raw_timestamp : Z;          (* seconds *)
  raw_txid : string;
  raw_type : string;
  raw_address : string;
  raw_amount : Z;             (* atomic units *)
  raw_confirmations : Z;
  raw_failed : bool;          (* truthiness of [tx.failed] *)
  raw_fee : Z;
}.

(** [ParsedTransaction]. The timestamp is kept in milliseconds and the
    eight-decimal strings as counts of [10^-8] XMR. *)
Record ParsedTransaction := {
  pt_timestamp : Z;
  pt_hash : string;
  pt_from : string;
  pt_to : string;
  pt_amount : Z;
  pt_confirmations : Z;
  pt_status : string;
  pt_isError : string;
  pt_fee : Z;
}.

Definition parseMoneroTransactions (rawTransactions : list RawMoneroTx)
    : list ParsedTransaction :=
  (fun tx =>
     {| pt_timestamp := raw_timestamp tx * 1000;
        pt_hash := raw_txid tx;
        pt_from := if (raw_type tx =? "in")%string then "N/A"
                   else raw_address tx;
        pt_to := if (raw_type tx =? "in")%string then raw_address tx
                 else "N/A";
        pt_amount := toFixed8 (raw_amount tx);
        pt_confirmations := raw_confirmations tx;
        pt_status := if (0 <? raw_confirmations tx)%Z then "Success"
                     else "Pending";
        pt_isError := if raw_failed tx then "1" else "0";
        pt_fee := toFixed8 (raw_fee tx) |}) <$> rawTransactions.

(** [response.result] of [get_transfers]; an absent array is [[]], as
    [response.result.in || []] makes it. *)
Record TransfersResult := {
  tr_in : list RawMoneroTx;
  tr_out : list RawMoneroTx;
  tr_pending : list RawMoneroTx;
  tr_failed : list RawMoneroTx;
}.

Record HistoryEnv := {
  h_monero : MoneroEnv;
  h_get_transfers : Result (option TransfersResult);
    (* [None]: a response without [result] *)
}.

Definition Monero_fetchTransactions (env : HistoryEnv) (walletName : string)
    : M (list ParsedTransaction) :=
  try_finally
    (try_catch
       ((* Step 1: Ensure the chain is active *)
        Monero_ensureChainActive (h_monero env);;
        (* Step 2: Open the wallet to access its transactions *)
        openWallet (h_monero env) walletName;;
        (* Step 3: Fetch transactions *)
        modify (emit (EvChain "XMR" "get_transfers"));;
        response ← external (h_get_transfers env);
        match response with
        | Some result =>
            let rawTransactions :=
              tr_in result ++ tr_out result ++ tr_pending result
              ++ tr_failed result in
            mret (parseMoneroTransactions rawTransactions)
        | None =>
            throw ("Failed to retrieve transactions for wallet: "
                   +:+ walletName)
        end)
       (fun message =>
          throw ("Failed to fetch Monero transactions: " +:+ message)))
    (closeWallet (h_monero env)).

Definition history_env : HistoryEnv :=
  {| h_monero := monero_inactive;
     h_get_transfers :=
       Ok (Some {| tr_in := []; tr_out := []; tr_pending := [];
                   tr_failed := [] |}) |}.

(** ** SolanaService: tracking a deposit *)

(** An account of the transaction that [connection.getTransaction]
    resolves to: the key at some index of [message.accountKeys] with the
    entries of [meta.preBalances] and [meta.postBalances] at that index
    (the node returns the three arrays with one entry per account). *)
Record TrackedAccount := {
  acc_key : string;
  acc_preBalance : Z;
  acc_postBalance : Z;
}.

Record TrackedTransaction := {
  trk_signature0 : string;              (* transaction.signatures[0] *)
  trk_meta : bool;                      (* [transaction.meta] is not null *)
  trk_accounts : list TrackedAccount;
}.

Record TrackEnv := {
  trk_getTransaction : nat → Result (option TrackedTransaction);
    (* the outcome of the query made after [retries] failed attempts *)
  trk_store : Result unit;              (* storeAndBroadcastTransaction *)
  trk_removeOnLogsListener : Result unit;
}.

Definition Solana_maxRetries : nat := 30.

(** The retry loop of [trackTransactionSignature]; [remaining] is
    [maxRetries - retries]. (The five-second pause between two attempts
    is not modelled.) *)
Fixpoint trackLoop (getTransaction : nat → Result (option TrackedTransaction))
    (retries remaining : nat) : M (option TrackedTransaction) :=
  match remaining with
  | O => mret None
  | S remaining' =>
      modify (emit (EvChain "SOL" "getTransaction"));;
      transaction ← try_catch (external (getTransaction retries))
                              (fun _ => mret None);
      match transaction with
      | Some tx => mret (Some tx)
      | None => trackLoop getTransaction (S retries) remaining'
      end
  end.

(** [trackTransactionSignature]. What [storeAndBroadcastTransaction] does
    with the deposit is not modelled here: the hand-over is recorded as an
    [EvDeposit] carrying the amount in lamports (the [txDetails] of this
    function have no fee). *)
Definition trackTransactionSignature (env : TrackEnv) (signature : string)
    (wallet : Wallet) (address : string) : M unit :=
  try_catch
    (transaction ← trackLoop (trk_getTransaction env) 0 Solana_maxRetries;
     match transaction with
     | None => mret tt
     | Some tx =>
         if negb (trk_meta tx) then mret tt
         else
           (* Find the index of the wallet address in the accountKeys *)
           match List.find (fun a => (acc_key a =? address)%string)
                           (trk_accounts tx) with
           | None => mret tt
           | Some account =>
               let balanceDifference :=
                 (acc_postBalance account - acc_preBalance account)%Z in
               if (balanceDifference <=? 0)%Z then mret tt
               else
                 modify (emit (EvDeposit (w_id wallet) "SOL" signature
                                         balanceDifference 0));;
                 external (trk_store env);;
                 (* Remove log listener once transaction is processed *)
                 modify (emit (EvChain "SOL" "removeOnLogsListener"));;
                 external (trk_removeOnLogsListener env)
           end
     end)
    (fun _ => mret tt).

Definition is_getTransaction (e : Event) : bool :=
  match e with
  | EvChain c op => (c =? "SOL")%string && (op =? "getTransaction")%string
  | _ => false
  end.

Definition is_deposit (e : Event) : bool :=
  match e with EvDeposit _ _ _ _ _ => true | _ => false end.

(** The node finds the transaction at the third query. *)
Definition track_env : TrackEnv :=
  {| trk_getTransaction := fun retries =>
       match retries with
       | 0%nat => Ok None
       | 1%nat => Throw "429 Too Many Requests"
       | _ => Ok (Some {| trk_signature0 := "Sig9"; trk_meta := true;
                          trk_accounts :=
                            [ {| acc_key := "Payer"; acc_preBalance := 9000;
                                 acc_postBalance := 3995 |};
                              {| acc_key := "Addr1"; acc_preBalance := 100;
                                 acc_postBalance := 5100 |} ] |})
       end;
     trk_store := Ok tt;
     trk_removeOnLogsListener := Ok tt |}.

(** ** SolanaService: transaction history and its cache *)

(** [instruction.parsed] of an instruction in parsed form. *)
Record ParsedInstruction := {
  pi_type : string;
  pi_source : string;
  pi_destination : string;
  pi_lamports : Z;
}.

Record SolInstruction := {
  ins_system_program : bool;  (* programId.equals(the System Program id) *)
  ins_parsed : option ParsedInstruction;
}.

Record RawSolMeta := {
  rm_err : option string;
  rm_confirmations : option Z;
  rm_fee : Z;
}.

(** What [connection.getTransaction] resolves to, when not [null]. *)
Record RawSolTransaction := {
  rs_signature0 : string;               (* transaction.signatures[0] *)
  rs_blockTime : option Z;
  rs_meta : option RawSolMeta;
  rs_instructions : list SolInstruction;
}.

(** The [forEach] over the instructions: [from], [to] and [amount] start
    as "", "" and "0" and are overwritten by every transfer of the System
    Program that involves [address]. The amount is kept in lamports. *)
Definition transferDetails (address : string)
    (instructions : list SolInstruction) : string * string * Z :=
  foldl (fun acc instruction =>
           match ins_parsed instruction with
           | Some info =>
               if ins_system_program instruction
                  && (pi_type info =? "transfer")%string
                  && ((pi_source info =? address)%string
                      || (pi_destination info =? address)%string)
               then (pi_source info, pi_destination info, pi_lamports info)
               else acc
           | None => acc
           end)
        ("", "", 0%Z) instructions.

(** [parseSolanaTransactions]: the [filter] and the [map]. [now] is
    [Date.now()]; amount and fee are kept in lamports. *)
Definition parseSolanaTransactions (now : Z)
    (rawTransactions : list (option RawSolTransaction)) (address : string)
    : list ParsedTransaction :=
  omap (fun raw =>
          match raw with
          | Some tx =>
              match rs_meta tx with
              | Some meta =>
                  let timestamp :=
                    match rs_blockTime tx with
                    | Some blockTime =>
                        if (blockTime =? 0)%Z then now else (blockTime * 1000)%Z
                    | None => now
                    end in
                  let status :=
                    match rm_err meta with
                    | Some _ => "Failed"
                    | None => "Success"
                    end in
                  let '(from, to, amount) :=
                    transferDetails address (rs_instructions tx) in
                  Some {| pt_timestamp := timestamp;
                          pt_hash := rs_signature0 tx;
                          pt_from := from;
                          pt_to := to;
                          pt_amount := amount;
                          pt_confirmations :=
                            default 0%Z (rm_confirmations meta);
                          pt_status := status;
                          pt_isError :=
                            if (status =? "Failed")%string then "1" else "0";
                          pt_fee := rm_fee meta |}
              | None => None
              end
          | None => None
          end) rawTransactions.

(** The value stored under a cache key, and the key's expiry. *)
Record CacheData := {
  cd_transactions : list ParsedTransaction;
  cd_timestamp : Z;                     (* milliseconds *)
}.

Record CacheEntry := {
  ce_value : CacheData;
  ce_expires : Z;                       (* milliseconds *)
}.

Record CacheEnv := {
  c_redis_get : Result unit;
  c_redis_setex : Result unit;
  c_PublicKey : Result unit;
  c_getSignaturesForAddress : Result (list string);
  c_getTransaction : string → Result (option RawSolTransaction);
}.

(** [cacheExpirationMinutes], the constructor's default. *)
Definition cacheExpiration : Z := 30.

(** [differenceInMinutes] of date-fns: full minutes, truncated. *)
Definition differenceInMinutes (now lastUpdated : Z) : Z :=
  Z.quot (now - lastUpdated) 60000.

Definition getCachedData (env : CacheEnv) (now : Z) (cacheKey : string)
    (redis : gmap string CacheEntry)
    : Result (option (list ParsedTransaction)) :=
  match c_redis_get env with
  | Throw message => Throw message
  | Ok _ =>
      match redis !! cacheKey with
      | Some entry =>
          if (now <? ce_expires entry)%Z
             && (differenceInMinutes now (cd_timestamp (ce_value entry))
                 <? cacheExpiration)%Z
          then Ok (Some (cd_transactions (ce_value entry)))
          else Ok None
      | None => Ok None
      end
  end.

(** [Promise.all] over the outcomes of requests that have all been
    issued. *)
Fixpoint Promise_all {A} (outcomes : list (Result A)) : Result (list A) :=
  match outcomes with
  | [] => Ok []
  | Ok a :: rest =>
      match Promise_all rest with
      | Ok l => Ok (a :: l)
      | Throw message => Throw message
      end
  | Throw message :: _ => Throw message
  end.

(** [fetchSolanaTransactions], with the requests it sends: any failure
    ends in the empty list. *)
Definition fetchSolanaTransactions (env : CacheEnv) (address : string)
    : list (option RawSolTransaction) * list Event :=
  match c_PublicKey env with
  | Throw _ => ([], [])
  | Ok _ =>
      match c_getSignaturesForAddress env with
      | Throw _ => ([], [EvChain "SOL" "getSignaturesForAddress"])
      | Ok signatures =>
          let requests :=
            EvChain "SOL" "getSignaturesForAddress"
            :: ((fun _ => EvChain "SOL" "getTransaction") <$> signatures) in
          match Promise_all (c_getTransaction env <$> signatures) with
          | Ok transactions => (transactions, requests)
          | Throw _ => ([], requests)
          end
      end
  end.

(** [SolanaService.fetchTransactions] at time [now]: the result, the
    store afterwards and the requests sent to the node. *)
Definition Solana_fetchTransactions (env : CacheEnv) (now : Z)
    (address : string) (redis : gmap string CacheEntry)
    : Result (list ParsedTransaction) * gmap string CacheEntry * list Event :=
  let cacheKey := "wallet:" +:+ address +:+ ":transactions:sol" in
  match getCachedData env now cacheKey redis with
  | Throw message =>
      (Throw ("Failed to fetch Solana transactions: " +:+ message), redis, [])
  | Ok (Some cachedData) => (Ok cachedData, redis, [])
  | Ok None =>
      let '(rawTransactions, requests) := fetchSolanaTransactions env address in
      let parsedTransactions :=
        parseSolanaTransactions now rawTransactions address in
      let cacheData :=
        {| cd_transactions := parsedTransactions; cd_timestamp := now |} in
      match c_redis_setex env with
      | Throw message =>
          (Throw ("Failed to fetch Solana transactions: " +:+ message),
           redis, requests)
      | Ok _ =>
          (Ok parsedTransactions,
           <[cacheKey := {| ce_value := cacheData;
                            ce_expires := now + cacheExpiration * 60 * 1000 |}]>
             redis,
           requests)
      end
  end.

(** The node is unreachable; Redis answers. *)
Definition cache_env_down : CacheEnv :=
  {| c_redis_get := Ok tt; c_redis_setex := Ok tt; c_PublicKey := Ok tt;
     c_getSignaturesForAddress := Throw "fetch failed";
     c_getTransaction := fun _ => Ok None |}.

(** ** MoneroService: the poll chains of the deposit monitor *)

(** [MoneroService.monitoredWallets], a [Map] from wallet id to wallet:
    the wallets in insertion order, at most one per id. *)
Definition monitored_has (walletId : string) (monitored : list Wallet) : bool :=
  existsb (fun wallet => (w_id wallet =? walletId)%string) monitored.

(** [unmonitorMoneroDeposits] *)
Definition unmonitorMoneroDeposits (walletId : string)
    (monitored : list Wallet) : list Wallet :=
  List.filter (fun wallet => negb (w_id wallet =? walletId)%string) monitored.

Record PollEnv := {
  poll_monero : MoneroEnv;
  poll_get_transfers : Result (list InTransfer);
    (* [transfers.result.in]; [[]] when there is no such array *)
  poll_deposit : string → DepositEnv;   (* by [txid] *)
}.

(** The body of [for (const tx of transfers.result.in)], with the map of
    monitored wallets. *)
Definition pollTransfer (env : PollEnv) (wallet : Wallet)
    (monitored : list Wallet) (tx : InTransfer) : M (list Wallet) :=
  seen ← gets (fun w => bool_decide (txid tx ∈ processedTransactions w));
  if (seen : bool) then mret monitored
  else if (minConfirmations <=? confirmations tx)%Z then
    depositProcessed ←
      processMoneroTransaction (poll_deposit env (txid tx)) (txid tx) wallet;
    (* Unmonitor the wallet only if the deposit was processed *)
    if (depositProcessed : bool)
    then mret (unmonitorMoneroDeposits (w_id wallet) monitored)
    else mret monitored
  else mret monitored.

Fixpoint forTransfers (env : PollEnv) (wallet : Wallet)
    (transfers : list InTransfer) (monitored : list Wallet)
    : M (list Wallet) :=
  match transfers with
  | [] => mret monitored
  | tx :: rest =>
      monitored' ← pollTransfer env wallet monitored tx;
      forTransfers env wallet rest monitored'
  end.

Definition Monero_maxRetries : nat := 60.

(** Whether [setTimeout(checkWalletForDeposits, retryInterval)] was
    called. *)
Inductive PollOutcome :=
| Rescheduled
| Ended.

(** One run of [checkWalletForDeposits] for [wallet], taken as one step;
    [retryCount] is the closure's counter. The only statement of the
    [try] block that can raise is the [get_transfers] request, before
    the map or the counter have been touched. *)
Definition checkWalletForDeposits (env : PollEnv) (wallet : Wallet)
    (retryCount : nat) (monitored : list Wallet)
    : M (PollOutcome * nat * list Wallet) :=
  try_catch
    (openWallet (poll_monero env) (w_id wallet);;
     modify (emit (EvChain "XMR" "get_transfers"));;
     transfers ← external (poll_get_transfers env);
     monitored ← forTransfers env wallet transfers monitored;
     closeWallet (poll_monero env);;
     let retryCount := S retryCount in
     if (retryCount <? Monero_maxRetries)%nat
        && monitored_has (w_id wallet) monitored
     then mret (Rescheduled, retryCount, monitored)
     else if (Monero_maxRetries <=? retryCount)%nat
     then mret (Ended, retryCount,
                unmonitorMoneroDeposits (w_id wallet) monitored)
     else mret (Ended, retryCount, monitored))
    (fun _ => mret (Ended, retryCount, monitored)).

(** The chain of polls that one call of [checkWalletForDeposits()] in
    [processMonitoredWallets] starts: each poll that reschedules itself
    is followed by the next. [envs] gives the environment of the poll
    made with a given counter; [remaining] bounds the recursion. *)
Fixpoint pollChain (envs : nat → PollEnv) (wallet : Wallet)
    (remaining retryCount : nat) (monitored : list Wallet)
    : M (nat * list Wallet) :=
  match remaining with
  | O => mret (retryCount, monitored)
  | S remaining' =>
      '(outcome, retryCount', monitored') ←
        checkWalletForDeposits (envs retryCount) wallet retryCount monitored;
      match outcome with
      | Rescheduled =>
          pollChain envs wallet remaining' retryCount' monitored'
      | Ended => mret (retryCount', monitored')
      end
  end.

(** [monitorMoneroDeposits] and [processMonitoredWallets], as far as the
    map is concerned: the map afterwards and the wallets for which a
    chain of polls is started, in order. *)
Definition monitorMoneroDeposits (wallet : Wallet) (monitored : list Wallet)
    : list Wallet * list Wallet :=
  if monitored_has (w_id wallet) monitored then (monitored, [])
  else
    let monitored' := monitored ++ [wallet] in
    (monitored', monitored').

Definition is_get_transfers (e : Event) : bool :=
  match e with
  | EvChain c op => (c =? "XMR")%string && (op =? "get_transfers")%string
  | _ => false
  end.

Definition is_close_wallet (e : Event) : bool :=
  match e with
  | EvChain c op => (c =? "XMR")%string && (op =? "close_wallet")%string
  | _ => false
  end.

(** Calls other than [get_transfers] and [close_wallet]. *)
Definition quiet (evs : list Event) : Prop :=
  Forall (fun e => is_get_transfers e = false ∧ is_close_wallet e = false) evs.

(** A wallet RPC that never shows a transfer. *)
Definition poll_env_quiet : PollEnv :=
  {| poll_monero := monero_ok; poll_get_transfers := Ok [];
     poll_deposit := fun _ => deposit_env |}.

(** Successive calls of [monitorMoneroDeposits] with no wallet leaving
    the map in between: the map at the end and the chains started. *)
Fixpoint monitor_each (wallets monitored : list Wallet)
    : list Wallet * list Wallet :=
  match wallets with
  | [] => (monitored, [])
  | wallet :: rest =>
      let '(monitored1, started1) := monitorMoneroDeposits wallet monitored in
      let '(monitored2, started2) := monitor_each rest monitored1 in
      (monitored2, started1 ++ started2)
  end.

(** ** MoneroService: the queue of wallet operations *)

(** The operations that [createWallet], [getBalance], [transferXMR] and
    [closeWallet] hand to [addToQueue], by name: the queue holds closures
    in the source. *)
Inductive QueuedOp :=
| OpCreateWallet (walletName : string)
| OpGetBalance (walletName : string)
| OpTransferXMR (walletName destinationAddress : string) (amountXMR : Q)
| OpCloseWallet.

Inductive Value :=
| VWallet (address mnemonic : string)   (* [{address, data: {mnemonic}}] *)
| VBalance (atomic : Z)                 (* the balance, kept in atomic units *)
| VHash (tx_hash : string).

(** What an operation did with the [resolve] and [reject] of the promise
    its caller holds. *)
Inductive Settlement :=
| Resolved (value : Value)
| Rejected (message : string)
| NotSettled.

(** [open_wallet]'s response as [getBalance] and [transferXMR] read it. *)
Record OpenResponse := {
  open_result : bool;                   (* [openResponse.result] is truthy *)
  open_error : option string;           (* JSON text of [openResponse.error] *)
}.

Record QueueEnv := {
  q_chainActive : bool;
  q_create_wallet : Result (option string);
    (* [None] when [response.result] is truthy, else the JSON text of the
       response *)
  q_get_address : Result (option string);   (* a truthy [result.address] *)
  q_query_key : Result (option string);     (* a truthy [result.key] *)
  q_open_wallet : Result OpenResponse;
  q_get_balance : Result (option Z);
    (* [result.balance] when it is a number *)
  q_transfer : Result (option string * string);
    (* [result?.tx_hash] and the JSON text of the response *)
  q_close_wallet : Result RpcResponse;
}.

Definition queue_ensureChainActive (env : QueueEnv) : M unit :=
  if q_chainActive env then mret tt
  else throw "Chain 'Monero' is not active.".

(** An operation run by [processQueue]: what it settles and what it
    pushes on the queue. While the queue is being processed, the
    [await this.closeWallet()] of a [finally] block only pushes the close
    operation ([addToQueue] returns at once). An operation raises only in
    [ensureChainActive] (or, for the close operation, as its last act),
    before it has settled or pushed anything. *)
Definition runOp (env : QueueEnv) (operation : QueuedOp)
    : M (Settlement * list QueuedOp) :=
  match operation with
  | OpCreateWallet walletName =>
      queue_ensureChainActive env;;
      settled ← try_catch
        ((* Step 1: Create the wallet *)
         modify (emit (EvChain "XMR" "create_wallet"));;
         response ← external (q_create_wallet env);
         match response with
         | None =>
             modify (emit (EvChain "XMR" "get_address"));;
             address ← external (q_get_address env);
             walletAddress ←
               match address with
               | Some a => mret a
               | None => throw "Failed to retrieve Monero wallet address."
               end;
             modify (emit (EvChain "XMR" "query_key"));;
             key ← external (q_query_key env);
             walletMnemonic ←
               match key with
               | Some k => mret k
               | None => throw "Failed to retrieve Monero wallet mnemonic."
               end;
             mret (Resolved (VWallet walletAddress walletMnemonic))
         | Some json => throw ("Failed to create wallet: " +:+ json)
         end)
        (fun message => mret (Rejected message));
      mret (settled, [OpCloseWallet])
  | OpGetBalance walletName =>
      queue_ensureChainActive env;;
      settled ← try_catch
        (modify (emit (EvChain "XMR" "open_wallet"));;
         openResponse ← external (q_open_wallet env);
         if open_result openResponse || negb (bool_decide (is_Some (open_error openResponse)))
         then
           (* Fetch the wallet balance *)
           modify (emit (EvChain "XMR" "get_balance"));;
           balanceResponse ← external (q_get_balance env);
           match balanceResponse with
           | Some balance =>
               if (0 <=? balance)%Z then mret (Resolved (VBalance balance))
               else throw ("Failed to retrieve balance for wallet: "
                           +:+ walletName)
           | None =>
               throw ("Failed to retrieve balance for wallet: " +:+ walletName)
           end
         else
           mret (Rejected ("Failed to open wallet: "
                           +:+ default "" (open_error openResponse))))
        (fun message => mret (Rejected message));
      mret (settled, [OpCloseWallet])
  | OpTransferXMR walletName destinationAddress amountXMR =>
      queue_ensureChainActive env;;
      settled ← try_catch
        (modify (emit (EvChain "XMR" "open_wallet"));;
         openResponse ← external (q_open_wallet env);
         (if open_result openResponse then mret tt
          else throw ("Failed to open wallet: " +:+ walletName));;
         (* Convert amount from XMR to atomic units *)
         let amountAtomic := toAtomicUnits amountXMR in
         modify (emit (EvTransfer "XMR" destinationAddress amountAtomic));;
         transferResponse ← external (q_transfer env);
         match transferResponse with
         | (Some tx_hash, json) =>
             if truthy tx_hash then mret (Resolved (VHash tx_hash))
             else throw ("Failed to send transaction: " +:+ json)
         | (None, json) => throw ("Failed to send transaction: " +:+ json)
         end)
        (fun message => mret (Rejected message));
      mret (settled, [OpCloseWallet])
  | OpCloseWallet =>
      modify (emit (EvChain "XMR" "close_wallet"));;
      response ← external (q_close_wallet env);
      match rpc_error response with
      | Some e => throw ("Failed to close wallet: " +:+ e)
      | None => mret (NotSettled, [])
      end
  end.

(** The [while] loop of [processQueue]: the operations run, with what
    each settled, and the operations left when [fuel] runs out. *)
Fixpoint processQueue (fuel : nat) (env : QueueEnv) (queue : list QueuedOp)
    : M (list (QueuedOp * Settlement) * list QueuedOp) :=
  match queue with
  | [] => mret ([], [])
  | operation :: rest =>
      match fuel with
      | O => mret ([], queue)
      | S fuel' =>
          '(settled, pushed) ←
            try_catch (runOp env operation)
                      (fun _ => mret (NotSettled, []));
          '(ran, waiting) ← processQueue fuel' env (rest ++ pushed);
          mret ((operation, settled) :: ran, waiting)
      end
  end.

(** A public operation called while the queue is idle: [addToQueue]
    pushes it and runs [processQueue]. *)
Definition queued (env : QueueEnv) (operation : QueuedOp) : M Settlement :=
  '(ran, _) ← processQueue 2 env [operation];
  mret (match ran with
        | (_, settled) :: _ => settled
        | [] => NotSettled
        end).

Definition transferXMR (env : QueueEnv)
    (walletName destinationAddress : string) (amountXMR : Q) : M Settlement :=
  queued env (OpTransferXMR walletName destinationAddress amountXMR).

Definition Monero_getBalance (env : QueueEnv) (walletName : string)
    : M Settlement :=
  queued env (OpGetBalance walletName).


Definition is_main_op (operation : QueuedOp) : bool :=
  match operation with OpCloseWallet => false | _ => true end.

(** The wallet RPC answers, with a balance and a transfer hash. *)
Definition queue_env (chainActive : bool) : QueueEnv :=
  {| q_chainActive := chainActive;
     q_create_wallet := Ok None;
     q_get_address := Ok (Some "4Addr");
     q_query_key := Ok (Some "words");
     q_open_wallet := Ok {| open_result := true; open_error := None |};
     q_get_balance := Ok (Some 2500000000000%Z);
     q_transfer := Ok (Some "Hash1", "{}");
     q_close_wallet := Ok rpc_ok |}.

(** ** SolanaService: processing a deposit by its hash *)

Record ProcessEnv := {
  ps_getTransaction : Result (option RawSolTransaction);
  ps_store : Result unit;               (* storeAndBroadcastTransaction *)
}.

(** The [forEach] of [processSolanaTransaction]: [amount] starts as "0"
    and is overwritten by every transfer of the System Program whose
    destination is [address]. The amount is kept in lamports: its text
    is "0" exactly when the lamports are 0. *)
Definition receivedLamports (address : string)
    (instructions : list SolInstruction) : Z :=
  foldl (fun amount instruction =>
           match ins_parsed instruction with
           | Some info =>
               if ins_system_program instruction
                  && (pi_type info =? "transfer")%string
                  && (pi_destination info =? address)%string
               then pi_lamports info
               else amount
           | None => amount
           end)
        0%Z instructions.

(** [processSolanaTransaction]; the hand-over to
    [storeAndBroadcastTransaction] is recorded as an [EvDeposit] with
    amount and fee in lamports. *)
Definition processSolanaTransaction (env : ProcessEnv)
    (transactionHash : string) (wallet : Wallet) (address : string)
    : M unit :=
  try_catch
    (modify (emit (EvChain "SOL" "getTransaction"));;
     transaction ← external (ps_getTransaction env);
     match transaction with
     | None => mret tt
     | Some tx =>
         match rs_meta tx with
         | None => mret tt
         | Some meta =>
             let amount := receivedLamports address (rs_instructions tx) in
             if (amount =? 0)%Z then mret tt
             else
               modify (emit (EvDeposit (w_id wallet) "SOL" (rs_signature0 tx)
                                       amount (rm_fee meta)));;
               external (ps_store env)
         end
     end)
    (fun _ => mret tt).

(** A System Program transfer to [address]. *)
Definition pays (address : string) (instruction : SolInstruction) : bool :=
  match ins_parsed instruction with
  | Some info =>
      ins_system_program instruction
      && (pi_type info =? "transfer")%string
      && (pi_destination info =? address)%string
  | None => false
  end.

Definition lamports_of (instruction : SolInstruction) : Z :=
  match ins_parsed instruction with
  | Some info => pi_lamports info
  | None => 0%Z
  end.

(** Two transfers to the same address in one transaction. *)
Definition process_env : ProcessEnv :=
  {| ps_getTransaction :=
       Ok (Some {| rs_signature0 := "Sig7"; rs_blockTime := Some 1700000000%Z;
                   rs_meta := Some {| rm_err := None;
                                      rm_confirmations := None;
                                      rm_fee := 5000 |};
                   rs_instructions :=
                     [ {| ins_system_program := true;
                          ins_parsed :=
                            Some {| pi_type := "transfer"; pi_source := "A";
                                    pi_destination := "Addr1";
                                    pi_lamports := 700 |} |};
                       {| ins_system_program := true;
                          ins_parsed :=
                            Some {| pi_type := "transfer"; pi_source := "B";
                                    pi_destination := "Addr1";
                                    pi_lamports := 300 |} |} ] |});
     ps_store := Ok tt |}.

(** ** MoneroService.ensureWalletExists *)



(** * Properties *)

(** ** Rounding *)


Example toAtomicUnits_rounds_up :
  toAtomicUnits (6 # 10000000000000) = 1%Z ∧
  Math_trunc ((6 # 10000000000000) * inject_Z e12) = 0%Z.
Proof. split; vm_compute; reflexivity. Qed.

Example toFixed8_examples :
  toFixed8 1 = 0%Z ∧ toFixed8 4999 = 0%Z ∧ toFixed8 5000 = 1%Z ∧
  toFixed8 12345 = 1%Z ∧ toFixed8 1000000000000 = 100000000%Z.
Proof. repeat split; vm_compute; reflexivity. Qed.

(** ** The monad and the world transformers *)

Ltac munfold :=
  unfold mbind, M_bind, mret, M_ret, bind, ret, throw, try_catch,
    try_finally, external, modify, gets in *.

Lemma emits_nil w : emits [] w = w.
Proof. destruct w; unfold emits; simpl. by rewrite app_nil_r. Qed.

Lemma emits_emits a b w : emits b (emits a w) = emits (a ++ b) w.
Proof. unfold emits; simpl. by rewrite app_assoc. Qed.

Lemma emit_emits e w : emit e w = emits [e] w.
Proof. reflexivity. Qed.

Lemma events_since_app w w' evs :
  trace w' = trace w ++ evs → events_since w w' = evs.
Proof. intros H. unfold events_since. by rewrite H, drop_app_length. Qed.

Lemma transaction_update_always p id w :
  transaction_update p id (fun _ => true) w =
    (Ok (match transactions w !! id with Some _ => 1%nat | None => 0%nat end),
     patched p id w).
Proof.
  unfold patched, transaction_update.
  by destruct (transactions w !! id).
Qed.

Lemma patched_lookup p id w k :
  transactions (patched p id w) !! k =
    if decide (k = id) then apply_patch p <$> transactions w !! k
    else transactions w !! k.
Proof.
  unfold patched, transaction_update.
  destruct (transactions w !! id) as [t|] eqn:Ht; simpl.
  - destruct (p_status p); simpl;
      (case_decide as Hk; [subst k; by rewrite lookup_insert_eq, Ht
                          | by rewrite lookup_insert_ne]).
  - case_decide; [subst k; by rewrite Ht | done].
Qed.

Lemma patched_trace p id w :
  trace (patched p id w) =
    trace w ++ match transactions w !! id, p_status p with
               | Some t, Some s => [EvStatus id (tx_status t) s]
               | _, _ => []
               end.
Proof.
  unfold patched, transaction_update.
  destruct (transactions w !! id) as [t|]; simpl.
  - destruct (p_status p); simpl; [done | by rewrite app_nil_r].
  - by rewrite app_nil_r.
Qed.

Lemma patched_frame p id w :
  wallets (patched p id w) = wallets w ∧
  users (patched p id w) = users w ∧
  adminProfits (patched p id w) = adminProfits w ∧
  queue (patched p id w) = queue w ∧
  isProcessing (patched p id w) = isProcessing w ∧
  processingTransactions (patched p id w) = processingTransactions w ∧
  processedTransactions (patched p id w) = processedTransactions w.
Proof.
  unfold patched, transaction_update.
  destruct (transactions w !! id); simpl; [destruct (p_status p)|]; done.
Qed.

(** ** SolanaService.transferSol *)

Ltac solve_emits :=
  unfold emit; rewrite ?emits_emits; simpl; try reflexivity;
  unfold emits; simpl; rewrite <- ?app_assoc; simpl; reflexivity.

Ltac chain_only evs :=
  exists evs; split; [unfold chain_events; by repeat constructor | solve_emits].

Lemma transferSol_chain_only env walletId recipient amount w :
  ∃ evs, chain_events evs ∧
         (transferSol env walletId recipient amount w).2 = emits evs w.
Proof.
  unfold transferSol. munfold.
  destruct (sol_walletData env walletId) as [data|]; simpl;
    [|exists []; split; [constructor | by rewrite emits_nil]].
  destruct (sol_Keypair env data) as [[]|]; simpl;
    [|exists []; split; [constructor | by rewrite emits_nil]].
  destruct (sol_getLatestBlockhash env) as [[]|]; simpl;
    [|chain_only [EvChain "SOL" "getLatestBlockhash"]].
  destruct (sol_sendRawTransaction env) as [sig|]; simpl;
    [|chain_only [EvChain "SOL" "getLatestBlockhash";
                    EvTransfer "SOL" recipient amount]].
  destruct (sol_confirmTransaction env) as [[]|]; simpl;
    (destruct (sol_getTransaction env) as [[[[[[e|]]|]]|]|m]; simpl;
     chain_only [EvChain "SOL" "getLatestBlockhash";
                   EvTransfer "SOL" recipient amount;
                   EvChain "SOL" "confirmTransaction";
                   EvChain "SOL" "getTransaction"]).
Qed.

Lemma transferSol_Ok env walletId recipient amount w signature :
  (transferSol env walletId recipient amount w).1 = Ok signature →
  sol_sendRawTransaction env = Ok signature ∧
  sol_getTransaction env = Ok final_success.
Proof.
  unfold transferSol. munfold.
  destruct (sol_walletData env walletId) as [data|]; simpl; [|done].
  destruct (sol_Keypair env data) as [[]|]; simpl; [|done].
  destruct (sol_getLatestBlockhash env) as [[]|]; simpl; [|done].
  destruct (sol_sendRawTransaction env) as [sig|]; simpl; [|done].
  destruct (sol_confirmTransaction env) as [[]|]; simpl;
    (destruct (sol_getTransaction env) as [[[[[[e|]]|]]|]|m]; simpl;
     intros [=]; by subst).
Qed.

(** ** The withdrawal handlers: one terminal write, chain calls around it *)

Lemma handleSolanaWithdrawal_spec env id walletId amount to_ w :
  ∃ pre p r,
    chain_events pre ∧
    handleSolanaWithdrawal env id walletId amount to_ w
      = (r, patched p id (emits pre w)) ∧
    ((r = Ok tt ∧ ∃ signature,
        sol_sendRawTransaction env = Ok signature ∧
        p = completed_patch signature) ∨
     (∃ message, r = Throw message ∧
        p = failed_patch ("Withdrawal failed: " +:+ message))).
Proof.
  unfold handleSolanaWithdrawal. munfold.
  destruct (sol_PublicKey env to_) as [[]|m]; simpl.
  2:{ exists [], (failed_patch ("Withdrawal failed: " +:+ m)), (Throw m).
      rewrite emits_nil, transaction_update_always. simpl.
      split; [constructor|]. split; [done|]. right. by exists m. }
  destruct (transferSol env walletId to_ (toLamports amount) w)
    as [r1 w1] eqn:E.
  destruct (transferSol_chain_only env walletId to_ (toLamports amount) w)
    as (evs & Hevs & Hw1).
  rewrite E in Hw1. simpl in Hw1. subst w1.
  destruct r1 as [sig|m].
  - pose proof (transferSol_Ok env walletId to_ (toLamports amount) w sig)
      as Hsig. rewrite E in Hsig. destruct (Hsig eq_refl) as [Hsend _].
    destruct (truthy sig) eqn:Htruthy.
    + rewrite transaction_update_always. simpl.
      exists evs, (completed_patch sig), (Ok tt).
      split; [done|]. split; [done|]. left. split; [done|]. by exists sig.
    + simpl. rewrite transaction_update_always. simpl.
      eexists evs, _, _. split; [done|]. split; [reflexivity|].
      right. by eexists.
  - simpl. rewrite transaction_update_always. simpl.
    eexists evs, _, _. split; [done|]. split; [reflexivity|].
    right. by eexists.
Qed.

Lemma openWallet_run env walletName w :
  openWallet env walletName w = (Ok tt, emits [EvChain "XMR" "open_wallet"] w).
Proof.
  unfold openWallet, Monero_addToQueue. munfold.
  destruct (xmr_open_wallet env) as [[[e|] h]|m]; reflexivity.
Qed.

Lemma closeWallet_run env w :
  closeWallet env w = (Ok tt, emits [EvChain "XMR" "close_wallet"] w).
Proof.
  unfold closeWallet, Monero_addToQueue. munfold.
  destruct (xmr_close_wallet env) as [[[e|] h]|m]; reflexivity.
Qed.

Lemma handleMoneroWithdrawal_spec env id walletId amount to_ w :
  ∃ p r,
    handleMoneroWithdrawal env id walletId amount to_ w
      = (r, emits [EvChain "XMR" "close_wallet"]
              (patched p id
                 (emits [EvChain "XMR" "open_wallet";
                         EvTransfer "XMR" to_ (toAtomicUnits amount)] w))) ∧
    ((r = Ok tt ∧ ∃ tx_hash, p = completed_patch tx_hash) ∨
     (∃ message, r = Throw message ∧
        p = failed_patch ("Withdrawal failed: " +:+ message))).
Proof.
  unfold handleMoneroWithdrawal.
  unfold try_finally, try_catch, mbind, M_bind, bind.
  rewrite openWallet_run.
  unfold modify, external. simpl.
  change (emit (EvTransfer "XMR" to_ (toAtomicUnits amount))
            (emits [EvChain "XMR" "open_wallet"] w))
    with (emits [EvTransfer "XMR" to_ (toAtomicUnits amount)]
            (emits [EvChain "XMR" "open_wallet"] w)).
  rewrite emits_emits. simpl.
  destruct (xmr_transfer env) as [[e [h|]]|m]; simpl.
  - destruct (truthy h); simpl; unfold throw, mret, M_ret, ret;
      rewrite transaction_update_always; simpl; rewrite closeWallet_run;
      eexists _, _; (split; [reflexivity|]).
    + left. split; [done|]. by eexists.
    + right. by eexists.
  - unfold throw. rewrite transaction_update_always; simpl.
    rewrite closeWallet_run. eexists _, _; (split; [reflexivity|]).
    right. by eexists.
  - rewrite transaction_update_always; simpl.
    rewrite closeWallet_run. eexists _, _; (split; [reflexivity|]).
    right. by eexists.
Qed.

(** ** SolanaService.transferSol: the verdict comes from the final state *)

(** C7. In [transferSol], once the raw transaction has been sent and the
    confirmation wait has failed, the result is read off the re-queried
    transaction: the signature when the final state has [err === null], a
    failure carrying the on-chain error when it has one, the failure
    "Transaction not found or not confirmed" when there is no final state,
    and the query is made (a [getTransaction] call follows the failed
    wait). *)
Theorem transferSol_resolves_from_final_state
    env walletId recipient amount w data signature confirmError :
  sol_walletData env walletId = Some data →
  sol_Keypair env data = Ok tt →
  sol_getLatestBlockhash env = Ok tt →
  sol_sendRawTransaction env = Ok signature →
  sol_confirmTransaction env = Throw confirmError →
  let run := transferSol env walletId recipient amount w in
  (∃ before,
     events_since w run.2 =
       before ++ [EvChain "SOL" "confirmTransaction";
                  EvChain "SOL" "getTransaction"]) ∧
  (sol_getTransaction env = Ok final_success → run.1 = Ok signature) ∧
  (∀ e, sol_getTransaction env = Ok (Some {| meta := Some {| err := Some e |} |}) →
        run.1 = Throw ("Failed to transfer SOL: Transaction failed with error: "
                       +:+ e)) ∧
  (sol_getTransaction env = Ok None ∨
   sol_getTransaction env = Ok (Some {| meta := None |}) →
     run.1 = Throw "Failed to transfer SOL: Transaction not found or not confirmed") ∧
  (run.1 = Throw "Failed to transfer SOL: Transaction not found or not confirmed" →
     ∀ m, sol_getTransaction env ≠ Ok (Some {| meta := Some m |})).
Proof.
  intros Hdata Hkey Hhash Hsend Hconfirm run. subst run.
  unfold transferSol. munfold.
  rewrite Hdata; simpl. rewrite Hkey; simpl. rewrite Hhash; simpl.
  rewrite Hsend; simpl. rewrite Hconfirm; simpl.
  split.
  { exists [EvChain "SOL" "getLatestBlockhash";
            EvTransfer "SOL" recipient amount].
    destruct (sol_getTransaction env) as [[[[[[e|]]|]]|]|m]; simpl;
      apply events_since_app; simpl; by rewrite <- !app_assoc. }
  split; [by intros ->|]. split; [by intros e ->|].
  split; [by intros [-> | ->]|].
  destruct (sol_getTransaction env) as [[[[[[e|]]|]]|]|m]; simpl;
    intros H; try discriminate H; intros [m']; discriminate.
Qed.

Lemma transferSol_resolves_from_final_state_witness :
  (transferSol solana_timeout_then_found "w1" "Addr1" 1000000000 world0).1
    = Ok "Sig1" ∧
  (transferSol solana_unconfirmed "w1" "Addr1" 1000000000 world0).1
    = Throw "Failed to transfer SOL: Transaction not found or not confirmed".
Proof.
  split.
  - apply (transferSol_resolves_from_final_state solana_timeout_then_found
             "w1" "Addr1" 1000000000%Z world0 "encrypted" "Sig1" "timeout");
      reflexivity.
  - apply (transferSol_resolves_from_final_state solana_unconfirmed
             "w1" "Addr1" 1000000000%Z world0 "encrypted" "Sig1" "timeout");
      try reflexivity. by left.
Defined.

(** ** SolanaService.handleSolanaWithdrawal: what each path writes *)

(** C10. A failing run of [handleSolanaWithdrawal] rewrites the row of the
    transaction with a new [status] (FAILED) and [description] only: the
    [referenceId] column, like every other column and every other row, is
    what it was, whether or not a raw transaction had been sent. A
    [referenceId] is written only by a successful run, together with
    COMPLETED, and it is the signature returned by the broadcast. *)
Theorem handleSolanaWithdrawal_failure_keeps_referenceId
    env id walletId amount to_ w :
  let run := handleSolanaWithdrawal env id walletId amount to_ w in
  (∀ k, k ≠ id → transactions run.2 !! k = transactions w !! k) ∧
  match run.1 with
  | Throw message =>
      transactions run.2 !! id =
        marked_failed ("Withdrawal failed: " +:+ message)
          <$> transactions w !! id
  | Ok _ =>
      ∃ signature,
        sol_sendRawTransaction env = Ok signature ∧
        transactions run.2 !! id =
          marked_completed signature <$> transactions w !! id
  end.
Proof.
  simpl.
  destruct (handleSolanaWithdrawal_spec env id walletId amount to_ w)
    as (pre & p & r & Hpre & Hrun & Hcases).
  rewrite Hrun. simpl. split.
  - intros k Hk. rewrite patched_lookup. by case_decide.
  - rewrite patched_lookup. case_decide; [|done]. simpl.
    destruct Hcases as [[-> (sig & Hsend & ->)] | (m & -> & ->)].
    + exists sig. split; [done|]. by destruct (transactions w !! id).
    + by destruct (transactions w !! id).
Qed.

Lemma handleSolanaWithdrawal_failure_keeps_referenceId_witness :
  transactions
    (handleSolanaWithdrawal solana_unconfirmed "tx1" "w1" 1 "Addr1" world0).2
    !! "tx2"
  = transactions world0 !! "tx2".
Proof.
  apply (proj1 (handleSolanaWithdrawal_failure_keeps_referenceId
                  solana_unconfirmed "tx1" "w1" 1 "Addr1" world0) "tx2").
  discriminate.
Defined.

Example handleSolanaWithdrawal_fails_after_broadcast :
  let run := handleSolanaWithdrawal solana_unconfirmed "tx1" "w1" 1 "Addr1"
               world0 in
  EvTransfer "SOL" "Addr1" 1000000000 ∈ trace run.2 ∧
  (tx_referenceId <$> transactions run.2 !! "tx1") = Some None ∧
  (tx_status <$> transactions run.2 !! "tx1") = Some FAILED.
Proof. vm_compute. split; [|done]. apply list_elem_of_In. simpl. tauto. Qed.

(** ** The chain-liveness flag and the withdrawal handlers *)

(** C6. Neither withdrawal handler consults [chainActive]: a run with the
    flag cleared is the run with the flag set. With a probe that found the
    chain not ready and a node that answers, [handleSolanaWithdrawal] and
    [handleMoneroWithdrawal] send the transfer and mark the row COMPLETED,
    where [ensureChainActive] on the same flag raises. *)
Theorem withdrawal_handlers_ignore_chainActive :
  (∀ env b id walletId amount to_ w,
     handleSolanaWithdrawal (set_sol_chainActive b env) id walletId amount to_ w
     = handleSolanaWithdrawal env id walletId amount to_ w) ∧
  (∀ env b id walletId amount to_ w,
     handleMoneroWithdrawal (set_xmr_chainActive b env) id walletId amount to_ w
     = handleMoneroWithdrawal env id walletId amount to_ w) ∧
  (sol_chainActive solana_inactive = false ∧
   (Solana_ensureChainActive solana_inactive world0).1
     = Throw "Chain 'SOL' is not active in ecosystemBlockchain." ∧
   let run := handleSolanaWithdrawal solana_inactive "tx1" "w1" 1 "Addr1"
                world0 in
   run.1 = Ok tt ∧
   filter (fun e => is_transfer e = true) (trace run.2)
     = [EvTransfer "SOL" "Addr1" 1000000000] ∧
   (tx_status <$> transactions run.2 !! "tx1") = Some COMPLETED) ∧
  (xmr_chainActive monero_inactive = false ∧
   (Monero_ensureChainActive monero_inactive world0).1
     = Throw "Chain 'Monero' is not active." ∧
   let run := handleMoneroWithdrawal monero_inactive "tx2" "w2" (1 # 2) "Addr2"
                world0 in
   run.1 = Ok tt ∧
   filter (fun e => is_transfer e = true) (trace run.2)
     = [EvTransfer "XMR" "Addr2" 500000000000] ∧
   (tx_status <$> transactions run.2 !! "tx2") = Some COMPLETED).
Proof.
  split; [reflexivity|]. split; [reflexivity|].
  split; vm_compute; done.
Qed.

(** ** Monero amounts *)




(** ** WithdrawalQueue.addTransaction *)

(** C2. [addTransaction] on an id that is in the in-flight set or in the
    pending list returns with every field of the coordinator (and of the
    world) unchanged and starts nothing. On any other id it appends the id
    to the pending list and calls [processNext]: during a run the list just
    grows; when idle, the head of the list is taken off, the coordinator
    becomes busy and the run of that head starts with the head in the
    in-flight set. *)
Theorem addTransaction_idempotent (transactionId : string) (w : World) :
  (transactionId ∈ processingTransactions w ∨ transactionId ∈ queue w →
     addTransaction transactionId w = (None, w)) ∧
  (transactionId ∉ processingTransactions w → transactionId ∉ queue w →
     addTransaction transactionId w
       = processNext_begin (set_queue (fun q => q ++ [transactionId]) w) ∧
     (isProcessing w = true →
        addTransaction transactionId w
          = (None, set_queue (fun q => q ++ [transactionId]) w)) ∧
     (isProcessing w = false →
        ∀ next rest, queue w ++ [transactionId] = next :: rest →
        truthy next = true →
        let run := addTransaction transactionId w in
        run.1 = Some next ∧
        queue run.2 = rest ∧
        isProcessing run.2 = true ∧
        processingTransactions run.2 = processingTransactions w ∪ {[next]} ∧
        transactions run.2 = transactions w ∧
        trace run.2 = trace w)).
Proof.
  unfold addTransaction. split.
  - intros [H | H].
    + by rewrite bool_decide_eq_true_2.
    + destruct (bool_decide (transactionId ∈ processingTransactions w));
        [done|]. by rewrite bool_decide_eq_true_2.
  - intros Hp Hq.
    rewrite (bool_decide_eq_false_2 _ Hp), (bool_decide_eq_false_2 _ Hq).
    split; [done|]. unfold processNext_begin. simpl. split.
    + by intros ->.
    + intros -> next rest Hqueue Hnext. simpl.
      rewrite Hqueue. rewrite bool_decide_eq_false_2 by done.
      simpl. by rewrite Hnext.
Qed.

Lemma addTransaction_idempotent_witness :
  addTransaction "tx1" (set_queue (fun _ => ["tx1"]) world0)
    = (None, set_queue (fun _ => ["tx1"]) world0) ∧
  (addTransaction "tx1" world0).1 = Some "tx1".
Proof.
  split.
  - apply (addTransaction_idempotent "tx1" (set_queue (fun _ => ["tx1"]) world0)).
    right. simpl. apply list_elem_of_In. simpl. tauto.
  - refine (proj1 (proj2 (proj2 (proj2 (addTransaction_idempotent "tx1" world0)
              _ _)) eq_refl "tx1" [] eq_refl eq_refl)).
    + simpl. apply not_elem_of_empty.
    + simpl. apply not_elem_of_nil.
Defined.

(** ** The blocks of [processNext] *)

Lemma patched_empty id w : patched empty_patch id w = w.
Proof.
  unfold patched, transaction_update.
  destruct (transactions w !! id) as [t|] eqn:Ht; [|done].
  assert (Hrow : apply_patch empty_patch t = t) by (by destruct t).
  rewrite Hrow. unfold set_transactions. simpl.
  rewrite insert_id by done. by destruct w.
Qed.

Lemma raised_without_write id message w :
  terminal_write id (Throw message) w w.
Proof.
  exists [], [], empty_patch.
  split; [constructor|]. split; [constructor|].
  split; [by rewrite !emits_nil, patched_empty | by right].
Qed.

Lemma external_withdrawal_spec family o id to_ w :
  terminal_write id (external_withdrawal family o id to_ w).1 w
    (external_withdrawal family o id to_ w).2.
Proof.
  unfold external_withdrawal. munfold.
  destruct o as [r|m|m]; simpl; rewrite ?transaction_update_always; simpl.
  - exists [EvChain family "withdrawal"], [], (completed_patch r).
    split; [unfold chain_events; by repeat constructor|].
    split; [constructor|]. split; [by rewrite emits_nil|]. by exists r.
  - exists [EvChain family "withdrawal"], [],
      (failed_patch ("Withdrawal failed: " +:+ m)).
    split; [unfold chain_events; by repeat constructor|].
    split; [constructor|]. split; [by rewrite emits_nil|]. by left.
  - exists [EvChain family "withdrawal"], [], empty_patch.
    split; [unfold chain_events; by repeat constructor|].
    split; [constructor|]. split; [|by right].
    by rewrite emits_nil, patched_empty.
Qed.

Lemma dispatch_spec env id t c to_ w :
  terminal_write id (dispatch env id t c to_ w).1 w (dispatch env id t c to_ w).2.
Proof.
  unfold dispatch.
  destruct (is_utxo_chain c); [apply external_withdrawal_spec|].
  destruct (c =? "SOL")%string.
  { unfold mbind, M_bind, bind, external.
    destruct (sol_getInstance (solana env)) as [[]|m];
      [|apply raised_without_write].
    destruct (handleSolanaWithdrawal_spec (solana env) id (tx_walletId t)
                (tx_amount t) to_ w) as (pre & p & r & Hpre & -> & Hc).
    simpl. exists pre, [], p. split; [done|]. split; [constructor|].
    split; [by rewrite emits_nil|].
    destruct Hc as [[-> (sig & _ & ->)] | (m & -> & ->)];
      [by exists sig | by left]. }
  destruct (c =? "TRON")%string; [apply external_withdrawal_spec|].
  destruct (c =? "XMR")%string; [|apply external_withdrawal_spec].
  unfold mbind, M_bind, bind, external.
  destruct (xmr_getInstance (monero env)) as [[]|m];
    [|apply raised_without_write].
  destruct (handleMoneroWithdrawal_spec (monero env) id (tx_walletId t)
              (tx_amount t) to_ w) as (p & r & -> & Hc).
  simpl. eexists _, _, p. split; [|split; [|split; [reflexivity|]]].
  - unfold chain_events. by repeat constructor.
  - unfold chain_events. by repeat constructor.
  - destruct Hc as [[-> (h & ->)] | (m & -> & ->)]; [by exists h | by left].
Qed.

Lemma terminal_write_lookup id r w w' k :
  terminal_write id r w w' →
  k ≠ id → transactions w' !! k = transactions w !! k.
Proof.
  intros (pre & post & p & _ & _ & -> & _) Hk. simpl.
  rewrite patched_lookup. by case_decide.
Qed.

Lemma terminal_write_frame id r w w' :
  terminal_write id r w w' →
  wallets w' = wallets w ∧ users w' = users w ∧
  adminProfits w' = adminProfits w ∧ queue w' = queue w ∧
  isProcessing w' = isProcessing w ∧
  processingTransactions w' = processingTransactions w ∧
  processedTransactions w' = processedTransactions w.
Proof.
  intros (pre & post & p & _ & _ & -> & _). simpl.
  apply (patched_frame p id (emits pre w)).
Qed.

Lemma filter_chain_events (f : Event → bool) evs :
  (∀ e, is_chain_event e = true → f e = false) →
  chain_events evs → filter (fun e => f e = true) evs = [].
Proof.
  intros Hf. induction 1 as [|e evs He _ IH]; [done|].
  rewrite filter_cons. rewrite decide_False; [done|].
  rewrite (Hf e He). done.
Qed.

Lemma notifyWithdrawalConfirmed_run env t wl to_ c w :
  notifyWithdrawalConfirmed env t wl to_ c w = (Ok tt, w) ∨
  ∃ u, users w !! tx_userId t = Some u ∧
       notifyWithdrawalConfirmed env t wl to_ c w
       = (confirmationEmail env,
          emits [EvEmail "EcoWithdrawalConfirmation" (u_email u) t c] w).
Proof.
  unfold notifyWithdrawalConfirmed, wallet_findOne,
    sendEcoWithdrawalConfirmationEmail. munfold.
  destruct (users w !! tx_userId t) as [u|]; simpl; [|by left].
  destruct (List.find _ _); simpl; [|by left].
  right. exists u. split; [done|].
  by destruct (confirmationEmail env) as [[]|].
Qed.

Lemma recordAdminProfit_run t wl c w :
  recordAdminProfit t wl c w =
    (Ok tt,
     if fee_is_positive_number t
     then set_adminProfits (fun l => l ++ [profit_entry t wl c]) w
     else w).
Proof. unfold recordAdminProfit. by destruct (fee_is_positive_number t). Qed.


Lemma eco_transaction_Some w id t wl :
  eco_transaction w id = Some (t, wl) →
  transactions w !! id = Some t ∧ wallets w !! tx_walletId t = Some wl.
Proof.
  unfold eco_transaction.
  destruct (transactions w !! id) as [t0|]; simpl; [|done].
  destruct (wallets w !! tx_walletId t0) as [wl0|] eqn:Hw; simpl; [|done].
  destruct (w_type wl0 =? "ECO")%string; [|done].
  intros [= <- <-]. done.
Qed.

Ltac catch_leaf :=
  unfold emit; rewrite ?emits_emits; simpl;
  eexists _, _; split; [reflexivity|];
  split; [by repeat constructor|];
  eexists; split; [reflexivity|]; split; [reflexivity|].

Lemma processNext_catch_run env id message w :
  let w1 := patched (failed_patch ("Transaction failed: " +:+ message)) id w in
  ∃ evs r,
    processNext_catch env id message w = (r, emits evs w1) ∧
    Forall (fun e => is_business e = true) evs ∧
    match eco_transaction w1 id with
    | None => evs = []
    | Some (t, wl) =>
        ∃ rest,
          evs = EvRefund t :: rest ∧
          filter (fun e => is_refund e = true) rest = [] ∧
          (refund env = Ok tt →
           (users w !! tx_userId t = None ∨
            ∃ md, tx_metadata t = MetaObject md ∧ failedEmail env = Ok tt) →
           EvNotification (tx_userId t) "Withdrawal Failed" (tx_amount t)
             (w_currency wl) ∈ rest) ∧
          (∀ m, refund env = Throw m → rest = [])
    end.
Proof.
  intros w1. subst w1.
  unfold processNext_catch, transaction_find_with_eco_wallet.
  munfold. rewrite transaction_update_always. unfold failed_patch. simpl.
  set (w1 := patched _ id w).
  assert (Husers : users w1 = users w) by apply (patched_frame _ id w).
  destruct (eco_transaction w1 id) as [[t wl]|]; simpl.
  2:{ exists [], (Ok tt). rewrite emits_nil. by repeat split. }
  unfold refundUser, notifyWithdrawalFailed, handleNotification,
    sendEcoWithdrawalFailedEmail, parse_metadata. munfold.
  destruct (refund env) as [[]|mr]; simpl.
  2:{ catch_leaf. split; [done|]. done. }
  rewrite Husers.
  destruct (users w !! tx_userId t) as [u|]; simpl.
  - destruct (tx_metadata t) as [e| |md]; simpl.
    + catch_leaf. split; [|done]. intros _ [[=] | (md & [=] & _)].
    + catch_leaf. split; [|done]. intros _ [[=] | (md & [=] & _)].
    + destruct (failedEmail env) as [[]|mf]; simpl.
      * destruct (notification env) as [[]|mn]; simpl; catch_leaf;
          (split; [|done]); intros _ _; apply list_elem_of_In; simpl; tauto.
      * catch_leaf. split; [|done].
        intros _ [[=] | (md' & _ & [=])].
  - destruct (notification env) as [[]|mn]; simpl; catch_leaf;
      (split; [|done]); intros _ _; apply list_elem_of_In; simpl; tauto.
Qed.

(** ** Status writes of one run *)

Lemma statuses_app a b : statuses (a ++ b) = statuses a ++ statuses b.
Proof. apply filter_app. Qed.

Lemma statuses_chain evs : chain_events evs → statuses evs = [].
Proof.
  apply (filter_chain_events is_status). by intros [].
Qed.

Lemma statuses_business evs :
  Forall (fun e => is_business e = true) evs → statuses evs = [].
Proof.
  induction 1 as [|e evs He _ IH]; [done|].
  unfold statuses. rewrite filter_cons. rewrite decide_False; [done|].
  by destruct e.
Qed.

Lemma terminal_write_trace id r w w' t :
  terminal_write id r w w' →
  transactions w !! id = Some t →
  ∃ evs t',
    trace w' = trace w ++ evs ∧
    transactions w' !! id = Some t' ∧
    ((statuses evs = [EvStatus id (tx_status t) (tx_status t')] ∧
      tx_status t' = match r with Ok _ => COMPLETED | Throw _ => FAILED end) ∨
     (statuses evs = [] ∧ tx_status t' = tx_status t ∧ ∃ m, r = Throw m)).
Proof.
  intros (pre & post & p & Hpre & Hpost & -> & Hp) Ht.
  exists (pre ++ match p_status p with
                 | Some s => [EvStatus id (tx_status t) s]
                 | None => []
                 end ++ post), (apply_patch p t).
  split; [|split].
  - simpl. rewrite patched_trace. simpl. rewrite Ht.
    by rewrite <- !app_assoc.
  - simpl. rewrite patched_lookup. rewrite decide_True by done.
    simpl. by rewrite Ht.
  - rewrite !statuses_app, (statuses_chain pre), (statuses_chain post) by done.
    destruct r as [[]|m].
    + destruct Hp as [ref ->]. by left.
    + destruct Hp as [-> | ->]; [by left|]. right. simpl.
      split; [done|]. split; [done|]. by exists m.
Qed.

Lemma claim_run id w t :
  transactions w !! id = Some t → tx_status t = PENDING →
  transaction_update processing_patch id
    (fun t => Status_eqb (tx_status t) PENDING) w
  = (Ok 1%nat, patched processing_patch id w).
Proof.
  intros Ht Hs. unfold patched, transaction_update. rewrite Ht, Hs. done.
Qed.

Lemma claim_skip id w :
  (∀ t, transactions w !! id = Some t → tx_status t ≠ PENDING) →
  transaction_update processing_patch id
    (fun t => Status_eqb (tx_status t) PENDING) w
  = (Ok 0%nat, w).
Proof.
  intros H. unfold transaction_update.
  destruct (transactions w !! id) as [t|] eqn:Ht; [|done].
  unfold Status_eqb. rewrite bool_decide_eq_false_2; [done|]. by apply H.
Qed.

Lemma catch_effect env id message wc tc :
  transactions wc !! id = Some tc →
  let w' := (processNext_catch env id message wc).2 in
  ∃ evs,
    trace w' = trace wc ++ evs ∧
    statuses evs = [EvStatus id (tx_status tc) FAILED] ∧
    (∀ k, k ≠ id → transactions w' !! k = transactions wc !! k) ∧
    transactions w' !! id
      = Some (apply_patch (failed_patch ("Transaction failed: " +:+ message)) tc).
Proof.
  intros Htc. simpl.
  destruct (processNext_catch_run env id message wc)
    as (evs & r & -> & Hevs & _).
  simpl. exists ([EvStatus id (tx_status tc) FAILED] ++ evs).
  split; [|split; [|split]].
  - rewrite patched_trace, Htc. simpl. by rewrite <- app_assoc.
  - rewrite statuses_app, (statuses_business evs Hevs). done.
  - intros k Hk. rewrite patched_lookup. by case_decide.
  - rewrite patched_lookup, decide_True by done. by rewrite Htc.
Qed.

Lemma processNext_body_statuses env id w r w' :
  processNext_body env id w = (r, w') →
  ∃ evs,
    trace w' = trace w ++ evs ∧
    (∀ k, k ≠ id → transactions w' !! k = transactions w !! k) ∧
    ((statuses evs = [] ∧ transactions w' = transactions w) ∨
     ((∃ t, transactions w !! id = Some t ∧ tx_status t = PENDING) ∧
      statuses evs ∈ run_status_writes id ∧
      ∃ t', transactions w' !! id = Some t' ∧ terminal (tx_status t') = true)).
Proof.
  intros Hrun.
  unfold processNext_body, try_catch, processNext_try,
    transaction_find_with_eco_wallet in Hrun.
  unfold mbind at 1, M_bind at 1, bind at 1, gets at 1 in Hrun.
  assert (Hskip : (Ok tt, w) = (r, w') → ∃ evs, trace w' = trace w ++ evs ∧
    (∀ k, k ≠ id → transactions w' !! k = transactions w !! k) ∧
    ((statuses evs = [] ∧ transactions w' = transactions w) ∨
     ((∃ t, transactions w !! id = Some t ∧ tx_status t = PENDING) ∧
      statuses evs ∈ run_status_writes id ∧
      ∃ t', transactions w' !! id = Some t' ∧ terminal (tx_status t') = true))).
  { intros [= <- <-]. exists []. rewrite app_nil_r.
    split; [done|]. split; [done|]. by left. }
  destruct (eco_transaction w id) as [[t wl]|] eqn:Heco; [|by apply Hskip].
  destruct (eco_transaction_Some _ _ _ _ Heco) as [Ht Hwl].
  unfold mbind at 1, M_bind at 1, bind at 1 in Hrun.
  destruct (decide (tx_status t = PENDING)) as [Hpending | Hnot].
  2:{ rewrite claim_skip in Hrun; [by apply Hskip|]. intros t0. rewrite Ht.
      by intros [= <-]. }
  clear Hskip.
  rewrite (claim_run id w t Ht Hpending) in Hrun. simpl in Hrun.
  set (w1 := patched processing_patch id w) in *.
  assert (Ht1 : transactions w1 !! id = Some (apply_patch processing_patch t)).
  { unfold w1. rewrite patched_lookup, decide_True by done. by rewrite Ht. }
  assert (Htr1 : trace w1 = trace w ++ [claim_event id]).
  { unfold w1. rewrite patched_trace, Ht. simpl. by rewrite Hpending. }
  assert (Hother1 : ∀ k, k ≠ id → transactions w1 !! k = transactions w !! k).
  { intros k Hk. unfold w1. rewrite patched_lookup. by case_decide. }
  (* every way into the catch block right after the claim *)
  assert (Hcatch1 : ∀ message,
    processNext_catch env id message w1 = (r, w') →
    ∃ evs,
      trace w' = trace w ++ evs ∧
      (∀ k, k ≠ id → transactions w' !! k = transactions w !! k) ∧
      ((statuses evs = [] ∧ transactions w' = transactions w) ∨
       ((∃ t, transactions w !! id = Some t ∧ tx_status t = PENDING) ∧
        statuses evs ∈ run_status_writes id ∧
        ∃ t', transactions w' !! id = Some t' ∧
              terminal (tx_status t') = true))).
  { intros message Hc.
    destruct (catch_effect env id message w1 _ Ht1)
      as (evs & Htr & Hst & Hother & Hrow).
    rewrite Hc in Htr, Hother, Hrow. simpl in Htr, Hother, Hrow.
    exists ([claim_event id] ++ evs). split; [|split].
    - rewrite Htr, Htr1. by rewrite <- app_assoc.
    - intros k Hk. rewrite Hother by done. by apply Hother1.
    - right. split; [by exists t|]. split.
      + rewrite statuses_app, Hst. simpl.
        unfold run_status_writes. apply list_elem_of_In. simpl. tauto.
      + eexists. split; [exact Hrow|]. done. }
  unfold mbind, M_bind, bind, parse_metadata, routing, throw, mret, M_ret, ret
    in Hrun.
  destruct (tx_metadata t) as [e| |[[c|] to_]]; simpl in Hrun;
    try (by eapply Hcatch1).
  destruct (truthy c); simpl in Hrun; [|by eapply Hcatch1].
  clear Hcatch1.
  (* the handler *)
  pose proof (dispatch_spec env id t c to_ w1) as Hd.
  destruct (dispatch env id t c to_ w1) as [rd wd]. simpl in Hd.
  destruct (terminal_write_trace _ _ _ _ _ Hd Ht1)
    as (evd & td & Htrd & Htd & Hwrite).
  assert (Hotherd : ∀ k, k ≠ id → transactions wd !! k = transactions w !! k).
  { intros k Hk. rewrite (terminal_write_lookup _ _ _ _ _ Hd) by done.
    by apply Hother1. }
  destruct Hwrite as [[Hstd Hsd] | (Hstd & Hsd & m & ->)].
  2:{ (* raised before any write of the handler *)
      destruct (catch_effect env id m wd td Htd)
        as (evs & Htr & Hst & Hother & Hrow).
      rewrite Hrun in Htr, Hother, Hrow. simpl in Htr, Hother, Hrow.
      exists ([claim_event id] ++ evd ++ evs). split; [|split].
      - rewrite Htr, Htrd, Htr1. by rewrite <- !app_assoc.
      - intros k Hk. rewrite Hother by done. by apply Hotherd.
      - right. split; [by exists t|]. split.
        + rewrite !statuses_app, Hstd, Hst, Hsd. simpl.
          apply list_elem_of_In. simpl. tauto.
        + eexists. split; [exact Hrow|]. done. }
  rewrite Hsd in Hstd. simpl in Hstd.
  destruct rd as [[]|m].
  - (* transfer done: confirmation e-mail, admin profit *)
    destruct (notifyWithdrawalConfirmed_run env t wl to_ c wd)
      as [Hn | (u & Hu & Hn)]; rewrite Hn in Hrun; clear Hn.
    + rewrite recordAdminProfit_run in Hrun. injection Hrun as <- <-.
      exists ([claim_event id] ++ evd). split; [|split].
      * destruct (fee_is_positive_number t); simpl;
          rewrite Htrd, Htr1; by rewrite <- app_assoc.
      * intros k Hk. destruct (fee_is_positive_number t); by apply Hotherd.
      * right. split; [by exists t|]. split.
        -- rewrite statuses_app, Hstd. simpl.
           apply list_elem_of_In. simpl. tauto.
        -- exists td. rewrite Hsd.
           by destruct (fee_is_positive_number t).
    + destruct (confirmationEmail env) as [[]|m].
      * rewrite recordAdminProfit_run in Hrun. injection Hrun as <- <-.
        eexists ([claim_event id] ++ evd ++ [_]). split; [|split].
        -- destruct (fee_is_positive_number t); simpl;
             rewrite Htrd, Htr1; by rewrite <- !app_assoc.
        -- intros k Hk. destruct (fee_is_positive_number t); by apply Hotherd.
        -- right. split; [by exists t|]. split.
           ++ rewrite !statuses_app, Hstd. simpl.
              apply list_elem_of_In. simpl. tauto.
           ++ exists td. rewrite Hsd.
              by destruct (fee_is_positive_number t).
      * set (we := emits _ wd) in Hrun.
        destruct (catch_effect env id m we td Htd)
          as (evs & Htr & Hst & Hother & Hrow).
        rewrite Hrun in Htr, Hother, Hrow. simpl in Htr, Hother, Hrow.
        eexists ([claim_event id] ++ evd ++ [_] ++ evs). split; [|split].
        -- rewrite Htr. unfold we. simpl. rewrite Htrd, Htr1.
           by rewrite <- !app_assoc.
        -- intros k Hk. rewrite Hother by done. by apply Hotherd.
        -- right. split; [by exists t|]. split.
           ++ rewrite !statuses_app, Hstd, Hst, Hsd. simpl.
              apply list_elem_of_In. simpl. tauto.
           ++ eexists. split; [exact Hrow|]. done.
  - (* the handler raised *)
    destruct (catch_effect env id m wd td Htd)
      as (evs & Htr & Hst & Hother & Hrow).
    rewrite Hrun in Htr, Hother, Hrow. simpl in Htr, Hother, Hrow.
    exists ([claim_event id] ++ evd ++ evs). split; [|split].
    + rewrite Htr, Htrd, Htr1. by rewrite <- !app_assoc.
    + intros k Hk. rewrite Hother by done. by apply Hotherd.
    + right. split; [by exists t|]. split.
      * rewrite !statuses_app, Hstd, Hst, Hsd. simpl.
        apply list_elem_of_In. simpl. tauto.
      * eexists. split; [exact Hrow|]. done.
Qed.

(** ** Histories of the coordinator *)

Lemma processNext_resume_unfold env id w :
  processNext_resume env id w
  = processNext_begin (finish id (processNext_body env id w).2).
Proof.
  unfold processNext_resume, try_finally.
  destruct (processNext_body env id w) as [r w']. reflexivity.
Qed.

Lemma processNext_begin_frame w :
  let w' := (processNext_begin w).2 in
  transactions w' = transactions w ∧ trace w' = trace w ∧
  adminProfits w' = adminProfits w ∧ wallets w' = wallets w ∧
  users w' = users w ∧
  (queue w' = queue w ∨ queue w' = tail (queue w)).
Proof.
  unfold processNext_begin.
  destruct (isProcessing w || bool_decide (queue w = [])); simpl;
    [by repeat split; try left|].
  destruct (queue w) as [|x rest] eqn:Hq; simpl;
    [by repeat split; try left|].
  destruct (truthy x); simpl; repeat split; by right.
Qed.

Lemma addTransaction_frame id w :
  let w' := (addTransaction id w).2 in
  transactions w' = transactions w ∧ trace w' = trace w ∧
  adminProfits w' = adminProfits w.
Proof.
  unfold addTransaction.
  destruct (bool_decide (id ∈ processingTransactions w)); [done|].
  destruct (bool_decide (id ∈ queue w)); [done|].
  destruct (processNext_begin_frame (set_queue (fun q => q ++ [id]) w))
    as (-> & -> & -> & _). done.
Qed.

(** One step of the system, seen from the status column. *)
Lemma step_statuses s a :
  ∃ evs,
    trace (world (step s a)) = trace (world s) ++ evs ∧
    ((statuses evs = [] ∧
      transactions (world (step s a)) = transactions (world s)) ∨
     ∃ id,
       pending (world s) id ∧
       statuses evs ∈ run_status_writes id ∧
       (∀ k, k ≠ id →
          transactions (world (step s a)) !! k = transactions (world s) !! k) ∧
       ∃ t', transactions (world (step s a)) !! id = Some t' ∧
             terminal (tx_status t') = true).
Proof.
  destruct a as [id | env]; simpl.
  - destruct (addTransaction_frame id (world s)) as (Ht & Htr & _).
    destruct (addTransaction id (world s)) as [started w'].
    simpl in *. exists []. rewrite app_nil_r. split; [done|]. by left.
  - destruct (inflight s) as [id|].
    2:{ exists []. rewrite app_nil_r. split; [done|]. by left. }
    rewrite processNext_resume_unfold.
    destruct (processNext_body env id (world s)) as [r wb] eqn:Hbody.
    destruct (processNext_body_statuses _ _ _ _ _ Hbody)
      as (evs & Htr & Hother & Hcases).
    destruct (processNext_begin_frame (finish id wb)) as (Ht' & Htr' & _).
    destruct (processNext_begin (finish id wb)) as [next w'] eqn:Hbegin.
    simpl in *. rewrite Hbegin. simpl. exists evs. split; [by rewrite Htr'|].
    rewrite Ht'.
    destruct Hcases as [[Hst Hsame] | (Hp & Hst & Hrow)]; [by left|].
    right. exists id. done.
Qed.

Lemma count_statuses f evs :
  (∀ e, f e = true → is_status e = true) →
  count f evs = count f (statuses evs).
Proof.
  intros Hf. unfold count, statuses. f_equal.
  induction evs as [|e evs IH]; [done|].
  rewrite !filter_cons.
  destruct (decide (is_status e = true)) as [He | He].
  - rewrite filter_cons. destruct (decide (f e = true)); by rewrite IH.
  - rewrite decide_False; [done|]. intros Hfe. by apply He, Hf.
Qed.

Lemma count_app f a b : count f (a ++ b) = (count f a + count f b)%nat.
Proof. unfold count. by rewrite filter_app, length_app. Qed.

Lemma claims_in_run id k evs :
  evs ∈ run_status_writes k →
  count (is_claim_of id) evs = if decide (k = id) then 1%nat else 0%nat.
Proof.
  unfold run_status_writes. intros H%list_elem_of_In. simpl in H.
  unfold count.
  destruct (decide (k = id)) as [Hk | Hk];
    destruct H as [<- | [<- | [<- | [<- | []]]]];
    rewrite !filter_cons; simpl;
    rewrite ?(bool_decide_eq_true_2 _ Hk), ?(bool_decide_eq_false_2 _ Hk);
    reflexivity.
Qed.



Lemma exec_trace s actions :
  trace (world (exec s actions))
  = trace (world s) ++ history_events s actions.
Proof.
  unfold history_events, exec.
  revert s. induction actions as [|a actions IH]; intros s; simpl.
  - unfold events_since. by rewrite drop_all, app_nil_r.
  - destruct (step_statuses s a) as (evs & Htr & _).
    rewrite IH. rewrite Htr at 1. rewrite <- app_assoc. f_equal.
    unfold events_since. rewrite IH, Htr.
    rewrite !drop_app_length.
    rewrite <- app_assoc. by rewrite drop_app_length.
Qed.

Lemma history_events_cons s a actions :
  history_events s (a :: actions)
  = history_events s [a] ++ history_events (step s a) actions.
Proof.
  pose proof (exec_trace s (a :: actions)) as H1.
  pose proof (exec_trace (step s a) actions) as H2.
  pose proof (exec_trace s [a]) as H3.
  simpl in *. rewrite H2, H3 in H1. rewrite <- app_assoc in H1.
  by apply app_inv_head in H1.
Qed.

Lemma history_events_nil s : history_events s [] = [].
Proof. unfold history_events, events_since. simpl. by rewrite drop_all. Qed.

Lemma history_events_step s a :
  ∀ evs, trace (world (step s a)) = trace (world s) ++ evs →
         history_events s [a] = evs.
Proof. intros evs H. unfold history_events. simpl. by apply events_since_app. Qed.

Lemma pending_same w w' id :
  transactions w' !! id = transactions w !! id → pending w' id → pending w id.
Proof. unfold pending. by intros ->. Qed.

Lemma is_claim_is_status id e : is_claim_of id e = true → is_status e = true.
Proof. by destruct e. Qed.

Lemma claims_bounded s actions id :
  (count (is_claim_of id) (history_events s actions) ≤ 1)%nat ∧
  (¬ pending (world s) id →
   count (is_claim_of id) (history_events s actions) = 0%nat).
Proof.
  revert s. induction actions as [|a actions IH]; intros s.
  { rewrite history_events_nil. split; [unfold count; simpl; lia | done]. }
  rewrite history_events_cons, count_app.
  destruct (step_statuses s a) as (evs & Htr & Hcases).
  rewrite (history_events_step s a evs Htr).
  rewrite (count_statuses (is_claim_of id) evs (is_claim_is_status id)).
  destruct (IH (step s a)) as [IH1 IH2].
  destruct Hcases as [[-> Hsame] | (k & Hp & Hst & Hother & (t' & Ht' & Hterm))].
  - change (count (is_claim_of id) []) with 0%nat. split; [lia|].
    intros Hnp. rewrite IH2; [done|]. intros Hp. apply Hnp.
    eapply pending_same; [|exact Hp]. by rewrite Hsame.
  - rewrite (claims_in_run id k _ Hst).
    destruct (decide (k = id)) as [-> | Hk].
    + assert (Hnp' : ¬ pending (world (step s a)) id).
      { intros (t & Ht & Hs). rewrite Ht' in Ht. injection Ht as <-.
        by rewrite Hs in Hterm. }
      rewrite (IH2 Hnp'). split; [lia|]. by intros Hnp.
    + split; [lia|]. intros Hnp. rewrite IH2; [done|]. intros Hp'.
      apply Hnp. eapply pending_same; [|exact Hp']. by apply Hother.
Qed.

Lemma processNext_body_skip env id w :
  ¬ pending w id → processNext_body env id w = (Ok tt, w).
Proof.
  intros Hnp. unfold processNext_body, try_catch, processNext_try,
    transaction_find_with_eco_wallet.
  unfold mbind at 1, M_bind at 1, bind at 1, gets at 1.
  destruct (eco_transaction w id) as [[t wl]|]; [|done].
  unfold mbind at 1, M_bind at 1, bind at 1.
  rewrite claim_skip; [done|].
  intros t0 Ht0 Hs. apply Hnp. by exists t0.
Qed.

(** ** The PENDING -> PROCESSING claim *)

Lemma claim_twice id w :
  let claim := transaction_update processing_patch id
                 (fun t => Status_eqb (tx_status t) PENDING) in
  claim (claim w).2 = (Ok 0%nat, (claim w).2).
Proof.
  simpl. apply claim_skip. intros t Ht Hs.
  destruct (transactions w !! id) as [t0|] eqn:Ht0.
  - destruct (decide (tx_status t0 = PENDING)) as [Hs0 | Hs0].
    + rewrite (claim_run id w t0 Ht0 Hs0) in Ht. simpl in Ht.
      rewrite patched_lookup, decide_True, Ht0 in Ht by done.
      injection Ht as <-. discriminate Hs.
    + rewrite claim_skip in Ht; [simpl in Ht; congruence|].
      intros t1. rewrite Ht0. by intros [= <-].
  - rewrite claim_skip in Ht; [simpl in Ht; congruence|].
    intros t1. by rewrite Ht0.
Qed.

(** C1. The update that moves a row to PROCESSING is conditional on the
    row being PENDING: it affects one row, which then is PROCESSING, when
    the row is PENDING, and no row otherwise; of two such updates on the
    same id, one after the other, the second affects no row. A run whose
    row is not PENDING ends at once: no event (so no chain call and no
    write) and an unchanged world. Over any history of enqueues and runs,
    from any state, the claim of a given id succeeds at most once. *)
Theorem claim_succeeds_at_most_once :
  (∀ id w,
     let claim := transaction_update processing_patch id
                    (fun t => Status_eqb (tx_status t) PENDING) in
     (pending w id →
        (claim w).1 = Ok 1%nat ∧
        events_since w (claim w).2 = [claim_event id] ∧
        (tx_status <$> transactions (claim w).2 !! id) = Some PROCESSING) ∧
     (¬ pending w id → claim w = (Ok 0%nat, w)) ∧
     claim (claim w).2 = (Ok 0%nat, (claim w).2)) ∧
  (∀ env id w, ¬ pending w id → processNext_body env id w = (Ok tt, w)) ∧
  (∀ s actions id,
     (count (is_claim_of id) (history_events s actions) ≤ 1)%nat).
Proof.
  split; [|split].
  - intros id w. simpl. split; [|split].
    + intros (t & Ht & Hs). rewrite (claim_run id w t Ht Hs). simpl.
      split; [done|]. split.
      * apply events_since_app. rewrite patched_trace, Ht. simpl.
        by rewrite Hs.
      * rewrite patched_lookup, decide_True, Ht by done. done.
    + intros Hnp. apply claim_skip. intros t Ht Hs. apply Hnp. by exists t.
    + apply claim_twice.
  - apply processNext_body_skip.
  - intros s actions id. apply claims_bounded.
Qed.

Lemma claim_succeeds_at_most_once_witness :
  (transaction_update processing_patch "tx1"
     (fun t => Status_eqb (tx_status t) PENDING) world0).1 = Ok 1%nat ∧
  processNext_body env_ok "tx9" world0 = (Ok tt, world0).
Proof.
  destruct claim_succeeds_at_most_once as (Hclaim & Hskip & _).
  split.
  - apply (Hclaim "tx1" world0). exists tx1. split; reflexivity.
  - apply (Hskip env_ok "tx9" world0). intros (t & Ht & _).
    vm_compute in Ht. discriminate Ht.
Defined.

Example replayed_enqueue_claims_once :
  count (is_claim_of "tx1")
    (history_events system0
       [Enqueue "tx1"; Enqueue "tx1"; Resume env_ok; Enqueue "tx1";
        Resume env_ok]) = 1%nat.
Proof. vm_compute. reflexivity. Qed.

(** ** Status transitions *)




(** ** The admin-profit ledger *)



(** The part of the [try] block that follows a successful claim. *)
Lemma processNext_body_claimed env id w t wl :
  eco_transaction w id = Some (t, wl) → tx_status t = PENDING →
  processNext_body env id w =
    try_catch
      (metadata ← parse_metadata (tx_metadata t);
       '(chainName, to_) ← routing metadata;
       dispatch env id t chainName to_;;
       notifyWithdrawalConfirmed env t wl to_ chainName;;
       recordAdminProfit t wl chainName)
      (processNext_catch env id)
      (patched processing_patch id w).
Proof.
  intros Heco Hs.
  destruct (eco_transaction_Some _ _ _ _ Heco) as [Ht _].
  unfold processNext_body, try_catch, processNext_try,
    transaction_find_with_eco_wallet.
  unfold mbind at 1, M_bind at 1, bind at 1, gets at 1. rewrite Heco.
  unfold mbind at 1, M_bind at 1, bind at 1.
  rewrite (claim_run id w t Ht Hs). reflexivity.
Qed.







(** ** A withdrawal whose handler raises *)

Lemma terminal_write_business id r w w' :
  terminal_write id r w w' →
  ∃ evs, trace w' = trace w ++ evs ∧
         Forall (fun e => is_business e = false) evs.
Proof.
  intros (pre & post & p & Hpre & Hpost & -> & _).
  exists (pre ++ match transactions (emits pre w) !! id, p_status p with
                 | Some t, Some s => [EvStatus id (tx_status t) s]
                 | _, _ => []
                 end ++ post). split.
  - simpl. rewrite patched_trace. simpl. by rewrite <- !app_assoc.
  - assert (Hchain : ∀ l, chain_events l →
                          Forall (fun e => is_business e = false) l).
    { intros l Hl. eapply Forall_impl; [exact Hl|]. by intros []. }
    rewrite !Forall_app. split; [by apply Hchain|]. split; [|by apply Hchain].
    destruct (transactions (emits pre w) !! id), (p_status p);
      by repeat constructor.
Qed.








(** ** The deposit monitor *)








(** * Further properties of the withdrawal queue *)

Lemma routing_error_None t :
  routing_error t = None → ∃ c to_, routed t c to_.
Proof.
  unfold routing_error, routed.
  destruct (tx_metadata t) as [e| |[[c|] to_]]; try discriminate.
  destruct (truthy c) eqn:Hc; [|discriminate]. intros _. by exists c, to_.
Qed.

(** Every run of the body is one of three: it gives up before claiming, it
    enters the [catch] block after the claim, or it goes through. *)
Lemma processNext_body_cases env id w :
  ((eco_transaction w id = None ∨
    ∃ t wl, eco_transaction w id = Some (t, wl) ∧ tx_status t ≠ PENDING) ∧
   processNext_body env id w = (Ok tt, w)) ∨
  ∃ t wl,
    eco_transaction w id = Some (t, wl) ∧ tx_status t = PENDING ∧
    ((∃ message wc,
        catch_entry env id t (patched processing_patch id w) message wc ∧
        processNext_body env id w = processNext_catch env id message wc) ∨
     (∃ c to_ wd mail,
        routed t c to_ ∧
        dispatch env id t c to_ (patched processing_patch id w) = (Ok tt, wd) ∧
        (mail = [] ∨
         ∃ u, users wd !! tx_userId t = Some u ∧
              confirmationEmail env = Ok tt ∧
              mail = [EvEmail "EcoWithdrawalConfirmation" (u_email u) t c]) ∧
        processNext_body env id w
        = (Ok tt, with_profit t wl c (emits mail wd)))).
Proof.
  destruct (eco_transaction w id) as [[t wl]|] eqn:Heco.
  2:{ left. split; [by left|].
      unfold processNext_body, try_catch, processNext_try,
        transaction_find_with_eco_wallet.
      unfold mbind at 1, M_bind at 1, bind at 1, gets at 1.
      by rewrite Heco. }
  destruct (eco_transaction_Some _ _ _ _ Heco) as [Ht _].
  destruct (decide (tx_status t = PENDING)) as [Hs | Hs].
  2:{ left. split; [right; by exists t, wl|].
      apply processNext_body_skip. intros (t0 & Ht0 & Hs0). congruence. }
  right. exists t, wl. split; [done|]. split; [done|].
  set (w1 := patched processing_patch id w).
  rewrite (processNext_body_claimed env id w t wl Heco Hs). fold w1.
  assert (Hinvalid : routing_error t = Some invalid_chain_message →
    ∃ message wc,
      catch_entry env id t w1 message wc ∧
      processNext_catch env id invalid_chain_message w1
      = processNext_catch env id message wc).
  { intros Hre. exists invalid_chain_message, w1. split; [by left | done]. }
  unfold try_catch, parse_metadata, routing.
  unfold mbind, M_bind, bind, throw, mret, M_ret, ret.
  unfold routing_error in Hinvalid.
  destruct (tx_metadata t) as [e| |[[c|] to_]] eqn:Hmeta; simpl.
  { left. exists e, w1. split; [|done]. left.
    unfold routing_error. by rewrite Hmeta. }
  { left. by apply Hinvalid. }
  2:{ left. by apply Hinvalid. }
  destruct (truthy c) eqn:Hc; simpl; [|left; by apply Hinvalid].
  clear Hinvalid.
  assert (Hrouted : routed t c to_) by done.
  destruct (dispatch env id t c to_ w1) as [[[]|m] wd] eqn:Hd.
  2:{ left. exists m, wd. split; [|done]. right. left. by exists c, to_. }
  destruct (notifyWithdrawalConfirmed_run env t wl to_ c wd)
    as [-> | (u & Hu & ->)].
  { right. exists c, to_, wd, []. split; [done|]. split; [done|].
    split; [by left|]. rewrite recordAdminProfit_run. by rewrite emits_nil. }
  destruct (confirmationEmail env) as [[]|m] eqn:Hmail.
  - right. exists c, to_, wd, [EvEmail "EcoWithdrawalConfirmation" (u_email u) t c].
    split; [done|]. split; [done|]. split; [right; by exists u|].
    by rewrite recordAdminProfit_run.
  - left. eexists m, _. split; [|reflexivity]. right. right.
    by exists c, to_, wd, u.
Qed.

Lemma same_immutable_refl t : same_immutable t t.
Proof. by repeat split. Qed.

Lemma same_immutable_trans t1 t2 t3 :
  same_immutable t1 t2 → same_immutable t2 t3 → same_immutable t1 t3.
Proof. unfold same_immutable. intuition congruence. Qed.

Lemma rows_evolve_refl w : rows_evolve w w.
Proof.
  intros k. unfold row_evolves. destruct (transactions w !! k); [|done].
  apply same_immutable_refl.
Qed.

Lemma rows_evolve_trans w1 w2 w3 :
  rows_evolve w1 w2 → rows_evolve w2 w3 → rows_evolve w1 w3.
Proof.
  intros H12 H23 k. specialize (H12 k). specialize (H23 k).
  unfold row_evolves in *.
  destruct (transactions w1 !! k), (transactions w2 !! k),
    (transactions w3 !! k); try done.
  by eapply same_immutable_trans.
Qed.

Lemma rows_evolve_eq w w' :
  transactions w' = transactions w → rows_evolve w w'.
Proof. intros H k. rewrite H. apply rows_evolve_refl. Qed.

Lemma rows_evolve_patched p id w : rows_evolve w (patched p id w).
Proof.
  intros k. rewrite patched_lookup. case_decide; [|apply rows_evolve_refl].
  unfold row_evolves. destruct (transactions w !! k); simpl; [|done].
  by repeat split.
Qed.

Lemma same_coordinator_refl w : same_coordinator w w.
Proof. by repeat split. Qed.

Lemma same_coordinator_trans w1 w2 w3 :
  same_coordinator w1 w2 → same_coordinator w2 w3 → same_coordinator w1 w3.
Proof. unfold same_coordinator. intuition congruence. Qed.

Lemma same_coordinator_patched p id w : same_coordinator w (patched p id w).
Proof.
  destruct (patched_frame p id w) as (? & ? & ? & ? & ? & ? & ?).
  by repeat split.
Qed.

Lemma same_coordinator_emits evs w : same_coordinator w (emits evs w).
Proof. by repeat split. Qed.

Lemma terminal_write_evolves id r w w' :
  terminal_write id r w w' → rows_evolve w w' ∧ same_coordinator w w'.
Proof.
  intros (pre & post & p & _ & _ & -> & _). split.
  - apply rows_evolve_trans with (patched p id (emits pre w)).
    + apply rows_evolve_trans with (emits pre w);
        [by apply rows_evolve_eq | apply rows_evolve_patched].
    + by apply rows_evolve_eq.
  - apply same_coordinator_trans with (patched p id (emits pre w));
      [|apply same_coordinator_emits].
    apply same_coordinator_trans with (emits pre w);
      [apply same_coordinator_emits | apply same_coordinator_patched].
Qed.

Lemma dispatch_run_spec env id t c to_ w r w' :
  dispatch env id t c to_ w = (r, w') → terminal_write id r w w'.
Proof.
  intros H. pose proof (dispatch_spec env id t c to_ w) as Hd.
  by rewrite H in Hd.
Qed.

Lemma catch_entry_evolves env id t w1 message wc :
  catch_entry env id t w1 message wc →
  rows_evolve w1 wc ∧ same_coordinator w1 wc ∧
  adminProfits wc = adminProfits w1.
Proof.
  intros [[_ ->] | [(c & to_ & _ & Hd) | (c & to_ & wd & u & _ & Hd & _ & _ & ->)]].
  - split; [apply rows_evolve_refl|]. split; [apply same_coordinator_refl|done].
  - apply dispatch_run_spec in Hd.
    destruct (terminal_write_evolves _ _ _ _ Hd) as [? ?].
    destruct (terminal_write_frame _ _ _ _ Hd) as (_ & _ & ? & _). done.
  - apply dispatch_run_spec in Hd.
    destruct (terminal_write_evolves _ _ _ _ Hd) as [? ?].
    destruct (terminal_write_frame _ _ _ _ Hd) as (_ & _ & ? & _).
    split; [|split; [|done]].
    + apply rows_evolve_trans with wd; [done | by apply rows_evolve_eq].
    + apply same_coordinator_trans with wd;
        [done | apply same_coordinator_emits].
Qed.

Lemma processNext_catch_evolves env id message w :
  rows_evolve w (processNext_catch env id message w).2 ∧
  same_coordinator w (processNext_catch env id message w).2.
Proof.
  destruct (processNext_catch_run env id message w) as (evs & r & -> & _).
  simpl. split.
  - eapply rows_evolve_trans; [apply rows_evolve_patched|].
    by apply rows_evolve_eq.
  - eapply same_coordinator_trans; [apply same_coordinator_patched|].
    apply same_coordinator_emits.
Qed.

Lemma with_profit_frame t wl c w :
  transactions (with_profit t wl c w) = transactions w ∧
  trace (with_profit t wl c w) = trace w ∧
  same_coordinator w (with_profit t wl c w).
Proof.
  unfold with_profit. destruct (fee_is_positive_number t); by repeat split.
Qed.

(** The body of a run keeps every row in place with its immutable columns
    and does not touch the coordinator's fields. *)
Lemma processNext_body_evolves env id w :
  rows_evolve w (processNext_body env id w).2 ∧
  same_coordinator w (processNext_body env id w).2.
Proof.
  destruct (processNext_body_cases env id w)
    as [[_ ->] | (t & wl & Heco & Hs & [(m & wc & Hentry & ->) |
          (c & to_ & wd & mail & Hrouted & Hd & _ & ->)])].
  - split; [apply rows_evolve_refl | apply same_coordinator_refl].
  - destruct (catch_entry_evolves _ _ _ _ _ _ Hentry) as (Hr & Hc & _).
    destruct (processNext_catch_evolves env id m wc) as [Hr' Hc'].
    split.
    + eapply rows_evolve_trans; [apply rows_evolve_patched|].
      by eapply rows_evolve_trans.
    + eapply same_coordinator_trans; [apply same_coordinator_patched|].
      by eapply same_coordinator_trans.
  - apply dispatch_run_spec in Hd.
    destruct (terminal_write_evolves _ _ _ _ Hd) as [Hr Hc].
    destruct (with_profit_frame t wl c (emits mail wd)) as (Htx & _ & Hc').
    simpl. split.
    + eapply rows_evolve_trans; [apply rows_evolve_patched|].
      eapply rows_evolve_trans; [exact Hr|]. by apply rows_evolve_eq.
    + eapply same_coordinator_trans; [apply same_coordinator_patched|].
      eapply same_coordinator_trans; [exact Hc|].
      eapply same_coordinator_trans; [apply same_coordinator_emits|exact Hc'].
Qed.

(** ** Single flight and order *)

Lemma processNext_begin_ok w :
  NoDup (queue w) → isProcessing w = false → processingTransactions w = ∅ →
  coordinator_ok {| world := (processNext_begin w).2;
                    inflight := (processNext_begin w).1 |}.
Proof.
  intros Hnd Hidle Hset. unfold processNext_begin, coordinator_ok.
  rewrite Hidle. simpl.
  destruct (queue w) as [|x rest] eqn:Hq; simpl.
  { rewrite Hq. split; [done|]. done. }
  apply NoDup_cons in Hnd as [Hx Hrest].
  destruct (truthy x) eqn:Hx'; simpl.
  - split; [done|]. split; [done|]. split; [|done].
    rewrite Hset. by rewrite union_empty_l_L.
  - split; [done|]. done.
Qed.

Lemma step_coordinator s a : coordinator_ok s → coordinator_ok (step s a).
Proof.
  intros [Hnd Hin]. destruct a as [id | env]; simpl.
  - unfold addTransaction.
    destruct (bool_decide (id ∈ processingTransactions (world s))) eqn:Hp;
      [by destruct s|].
    destruct (bool_decide (id ∈ queue (world s))) eqn:Hq; [by destruct s|].
    apply bool_decide_eq_false in Hp, Hq.
    assert (Hnd' : NoDup (queue (world s) ++ [id])).
    { apply NoDup_app. split; [done|]. split; [|apply NoDup_singleton].
      intros x Hx Hx'%list_elem_of_singleton. by subst. }
    destruct (inflight s) as [t|] eqn:Hinf.
    + destruct Hin as (Hbusy & Hset & Hnotin & Ht).
      unfold processNext_begin. simpl. rewrite Hbusy. simpl.
      split; [done|]. split; [done|]. split; [done|].
      split; [|done]. simpl. rewrite elem_of_app, list_elem_of_singleton.
      intros [? | ->]; [done|]. apply Hp. rewrite Hset. set_solver.
    + destruct Hin as [Hidle Hset].
      pose proof (processNext_begin_ok
                    (set_queue (fun q => q ++ [id]) (world s)) Hnd' Hidle Hset)
        as Hok.
      destruct (processNext_begin (set_queue (fun q => q ++ [id]) (world s)))
        as [started w'].
      simpl in *. by destruct started.
  - destruct (inflight s) as [t|] eqn:Hinf.
    2:{ split; [done|]. by rewrite Hinf. }
    destruct Hin as (Hbusy & Hset & Hnotin & Ht).
    rewrite processNext_resume_unfold.
    destruct (processNext_body_evolves env t (world s))
      as (_ & Hq & _ & Hpt & _).
    set (wb := (processNext_body env t (world s)).2) in *.
    pose proof (processNext_begin_ok (finish t wb)) as Hok.
    destruct (processNext_begin (finish t wb)) as [next w'].
    apply Hok; simpl.
    + by rewrite Hq.
    + done.
    + rewrite Hpt, Hset. apply difference_diag_L.
Qed.

(** X1. Starting from a state in which the pending list has no duplicate
    and the coordinator is busy exactly while one run is in flight (its id
    alone in the in-flight set and absent from the list), every history of
    enqueues and runs ends in such a state: never two runs at once, never
    an id queued twice or queued while in flight. *)
Theorem coordinator_single_flight s actions :
  coordinator_ok s → coordinator_ok (exec s actions).
Proof.
  unfold exec. revert s.
  induction actions as [|a actions IH]; intros s Hok; simpl; [done|].
  by apply IH, step_coordinator.
Qed.

Lemma coordinator_single_flight_witness :
  coordinator_ok
    (exec system0 [Enqueue "tx1"; Enqueue "tx2"; Enqueue "tx1";
                   Resume env_ok; Enqueue "tx1"]).
Proof.
  apply coordinator_single_flight.
  split; [constructor|]. split; reflexivity.
Defined.

Lemma resume_starts_head s env t next rest :
  coordinator_ok s → inflight s = Some t →
  queue (world s) = next :: rest → truthy next = true →
  inflight (step s (Resume env)) = Some next ∧
  queue (world (step s (Resume env))) = rest.
Proof.
  intros [Hnd Hin] Hinf Hq Hnext. simpl. rewrite Hinf.
  rewrite Hinf in Hin. destruct Hin as (Hbusy & Hset & Hnotin & Ht).
  rewrite processNext_resume_unfold.
  destruct (processNext_body_evolves env t (world s)) as (_ & Hq' & _).
  unfold processNext_begin, finish. simpl. rewrite Hq', Hq. simpl.
  by rewrite Hnext.
Qed.

(** X2. While a run is in flight, the ids waiting in the pending list are
    run one after the other in the order of the list, whatever the
    outcome of each run: after [k] runs have ended, the run in flight is
    that of the [k]-th waiting id and the list is what remains behind
    it. *)
Theorem queue_is_fifo s t (envs : list RunEnv) :
  coordinator_ok s → inflight s = Some t →
  Forall (fun x => truthy x = true) (queue (world s)) →
  (List.length envs ≤ List.length (queue (world s)))%nat →
  let s' := exec s (Resume <$> envs) in
  queue (world s') = drop (List.length envs) (queue (world s)) ∧
  inflight s' = last (t :: take (List.length envs) (queue (world s))).
Proof.
  revert s t. induction envs as [|env envs IH]; intros s t Hok Hinf Hall Hlen.
  { simpl. by rewrite drop_0. }
  simpl in Hlen. destruct (queue (world s)) as [|next rest] eqn:Hq;
    [simpl in Hlen; lia|].
  apply Forall_cons in Hall as [Hnext Hrest].
  destruct (resume_starts_head s env t next rest Hok Hinf Hq Hnext)
    as [Hinf' Hq'].
  pose proof (step_coordinator s (Resume env) Hok) as Hok'.
  specialize (IH (step s (Resume env)) next Hok' Hinf').
  rewrite Hq' in IH. simpl in Hlen.
  destruct (IH Hrest ltac:(lia)) as [IHq IHi].
  change (exec s (Resume <$> env :: envs))
    with (exec (step s (Resume env)) (Resume <$> envs)).
  cbn [List.length drop take]. split; [exact IHq|]. rewrite IHi.
  reflexivity.
Qed.

Lemma queue_is_fifo_witness :
  let s := exec system0 [Enqueue "tx1"; Enqueue "tx2"; Enqueue "tx9"] in
  queue (world (exec s (Resume <$> [env_ok; env_ok]))) = [] ∧
  inflight (exec s (Resume <$> [env_ok; env_ok])) = Some "tx9".
Proof.
  apply (queue_is_fifo
           (exec system0 [Enqueue "tx1"; Enqueue "tx2"; Enqueue "tx9"])
           "tx1" [env_ok; env_ok]).
  - split; [apply (bool_decide_unpack _); by vm_compute|].
    split; [reflexivity|]. split; [reflexivity|].
    split; [|reflexivity]. apply (bool_decide_unpack _). by vm_compute.
  - reflexivity.
  - vm_compute. by repeat constructor.
  - vm_compute. lia.
Defined.

Lemma step_keeps_rows s a : rows_evolve (world s) (world (step s a)).
Proof.
  destruct a as [id | env]; simpl.
  - apply rows_evolve_eq.
    destruct (addTransaction_frame id (world s)) as (Ht & _).
    by destruct (addTransaction id (world s)).
  - destruct (inflight s) as [t|]; [|apply rows_evolve_refl].
    rewrite processNext_resume_unfold.
    destruct (processNext_body_evolves env t (world s)) as [Hr _].
    destruct (processNext_begin_frame
                (finish t (processNext_body env t (world s)).2)) as (Ht & _).
    destruct (processNext_begin (finish t (processNext_body env t (world s)).2))
      as [next w'].
    simpl in *. eapply rows_evolve_trans; [exact Hr|]. by apply rows_evolve_eq.
Qed.

(** X3. No history of the coordinator adds or removes a transaction row,
    and every row keeps its id, wallet, user, type, amount, fee and
    metadata: the runs write [status], [referenceId] and [description]
    only. *)
Theorem history_keeps_rows s actions :
  rows_evolve (world s) (world (exec s actions)).
Proof.
  unfold exec. revert s.
  induction actions as [|a actions IH]; intros s; simpl;
    [apply rows_evolve_refl|].
  eapply rows_evolve_trans; [apply step_keeps_rows | apply IH].
Qed.

(** ** Refunds *)

Lemma count_cons f e evs :
  count f (e :: evs) = ((if f e then 1 else 0) + count f evs)%nat.
Proof.
  unfold count. rewrite filter_cons. by destruct (f e).
Qed.

Lemma count_none f evs :
  Forall (fun e => f e = false) evs → count f evs = 0%nat.
Proof.
  induction 1 as [|e evs He _ IH]; [done|]. by rewrite count_cons, He, IH.
Qed.

Lemma terminal_write_events id r w w' :
  terminal_write id r w w' →
  ∃ evs, trace w' = trace w ++ evs ∧
         Forall (fun e => before_refund e = true) evs.
Proof.
  intros (pre & post & p & Hpre & Hpost & -> & _).
  exists (pre ++ match transactions (emits pre w) !! id, p_status p with
                 | Some t, Some s => [EvStatus id (tx_status t) s]
                 | _, _ => []
                 end ++ post). split.
  - simpl. rewrite patched_trace. simpl. by rewrite <- !app_assoc.
  - assert (Hchain : ∀ l, chain_events l →
                          Forall (fun e => before_refund e = true) l).
    { intros l Hl. eapply Forall_impl; [exact Hl|].
      intros e He. unfold before_refund. by rewrite He. }
    rewrite !Forall_app. split; [by apply Hchain|]. split; [|by apply Hchain].
    destruct (transactions (emits pre w) !! id), (p_status p);
      by repeat constructor.
Qed.

Lemma catch_entry_events env id t w1 message wc :
  catch_entry env id t w1 message wc →
  ∃ evs, trace wc = trace w1 ++ evs ∧
         Forall (fun e => before_refund e = true) evs.
Proof.
  intros [[_ ->] | [(c & to_ & _ & Hd) | (c & to_ & wd & u & _ & Hd & _ & _ & ->)]].
  - exists []. by rewrite app_nil_r.
  - by apply dispatch_run_spec, terminal_write_events in Hd.
  - apply dispatch_run_spec, terminal_write_events in Hd
      as (evs & Htr & Hevs).
    eexists (evs ++ [_]). split.
    + simpl. rewrite Htr. by rewrite <- app_assoc.
    + apply Forall_app. split; [done|]. by repeat constructor.
Qed.

(** The events of one run of the body: none, or the claim followed by
    chain calls, status writes and at most the confirmation e-mail, and
    then, when the [catch] block was entered, by the refund of the row as
    it stands and what the [catch] block sends after it. *)
Lemma processNext_body_events env id w :
  ∃ evs,
    trace (processNext_body env id w).2 = trace w ++ evs ∧
    (evs = [] ∨
     (pending w id ∧
      ∃ pre rest,
        evs = claim_event id :: pre ++ rest ∧
        Forall (fun e => before_refund e = true) pre ∧
        (rest = [] ∨
         ∃ t' rest',
           transactions (processNext_body env id w).2 !! id = Some t' ∧
           tx_status t' = FAILED ∧
           (∃ m, tx_description t' = Some ("Transaction failed: " +:+ m)) ∧
           rest = EvRefund t' :: rest' ∧
           filter (fun e => is_refund e = true) rest' = []))).
Proof.
  destruct (processNext_body_cases env id w)
    as [[_ ->] | (t & wl & Heco & Hs & [(m & wc & Hentry & ->) |
          (c & to_ & wd & mail & Hrouted & Hd & Hmail & ->)])].
  - exists []. rewrite app_nil_r. split; [done | by left].
  - destruct (eco_transaction_Some _ _ _ _ Heco) as [Ht _].
    set (w1 := patched processing_patch id w) in *.
    assert (Htr1 : trace w1 = trace w ++ [claim_event id]).
    { unfold w1. rewrite patched_trace, Ht. simpl. by rewrite Hs. }
    destruct (catch_entry_events _ _ _ _ _ _ Hentry) as (evc & Htrc & Hevc).
    destruct (processNext_catch_run env id m wc)
      as (evs & r & -> & Hevs & Hmatch).
    set (pf := failed_patch ("Transaction failed: " +:+ m)) in *.
    set (st := match transactions wc !! id, p_status pf with
               | Some t0, Some s => [EvStatus id (tx_status t0) s]
               | _, _ => []
               end).
    exists (claim_event id :: (evc ++ st) ++ evs). split.
    { simpl. rewrite patched_trace, Htrc, Htr1. fold st.
      rewrite <- !app_assoc. done. }
    right. split; [by exists t|]. exists (evc ++ st), evs.
    split; [done|]. split.
    { apply Forall_app. split; [done|]. unfold st.
      destruct (transactions wc !! id); simpl; by repeat constructor. }
    destruct (eco_transaction (patched pf id wc) id) as [[t' wl']|] eqn:Heco';
      [|by left].
    right. destruct Hmatch as (rest & -> & Hnone & _ & _).
    exists t', rest. simpl.
    destruct (eco_transaction_Some _ _ _ _ Heco') as [Ht' _].
    split; [done|].
    rewrite patched_lookup, decide_True in Ht' by done.
    destruct (transactions wc !! id); [|done].
    simpl in Ht'. injection Ht' as <-.
    split; [done|]. split; [by exists m | done].
  - destruct (eco_transaction_Some _ _ _ _ Heco) as [Ht _].
    set (w1 := patched processing_patch id w) in *.
    assert (Htr1 : trace w1 = trace w ++ [claim_event id]).
    { unfold w1. rewrite patched_trace, Ht. simpl. by rewrite Hs. }
    apply dispatch_run_spec, terminal_write_events in Hd
      as (evd & Htrd & Hevd).
    destruct (with_profit_frame t wl c (emits mail wd)) as (_ & Htr & _).
    exists (claim_event id :: (evd ++ mail) ++ []). split.
    { simpl. rewrite Htr. simpl. rewrite Htrd, Htr1.
      rewrite app_nil_r. by rewrite <- !app_assoc. }
    right. split; [by exists t|]. exists (evd ++ mail), [].
    split; [done|]. split; [|by left].
    apply Forall_app. split; [done|].
    destruct Hmail as [-> | (u & _ & _ & ->)]; by repeat constructor.
Qed.


(** The events of one step of the coordinator. *)
Lemma step_events s a :
  ∃ evs,
    trace (world (step s a)) = trace (world s) ++ evs ∧
    (evs = [] ∨
     ∃ id,
       pending (world s) id ∧
       ∃ pre rest,
         evs = claim_event id :: pre ++ rest ∧
         Forall (fun e => before_refund e = true) pre ∧
         (rest = [] ∨
          ∃ t' rest',
            transactions (world (step s a)) !! id = Some t' ∧
            tx_status t' = FAILED ∧
            (∃ m, tx_description t' = Some ("Transaction failed: " +:+ m)) ∧
            rest = EvRefund t' :: rest' ∧
            filter (fun e => is_refund e = true) rest' = [])).
Proof.
  destruct a as [id | env]; simpl.
  - destruct (addTransaction_frame id (world s)) as (Ht & Htr & _).
    destruct (addTransaction id (world s)) as [started w'].
    simpl in *. exists []. rewrite app_nil_r. split; [done | by left].
  - destruct (inflight s) as [id|].
    2:{ exists []. rewrite app_nil_r. split; [done | by left]. }
    rewrite processNext_resume_unfold.
    destruct (processNext_body_events env id (world s)) as (evs & Htr & Hcases).
    destruct (processNext_begin_frame
                (finish id (processNext_body env id (world s)).2))
      as (Ht' & Htr' & _).
    destruct (processNext_begin
                (finish id (processNext_body env id (world s)).2))
      as [next w'].
    simpl in *. exists evs. split; [by rewrite Htr'|].
    destruct Hcases as [-> | (Hp & pre & rest & -> & Hpre & Hrest)];
      [by left|].
    right. exists id. split; [done|]. exists pre, rest.
    split; [done|]. split; [done|].
    destruct Hrest as [-> | (t' & rest' & Hrow & Hf & Hd & -> & Hnone)];
      [by left|].
    right. exists t', rest'. by rewrite Ht'.
Qed.






Lemma not_refund_is_fine evs :
  filter (fun e => is_refund e = true) evs = [] →
  Forall refund_of_failed_row evs.
Proof.
  induction evs as [|e evs IH]; [done|].
  rewrite filter_cons. destruct (decide (is_refund e = true)) as [|Hn];
    [done|].
  intros H. constructor; [|by apply IH]. by destruct e.
Qed.

(** X5. In any history of the coordinator, from any state, every call of
    [refundUser] is given a row that is FAILED and whose description is
    "Transaction failed: " followed by the error: the refund never
    precedes the FAILED write of the [catch] block. *)
Theorem refund_follows_failed_write s actions :
  Forall refund_of_failed_row (history_events s actions).
Proof.
  revert s. induction actions as [|a actions IH]; intros s.
  { by rewrite history_events_nil. }
  rewrite history_events_cons. apply Forall_app. split; [|apply IH].
  destruct (step_events s a) as (evs & Htr & Hcases).
  rewrite (history_events_step s a evs Htr).
  destruct Hcases as [-> | (k & Hp & pre & rest & -> & Hpre & Hrest)];
    [done|].
  constructor; [done|]. apply Forall_app. split.
  - eapply Forall_impl; [exact Hpre|]. by intros [].
  - destruct Hrest as [-> | (t' & rest' & _ & Hf & Hd & -> & Hnone)]; [done|].
    constructor; [by split|]. by apply not_refund_is_fine.
Qed.

(** ** Validation failures *)






(** ** The confirmation e-mail *)

Lemma confirmation_rows_app a b :
  confirmation_rows (a ++ b) = confirmation_rows a ++ confirmation_rows b.
Proof. apply omap_app. Qed.

Lemma confirmation_rows_none evs :
  Forall (fun e => is_email e = false) evs → confirmation_rows evs = [].
Proof.
  induction 1 as [|e evs He _ IH]; [done|].
  destruct e; try discriminate He; exact IH.
Qed.

Lemma terminal_write_no_mail id r w w' :
  terminal_write id r w w' →
  ∃ evs, trace w' = trace w ++ evs ∧ confirmation_rows evs = [].
Proof.
  intros (evs & Htr & Hevs)%terminal_write_business.
  exists evs. split; [done|]. apply confirmation_rows_none.
  eapply Forall_impl; [exact Hevs|]. by intros [].
Qed.

Lemma processNext_catch_no_confirmation env id message w :
  let w1 := patched (failed_patch ("Transaction failed: " +:+ message)) id w in
  ∃ evs r,
    processNext_catch env id message w = (r, emits evs w1) ∧
    confirmation_rows evs = [].
Proof.
  intros w1. subst w1.
  unfold processNext_catch, transaction_find_with_eco_wallet.
  munfold. rewrite transaction_update_always. unfold failed_patch. simpl.
  set (w1 := patched _ id w).
  destruct (eco_transaction w1 id) as [[t wl]|]; simpl.
  2:{ exists [], (Ok tt). by rewrite emits_nil. }
  unfold refundUser, notifyWithdrawalFailed, handleNotification,
    sendEcoWithdrawalFailedEmail, parse_metadata. munfold.
  destruct (refund env) as [[]|mr]; simpl.
  2:{ unfold emit. (eexists _, _; split; reflexivity). }
  destruct (users w1 !! tx_userId t) as [u|]; simpl.
  - destruct (tx_metadata t) as [e| |md]; simpl.
    + unfold emit. (eexists _, _; split; reflexivity).
    + unfold emit. (eexists _, _; split; reflexivity).
    + destruct (failedEmail env) as [[]|mf]; simpl.
      * destruct (notification env) as [[]|mn]; simpl;
          unfold emit; rewrite ?emits_emits; (eexists _, _; split; reflexivity).
      * unfold emit; rewrite ?emits_emits; (eexists _, _; split; reflexivity).
  - destruct (notification env) as [[]|mn]; simpl;
      unfold emit; rewrite ?emits_emits; (eexists _, _; split; reflexivity).
Qed.

Lemma catch_entry_confirmations env id t w1 message wc :
  catch_entry env id t w1 message wc →
  ∃ evs, trace wc = trace w1 ++ evs ∧
         (confirmation_rows evs = [] ∨ confirmation_rows evs = [t]).
Proof.
  intros [[_ ->] | [(c & to_ & _ & Hd) | (c & to_ & wd & u & _ & Hd & _ & _ & ->)]].
  - exists []. rewrite app_nil_r. split; [done | by left].
  - apply dispatch_run_spec, terminal_write_no_mail in Hd
      as (evs & Htr & Hevs).
    exists evs. split; [done | by left].
  - apply dispatch_run_spec, terminal_write_no_mail in Hd
      as (evs & Htr & Hevs).
    eexists (evs ++ [_]). split.
    + simpl. rewrite Htr. by rewrite <- app_assoc.
    + right. by rewrite confirmation_rows_app, Hevs.
Qed.

Lemma status_write_no_mail id (o : option Transaction) (p : Patch) :
  confirmation_rows
    match o, p_status p with
    | Some t, Some s => [EvStatus id (tx_status t) s]
    | _, _ => []
    end = [].
Proof. by destruct o, (p_status p). Qed.

(** X7. The confirmation e-mail of a run is built from the transaction
    object loaded at the start of the run, before the claim and before the
    handler stored the chain's reference: a run sends at most one
    confirmation e-mail and it carries the row as it was loaded. When that
    row had no reference id, the TRANSACTION_ID of the e-mail is the row's
    own id, not the signature or hash that the handler wrote. *)
Theorem confirmation_email_shows_row_as_loaded env id w t wl :
  eco_transaction w id = Some (t, wl) →
  let mailed :=
    confirmation_rows (events_since w (processNext_body env id w).2) in
  (mailed = [] ∨ mailed = [t]) ∧
  (tx_referenceId t = None →
   Forall (fun t0 => TRANSACTION_ID t0 = tx_id t) mailed).
Proof.
  intros Heco mailed.
  assert (Hmain : mailed = [] ∨ mailed = [t]).
  { subst mailed.
    destruct (eco_transaction_Some _ _ _ _ Heco) as [Ht _].
    destruct (processNext_body_cases env id w)
      as [[_ ->] | (t0 & wl0 & Heco0 & Hs & [(m & wc & Hentry & ->) |
            (c & to_ & wd & mail & Hrouted & Hd & Hmail & ->)])].
    - left. unfold events_since. by rewrite drop_all.
    - rewrite Heco in Heco0. injection Heco0 as <- <-.
      set (w1 := patched processing_patch id w) in *.
      assert (Htr1 : trace w1 = trace w ++ [claim_event id]).
      { unfold w1. rewrite patched_trace, Ht. simpl. by rewrite Hs. }
      destruct (catch_entry_confirmations _ _ _ _ _ _ Hentry)
        as (evc & Htrc & Hevc).
      destruct (processNext_catch_no_confirmation env id m wc)
        as (evs & r & -> & Hevs).
      set (pf := failed_patch ("Transaction failed: " +:+ m)) in *.
      cbn [snd].
      rewrite (events_since_app w _
                 ([claim_event id] ++ evc
                  ++ match transactions wc !! id, p_status pf with
                     | Some t0, Some s => [EvStatus id (tx_status t0) s]
                     | _, _ => []
                     end ++ evs)).
      2:{ simpl. rewrite patched_trace, Htrc, Htr1.
          by rewrite <- !app_assoc. }
      rewrite !confirmation_rows_app, status_write_no_mail, Hevs.
      simpl. by rewrite app_nil_r.
    - rewrite Heco in Heco0. injection Heco0 as <- <-.
      set (w1 := patched processing_patch id w) in *.
      assert (Htr1 : trace w1 = trace w ++ [claim_event id]).
      { unfold w1. rewrite patched_trace, Ht. simpl. by rewrite Hs. }
      apply dispatch_run_spec, terminal_write_no_mail in Hd
        as (evd & Htrd & Hevd).
      destruct (with_profit_frame t wl c (emits mail wd)) as (_ & Htr & _).
      cbn [snd].
      rewrite (events_since_app w _ ([claim_event id] ++ evd ++ mail)).
      2:{ rewrite Htr. simpl. rewrite Htrd, Htr1. by rewrite <- !app_assoc. }
      rewrite !confirmation_rows_app, Hevd. simpl.
      destruct Hmail as [-> | (u & _ & _ & ->)]; [by left | by right]. }
  split; [done|]. intros Href.
  destruct Hmain as [-> | ->]; [done|].
  constructor; [|done]. unfold TRANSACTION_ID. by rewrite Href.
Qed.

Lemma confirmation_email_shows_row_as_loaded_witness :
  let mailed :=
    confirmation_rows
      (events_since world0 (processNext_body env_ok "tx1" world0).2) in
  (mailed = [] ∨ mailed = [tx1]) ∧
  (tx_referenceId tx1 = None →
   Forall (fun t0 => TRANSACTION_ID t0 = tx_id tx1) mailed).
Proof.
  apply (confirmation_email_shows_row_as_loaded env_ok "tx1" world0 tx1 wallet_w1).
  reflexivity.
Defined.

(** ** The admin-profit ledger over a history *)









(** ** The withdrawal handlers, path by path *)

Ltac leaf_events w :=
  unfold emit; rewrite ?emits_emits;
  try rewrite (events_since_app w (emits _ w) _ eq_refl).

Lemma events_since_same w : events_since w w = [].
Proof. unfold events_since. by rewrite drop_all. Qed.

(** X9. [transferSol] broadcasts at most one raw transaction, for the
    recipient and the amount it was given, and writes nothing: a call
    that returns a signature has broadcast exactly once; a call that ends
    before the broadcast (no key for the wallet, a key that cannot be
    decoded, no recent blockhash) sends nothing; and every failure comes
    back as an error whose message starts with "Failed to transfer
    SOL: ". *)
Theorem transferSol_broadcasts_at_most_once env walletId recipient amount w :
  let run := transferSol env walletId recipient amount w in
  let sent :=
    filter (fun e => is_transfer e = true) (events_since w run.2) in
  (sent = [] ∨ sent = [EvTransfer "SOL" recipient amount]) ∧
  (∀ signature, run.1 = Ok signature →
     sent = [EvTransfer "SOL" recipient amount]) ∧
  (∀ message, run.1 = Throw message →
     ∃ cause, message = "Failed to transfer SOL: " +:+ cause) ∧
  (∃ evs, run.2 = emits evs w) ∧
  (sol_walletData env walletId = None ∨
   (∃ data m, sol_walletData env walletId = Some data ∧
              sol_Keypair env data = Throw m) ∨
   (∃ m, sol_getLatestBlockhash env = Throw m) →
   sent = []).
Proof.
  unfold transferSol. munfold.
  destruct (sol_walletData env walletId) as [data|] eqn:Hdata; simpl.
  2:{ rewrite events_since_same. simpl.
      split; [by left|]. split; [done|]. split; [intros ? [= <-]; by eexists|].
      split; [exists []; by rewrite emits_nil | done]. }
  destruct (sol_Keypair env data) as [[]|mk] eqn:Hkey; simpl.
  2:{ rewrite events_since_same. simpl.
      split; [by left|]. split; [done|]. split; [intros ? [= <-]; by eexists|].
      split; [exists []; by rewrite emits_nil | done]. }
  destruct (sol_getLatestBlockhash env) as [[]|mb] eqn:Hblock; simpl.
  2:{ leaf_events w. rewrite ?filter_cons, ?filter_nil. simpl.
      split; [by left|]. split; [done|]. split; [intros ? [= <-]; by eexists|].
      split; [by eexists | done]. }
  assert (Hlate :
    Some data = None ∨
    (∃ data0 m, Some data = Some data0 ∧ sol_Keypair env data0 = Throw m) ∨
    (∃ m : string, Ok tt = Throw m) → False).
  { intros [H | [(d & m & [= <-] & H) | (m & H)]]; congruence. }
  destruct (sol_sendRawTransaction env) as [sig|ms]; simpl.
  2:{ leaf_events w.
      split; [by right|]. split; [intros sg Hsg; discriminate Hsg|].
      split; [intros ? [= <-]; eexists; reflexivity|].
      split; [eexists; reflexivity | intros H; by destruct Hlate]. }
  destruct (sol_confirmTransaction env) as [[]|mc]; simpl;
    (destruct (sol_getTransaction env) as [[[[[[e|]]|]]|]|m]; simpl;
     leaf_events w;
     (split; [by right|]);
     (split; [intros sg Hsg; first [discriminate Hsg | reflexivity]|]);
     (split; [intros ? Hm; first [discriminate Hm
                                 | injection Hm as <-; eexists; reflexivity]|]);
     (split; [eexists; reflexivity | intros H; by destruct Hlate])).
Qed.

Lemma transferSol_broadcasts_at_most_once_witness :
  filter (fun e => is_transfer e = true)
    (events_since world0 (transferSol solana_ok "w1" "Addr1" 1000000000 world0).2)
  = [EvTransfer "SOL" "Addr1" 1000000000].
Proof.
  apply (proj1 (proj2 (transferSol_broadcasts_at_most_once
                         solana_ok "w1" "Addr1" 1000000000 world0)) "Sig1").
  reflexivity.
Defined.




(** * The service singletons *)

Lemma calls_settled {E A S} (f : E → S → Result A * S) (a : A) (s : S) :
  (∀ e, f e s = (Ok a, s)) →
  ∀ envs, (calls f envs s).2 = s ∧ Forall (fun r => r = Ok a) (calls f envs s).1.
Proof.
  intros Hf. induction envs as [|e envs [IH1 IH2]]; [by split|].
  simpl. rewrite Hf. destruct (calls f envs s) as [rs s2]. simpl in *.
  split; [done|]. by constructor.
Qed.

(** X12. Each service probes its chain once. Whatever the first call of
    [MoneroService.getInstance] does - the daemon answers, or the request
    fails and the call is rejected - the instance stays: every later call
    returns it without a new probe, with [chainActive] as the first probe
    left it ([false] when the request failed). For
    [SolanaService.getInstance], the calls made while the constructor
    raises leave no instance behind; from the first call that gets past
    the constructor on, every call returns the flag that call's file check
    gave. *)
Theorem singletons_probe_once :
  (∀ get_info later,
     let first := Monero_getInstance get_info None in
     let chainActive :=
       match get_info with
       | Ok synchronized => Monero_checkChainStatus synchronized
       | Throw _ => false
       end in
     first.2 = Some chainActive ∧
     (∀ m, get_info = Throw m → first.1 = Throw m) ∧
     (calls Monero_getInstance later first.2).2 = Some chainActive ∧
     Forall (fun r => r = Ok chainActive)
       (calls Monero_getInstance later first.2).1) ∧
  (∀ ctor files later,
     let first := Solana_getInstance ctor files None in
     match ctor with
     | Throw m => first = (Throw m, None)
     | Ok _ =>
         first.1 = Ok (Solana_checkChainStatus files) ∧
         Forall (fun r => r = Ok (Solana_checkChainStatus files))
           (calls (fun e => Solana_getInstance e.1 e.2) later first.2).1
     end).
Proof.
  split.
  - intros get_info later first chainActive.
    assert (Hfirst : first.2 = Some chainActive).
    { subst first chainActive. by destruct get_info. }
    split; [done|]. split; [by intros m ->|].
    rewrite Hfirst.
    by apply (calls_settled Monero_getInstance chainActive (Some chainActive)).
  - intros ctor files later first. subst first.
    destruct ctor as [[]|m]; simpl; [|done]. split; [done|].
    by apply (calls_settled (fun e => Solana_getInstance e.1 e.2)).
Qed.

Lemma singletons_probe_once_witness :
  (calls Monero_getInstance [Ok (Some true); Ok (Some true)]
     (Monero_getInstance (Throw "ECONNREFUSED") None).2).2 = Some false.
Proof.
  exact (proj1 (proj2 (proj2
           (proj1 singletons_probe_once (Throw "ECONNREFUSED")
              [Ok (Some true); Ok (Some true)])))).
Defined.

(** * MoneroService: transaction history *)

Lemma parseMoneroTransactions_hashes raw :
  pt_hash <$> parseMoneroTransactions raw = raw_txid <$> raw.
Proof.
  unfold parseMoneroTransactions. rewrite <- list_fmap_compose.
  by apply list_fmap_ext.
Qed.

(** X13. [MoneroService.fetchTransactions] always ends with a
    [close_wallet] call, also when nothing was opened: on an inactive
    chain it raises "Failed to fetch Monero transactions: Chain 'Monero'
    is not active." and [close_wallet] is its only RPC call. On an active
    chain the outcome is that of [get_transfers] alone (the answer of
    [open_wallet] is not looked at): with a [result], one parsed entry per
    raw entry, in the order in, out, pending, failed. Every failure
    carries the prefix "Failed to fetch Monero transactions: ", and the
    call writes nothing and transfers nothing. *)
Theorem Monero_fetchTransactions_closes_wallet env walletName w :
  let run := Monero_fetchTransactions env walletName w in
  (∃ calls_before,
     run.2 = emits (calls_before ++ [EvChain "XMR" "close_wallet"]) w ∧
     Forall (fun e => ∃ method, e = EvChain "XMR" method) calls_before) ∧
  (xmr_chainActive (h_monero env) = false →
   run = (Throw "Failed to fetch Monero transactions: Chain 'Monero' is not active.",
          emits [EvChain "XMR" "close_wallet"] w)) ∧
  (xmr_chainActive (h_monero env) = true →
   ∀ result, h_get_transfers env = Ok (Some result) →
   ∃ parsed,
     run.1 = Ok parsed ∧
     pt_hash <$> parsed
     = raw_txid <$> (tr_in result ++ tr_out result ++ tr_pending result
                     ++ tr_failed result)) ∧
  (∀ message, run.1 = Throw message →
     ∃ cause, message = "Failed to fetch Monero transactions: " +:+ cause).
Proof.
  unfold Monero_fetchTransactions, Monero_ensureChainActive.
  unfold try_finally, try_catch, mbind, M_bind, bind.
  destruct (xmr_chainActive (h_monero env)) eqn:Hactive.
  - unfold mret, M_ret, ret. rewrite openWallet_run.
    unfold modify, external. simpl.
    destruct (h_get_transfers env) as [[result|]|m]; simpl;
      unfold throw; rewrite closeWallet_run; unfold emit;
      rewrite ?emits_emits; simpl.
    + split; [eexists [_; _]; split; [reflexivity|]; repeat constructor;
              by eexists|].
      split; [done|]. split; [|done].
      intros _ result' [= <-]. eexists. split; [reflexivity|].
      apply parseMoneroTransactions_hashes.
    + split; [eexists [_; _]; split; [reflexivity|]; repeat constructor;
              by eexists|].
      split; [done|]. split; [done|]. intros ? [= <-]. by eexists.
    + split; [eexists [_; _]; split; [reflexivity|]; repeat constructor;
              by eexists|].
      split; [done|]. split; [done|]. intros ? [= <-]. by eexists.
  - unfold throw. simpl. rewrite closeWallet_run.
    split; [exists []; by split|]. split; [done|]. split; [done|].
    intros ? [= <-]. by eexists.
Qed.

Lemma Monero_fetchTransactions_closes_wallet_witness :
  Monero_fetchTransactions history_env "w2" world0
  = (Throw "Failed to fetch Monero transactions: Chain 'Monero' is not active.",
     emits [EvChain "XMR" "close_wallet"] world0).
Proof.
  apply (proj1 (proj2 (Monero_fetchTransactions_closes_wallet
                         history_env "w2" world0))).
  reflexivity.
Defined.

(** * SolanaService: tracking a deposit *)

Lemma trackLoop_run getTransaction retries remaining w :
  ∃ k found,
    trackLoop getTransaction retries remaining w
    = (Ok found, emits (replicate k (EvChain "SOL" "getTransaction")) w) ∧
    (k ≤ remaining)%nat ∧
    (∀ j tx, (retries ≤ j)%nat → (j + 1 < retries + k)%nat →
             getTransaction j ≠ Ok (Some tx)) ∧
    match found with
    | Some tx =>
        (1 ≤ k)%nat ∧ getTransaction (retries + k - 1)%nat = Ok (Some tx)
    | None =>
        k = remaining ∧
        ∀ j tx, (retries ≤ j)%nat → (j < retries + remaining)%nat →
                getTransaction j ≠ Ok (Some tx)
    end.
Proof.
  revert retries w. induction remaining as [|n IH]; intros retries w.
  { exists 0%nat, None. simpl. rewrite emits_nil.
    split; [done|]. split; [done|]. split; [intros; lia|].
    split; [done|]. intros; lia. }
  simpl. munfold.
  destruct (getTransaction retries) as [[tx|]|m] eqn:Hg; simpl.
  - exists 1%nat, (Some tx). split; [done|]. split; [lia|].
    split; [intros; lia|]. split; [done|].
    by replace (retries + 1 - 1)%nat with retries by lia.
  - destruct (IH (S retries) (emit (EvChain "SOL" "getTransaction") w))
      as (k & found & Hrun & Hk & Hbefore & Hfound).
    rewrite Hrun. exists (S k), found. split.
    { unfold emit. by rewrite emits_emits. }
    split; [lia|]. split.
    { intros j tx Hj Hjk. destruct (decide (j = retries)) as [-> | Hne];
        [congruence|]. apply Hbefore; lia. }
    destruct found as [tx|].
    + destruct Hfound as [Hk1 Hg']. split; [lia|].
      by replace (retries + S k - 1)%nat with (S retries + k - 1)%nat by lia.
    + destruct Hfound as [-> Hnone]. split; [done|].
      intros j tx Hj Hjn. destruct (decide (j = retries)) as [-> | Hne];
        [congruence|]. apply Hnone; lia.
  - destruct (IH (S retries) (emit (EvChain "SOL" "getTransaction") w))
      as (k & found & Hrun & Hk & Hbefore & Hfound).
    rewrite Hrun. exists (S k), found. split.
    { unfold emit. by rewrite emits_emits. }
    split; [lia|]. split.
    { intros j tx Hj Hjk. destruct (decide (j = retries)) as [-> | Hne];
        [congruence|]. apply Hbefore; lia. }
    destruct found as [tx|].
    + destruct Hfound as [Hk1 Hg']. split; [lia|].
      by replace (retries + S k - 1)%nat with (S retries + k - 1)%nat by lia.
    + destruct Hfound as [-> Hnone]. split; [done|].
      intros j tx Hj Hjn. destruct (decide (j = retries)) as [-> | Hne];
        [congruence|]. apply Hnone; lia.
Qed.

(** The shape of every run: [k] queries, then nothing, or the hand-over
    of the deposit, followed by the removal of the listener when the
    store returned. *)
Lemma trackTransactionSignature_run env signature wallet address w :
  ∃ k rest,
    trackTransactionSignature env signature wallet address w
    = (Ok tt, emits (replicate k (EvChain "SOL" "getTransaction") ++ rest) w) ∧
    (k ≤ Solana_maxRetries)%nat ∧
    (∀ j tx, (j + 1 < k)%nat → trk_getTransaction env j ≠ Ok (Some tx)) ∧
    ((∀ j tx, (j < Solana_maxRetries)%nat →
              trk_getTransaction env j ≠ Ok (Some tx)) →
     k = Solana_maxRetries ∧ rest = []) ∧
    (∀ j tx, (j < Solana_maxRetries)%nat →
             trk_getTransaction env j = Ok (Some tx) →
             (∀ i tx', (i < j)%nat → trk_getTransaction env i ≠ Ok (Some tx')) →
             k = S j) ∧
    (rest = [] ∨
     ∃ tx account,
       (1 ≤ k)%nat ∧
       trk_getTransaction env (k - 1)%nat = Ok (Some tx) ∧
       trk_meta tx = true ∧
       account ∈ trk_accounts tx ∧ acc_key account = address ∧
       (0 < acc_postBalance account - acc_preBalance account)%Z ∧
       let deposit :=
         EvDeposit (w_id wallet) "SOL" signature
           (acc_postBalance account - acc_preBalance account) 0 in
       (rest = [deposit] ∨
        (trk_store env = Ok tt ∧
         rest = [deposit; EvChain "SOL" "removeOnLogsListener"]))).
Proof.
  unfold trackTransactionSignature.
  unfold try_catch at 1. unfold mbind at 1, M_bind at 1, bind at 1.
  destruct (trackLoop_run (trk_getTransaction env) 0 Solana_maxRetries w)
    as (k & found & -> & Hk & Hbefore & Hfound).
  set (Q := replicate k (EvChain "SOL" "getTransaction")).
  assert (Hfirst : ∀ j tx, (j < Solana_maxRetries)%nat →
            trk_getTransaction env j = Ok (Some tx) →
            (∀ i tx', (i < j)%nat → trk_getTransaction env i ≠ Ok (Some tx')) →
            k = S j).
  { intros j tx Hj Hg Hmin. destruct found as [tx0|].
    - destruct Hfound as [Hk1 Hg0]. simpl in Hg0.
      destruct (decide (k = S j)) as [|Hne]; [done|]. exfalso.
      destruct (decide (j + 1 < k)%nat) as [Hlt|Hge].
      + by apply (Hbefore j tx ltac:(lia) ltac:(lia)).
      + apply (Hmin (k - 1)%nat tx0); [lia | done].
    - destruct Hfound as [-> Hnone]. exfalso.
      by apply (Hnone j tx ltac:(lia) ltac:(lia)). }
  assert (Hnever : (∀ j tx, (j < Solana_maxRetries)%nat →
              trk_getTransaction env j ≠ Ok (Some tx)) →
            found = None ∧ k = Solana_maxRetries).
  { intros Hno. destruct found as [tx0|]; [|by destruct Hfound].
    destruct Hfound as [Hk1 Hg0]. simpl in Hg0.
    exfalso. apply (Hno (k - 1)%nat tx0); [lia | done]. }
  assert (Hpre : ∀ j tx, (j + 1 < k)%nat →
                         trk_getTransaction env j ≠ Ok (Some tx)).
  { intros j tx Hj. apply Hbefore; lia. }
  destruct found as [tx|]; simpl.
  2:{ exists k, []. rewrite app_nil_r. split; [done|]. split; [done|].
      split; [done|]. split; [by intros _; destruct Hfound|].
      split; [done | by left]. }
  destruct Hfound as [Hk1 Hg]. simpl in Hg.
  assert (Hsome' : ∀ rest : list Event, (∀ j tx0, (j < Solana_maxRetries)%nat →
              trk_getTransaction env j ≠ Ok (Some tx0)) →
            k = Solana_maxRetries ∧ rest = []).
  { intros rest Hno. by destruct (Hnever Hno). }
  destruct (trk_meta tx) eqn:Hmeta; simpl.
  2:{ exists k, []. rewrite app_nil_r. split; [done|]. split; [done|].
      split; [done|]. split; [apply Hsome'|]. split; [done | by left]. }
  destruct (List.find (fun a => (acc_key a =? address)%string)
              (trk_accounts tx)) as [account|] eqn:Hfind; simpl.
  2:{ exists k, []. rewrite app_nil_r. split; [done|]. split; [done|].
      split; [done|]. split; [apply Hsome'|]. split; [done | by left]. }
  apply find_some in Hfind as [Hin Hkey%String.eqb_eq].
  apply list_elem_of_In in Hin.
  destruct (acc_postBalance account - acc_preBalance account <=? 0)%Z
    eqn:Hdiff; simpl.
  { exists k, []. rewrite app_nil_r. split; [done|]. split; [done|].
    split; [done|]. split; [apply Hsome'|]. split; [done | by left]. }
  apply Z.leb_gt in Hdiff.
  munfold. unfold emit. rewrite !emits_emits.
  destruct (trk_store env) as [[]|ms] eqn:Hstore; simpl.
  - destruct (trk_removeOnLogsListener env) as [[]|mr]; simpl;
      (eexists k, [_; _];
       split; [reflexivity|]; split; [done|]; split; [done|];
       split; [apply Hsome'|]; split; [done|];
       right; exists tx, account; repeat (split; [done|]); by right).
  - eexists k, [_]. split; [reflexivity|]. split; [done|]. split; [done|].
    split; [apply Hsome'|]. split; [done|].
    right. exists tx, account. repeat (split; [done|]). by left.
Qed.

Lemma count_replicate f e k :
  count f (replicate k e) = if f e then k else 0%nat.
Proof.
  induction k as [|k IH]; simpl; [by destruct (f e)|].
  rewrite count_cons, IH. by destruct (f e).
Qed.

(** X14. [trackTransactionSignature] never raises and touches no table.
    It asks the node for the transaction at most thirty times and stops
    at the first answer that carries it: when the query after [j] failed
    attempts is the first to find it, exactly [j + 1] queries are made;
    when none of the thirty does, nothing else happens. A deposit is
    handed to [storeAndBroadcastTransaction] at most once per call, and
    only for a transaction that was found, has metadata, lists the
    wallet's address among its accounts and raised that account's balance:
    the amount handed over is the balance after minus the balance before,
    in lamports, under the signature the call was given. The log listener
    is removed only after the store has returned. *)
Theorem trackTransactionSignature_bounded env signature wallet address w :
  let run := trackTransactionSignature env signature wallet address w in
  let evs := events_since w run.2 in
  run.1 = Ok tt ∧
  (∃ evs', run.2 = emits evs' w) ∧
  (count is_getTransaction evs ≤ Solana_maxRetries)%nat ∧
  (∀ j tx, (j < Solana_maxRetries)%nat →
     trk_getTransaction env j = Ok (Some tx) →
     (∀ i tx', (i < j)%nat → trk_getTransaction env i ≠ Ok (Some tx')) →
     count is_getTransaction evs = S j) ∧
  ((∀ j tx, (j < Solana_maxRetries)%nat →
      trk_getTransaction env j ≠ Ok (Some tx)) →
   evs = replicate Solana_maxRetries (EvChain "SOL" "getTransaction")) ∧
  (count is_deposit evs ≤ 1)%nat ∧
  (∀ e, e ∈ evs → is_deposit e = true →
     ∃ j tx account,
       (j < Solana_maxRetries)%nat ∧
       trk_getTransaction env j = Ok (Some tx) ∧
       trk_meta tx = true ∧
       account ∈ trk_accounts tx ∧ acc_key account = address ∧
       (0 < acc_postBalance account - acc_preBalance account)%Z ∧
       e = EvDeposit (w_id wallet) "SOL" signature
             (acc_postBalance account - acc_preBalance account) 0) ∧
  (EvChain "SOL" "removeOnLogsListener" ∈ evs →
   trk_store env = Ok tt ∧ count is_deposit evs = 1%nat).
Proof.
  destruct (trackTransactionSignature_run env signature wallet address w)
    as (k & rest & Hrun & Hk & _ & Hnone & Hfirst & Hrest).
  intros run evs. subst run evs. rewrite Hrun. cbn [fst snd].
  rewrite (events_since_app w (emits _ w) _ eq_refl).
  set (Q := EvChain "SOL" "getTransaction").
  assert (HQ : ∀ e, e ∈ replicate k Q → is_deposit e = false ∧
                    e ≠ EvChain "SOL" "removeOnLogsListener").
  { intros e [-> _]%elem_of_replicate. by split. }
  assert (Hget : count is_getTransaction (replicate k Q ++ rest) = k).
  { rewrite count_app, count_replicate. simpl.
    destruct Hrest as [-> | (tx & account & _ & _ & _ & _ & _ & _ &
                             [-> | [_ ->]])]; simpl;
      rewrite ?count_cons; simpl; unfold count; simpl; lia. }
  split; [done|]. split; [by eexists|]. rewrite Hget.
  split; [done|]. split; [intros j tx Hj Hg Hmin; by eapply Hfirst|].
  split.
  { intros Hno. destruct (Hnone Hno) as [-> ->]. by rewrite app_nil_r. }
  rewrite count_app, count_replicate. simpl.
  destruct Hrest as [-> | (tx & account & Hk1 & Hg & Hmeta & Hin & Hkey & Hpos &
                           Hshape)].
  { rewrite app_nil_r. split; [unfold count; simpl; lia|]. split.
    - intros e He Hd. destruct (HQ e He). congruence.
    - intros He. by destruct (HQ _ He). }
  assert (Hcount : count is_deposit rest = 1%nat).
  { destruct Hshape as [-> | [_ ->]]; rewrite ?count_cons; simpl;
      unfold count; simpl; lia. }
  rewrite Hcount. split; [lia|]. split.
  - intros e [He | He]%elem_of_app Hd.
    { destruct (HQ e He). congruence. }
    exists (k - 1)%nat, tx, account.
    split; [unfold Solana_maxRetries in *; lia|].
    repeat (split; [done|]).
    destruct Hshape as [-> | [_ ->]].
    + by apply list_elem_of_singleton in He.
    + apply elem_of_cons in He as [-> | He]; [done|].
      apply list_elem_of_singleton in He. by subst e.
  - intros [He | He]%elem_of_app.
    { by destruct (HQ _ He). }
    destruct Hshape as [-> | [Hstore ->]].
    + by apply list_elem_of_singleton in He.
    + done.
Qed.

Lemma trackTransactionSignature_bounded_witness :
  count is_getTransaction
    (events_since world0
       (trackTransactionSignature track_env "Sig9" wallet_w1 "Addr1" world0).2)
  = 3%nat.
Proof.
  refine (proj1 (proj2 (proj2 (proj2
            (trackTransactionSignature_bounded
               track_env "Sig9" wallet_w1 "Addr1" world0))))
            2%nat _ _ eq_refl _).
  - unfold Solana_maxRetries. lia.
  - intros i tx' Hi. destruct i as [|[|i]]; [done | done | lia].
Defined.

(** * SolanaService: transaction history and its cache *)

Lemma differenceInMinutes_fresh now now' :
  (now ≤ now' < now + cacheExpiration * 60 * 1000)%Z →
  (differenceInMinutes now' now <? cacheExpiration)%Z = true.
Proof.
  unfold differenceInMinutes, cacheExpiration. intros H.
  apply Z.ltb_lt. apply Z.quot_lt_upper_bound; lia.
Qed.

Lemma fetchSolanaTransactions_failure env address :
  (∃ m, c_PublicKey env = Throw m) ∨
  (∃ m, c_getSignaturesForAddress env = Throw m) ∨
  (∃ signatures m,
     c_getSignaturesForAddress env = Ok signatures ∧
     Promise_all (c_getTransaction env <$> signatures) = Throw m) →
  (fetchSolanaTransactions env address).1 = [].
Proof.
  unfold fetchSolanaTransactions.
  intros [(m & ->) | [(m & ->) | (signatures & m & -> & ->)]];
    [done | by destruct (c_PublicKey env) | by destruct (c_PublicKey env)].
Qed.

(** X15. [SolanaService.fetchTransactions] answers from its cache for
    thirty minutes. Once a call that missed the cache has stored its
    result, every call for the same address within the next thirty
    minutes returns that same list without sending a request to the node,
    whatever the node would answer then. The stored result of a call
    whose requests failed (an address that does not parse, a failing
    [getSignaturesForAddress], one failing [getTransaction]) is the empty
    list: the failure is not reported, and the empty history is what is
    served until the entry expires. *)
Theorem Solana_fetchTransactions_cached env now address redis :
  let cacheKey := "wallet:" +:+ address +:+ ":transactions:sol" in
  let run := Solana_fetchTransactions env now address redis in
  getCachedData env now cacheKey redis = Ok None →
  c_redis_setex env = Ok tt →
  ∃ parsed,
    run.1.1 = Ok parsed ∧
    parsed = parseSolanaTransactions now
               (fetchSolanaTransactions env address).1 address ∧
    (∀ env' now',
       c_redis_get env' = Ok tt →
       (now ≤ now' < now + cacheExpiration * 60 * 1000)%Z →
       Solana_fetchTransactions env' now' address run.1.2
       = (Ok parsed, run.1.2, [])) ∧
    ((∃ m, c_PublicKey env = Throw m) ∨
     (∃ m, c_getSignaturesForAddress env = Throw m) ∨
     (∃ signatures m,
        c_getSignaturesForAddress env = Ok signatures ∧
        Promise_all (c_getTransaction env <$> signatures) = Throw m) →
     parsed = []).
Proof.
  intros cacheKey run Hmiss Hsetex. subst run.
  unfold Solana_fetchTransactions. fold cacheKey. rewrite Hmiss, Hsetex.
  destruct (fetchSolanaTransactions env address) as [raw requests] eqn:Hfetch.
  cbn [fst snd].
  exists (parseSolanaTransactions now raw address).
  split; [done|]. split; [done|]. split.
  - intros env' now' Hget Hnow'.
    unfold getCachedData. rewrite Hget, lookup_insert_eq. cbn [ce_expires
      ce_value cd_timestamp cd_transactions].
    rewrite (differenceInMinutes_fresh now now' Hnow').
    assert (Hexp : (now' <? now + cacheExpiration * 60 * 1000)%Z = true)
      by (apply Z.ltb_lt; lia).
    by rewrite Hexp.
  - intros Hfail. pose proof (fetchSolanaTransactions_failure env address Hfail)
      as Hnil. rewrite Hfetch in Hnil. simpl in Hnil. by subst raw.
Qed.

Lemma Solana_fetchTransactions_cached_witness :
  let run := Solana_fetchTransactions cache_env_down 1000 "Addr1" ∅ in
  ∃ parsed,
    run.1.1 = Ok parsed ∧
    Solana_fetchTransactions cache_env_down 1799999 "Addr1" run.1.2
    = (Ok parsed, run.1.2, []) ∧
    parsed = [].
Proof.
  assert (Hmiss : getCachedData cache_env_down 1000
                    ("wallet:" +:+ "Addr1" +:+ ":transactions:sol") ∅
                  = Ok None).
  { unfold getCachedData. simpl. by rewrite lookup_empty. }
  destruct (Solana_fetchTransactions_cached cache_env_down 1000 "Addr1" ∅
              Hmiss eq_refl) as (parsed & Hrun & _ & Hhit & Hdown).
  exists parsed. split; [exact Hrun|]. split.
  - apply Hhit; [reflexivity | unfold cacheExpiration; lia].
  - apply Hdown. right. left. by exists "fetch failed".
Defined.

(** * MoneroService: the poll chains of the deposit monitor *)

Lemma quiet_app a b : quiet a → quiet b → quiet (a ++ b).
Proof. intros. by apply Forall_app. Qed.

Lemma processMoneroTransaction_quiet env hash wallet w r w' :
  processMoneroTransaction env hash wallet w = (r, w') →
  ∃ b evs, r = Ok b ∧ trace w' = trace w ++ evs ∧ quiet evs.
Proof.
  unfold processMoneroTransaction. munfold.
  assert (H0 : ∀ (b : bool) (w0 : World), trace w0 = trace w →
    (Ok b, w0) = (r, w') →
    ∃ b' evs, r = Ok b' ∧ trace w' = trace w ++ evs ∧ quiet evs).
  { intros b w0 Htr [= <- <-]. exists b, []. rewrite app_nil_r.
    split; [done|]. split; [done | constructor]. }
  assert (H1 : ∀ (b : bool) (w0 : World),
    trace w0 = trace w ++ [EvChain "XMR" "get_transfer_by_txid"] →
    (Ok b, w0) = (r, w') →
    ∃ b' evs, r = Ok b' ∧ trace w' = trace w ++ evs ∧ quiet evs).
  { intros b w0 Htr [= <- <-]. exists b, [EvChain "XMR" "get_transfer_by_txid"].
    split; [done|]. split; [done | by repeat constructor]. }
  assert (H2 : ∀ (b : bool) (w0 : World) a1 a2 a3 a4 a5,
    trace w0 = trace w ++ [EvChain "XMR" "get_transfer_by_txid";
                           EvDeposit a1 a2 a3 a4 a5] →
    (Ok b, w0) = (r, w') →
    ∃ b' evs, r = Ok b' ∧ trace w' = trace w ++ evs ∧ quiet evs).
  { intros b w0 a1 a2 a3 a4 a5 Htr [= <- <-].
    exists b, [EvChain "XMR" "get_transfer_by_txid"; EvDeposit a1 a2 a3 a4 a5].
    split; [done|]. split; [done | by repeat constructor]. }
  destruct (bool_decide (hash ∈ processedTransactions w)); simpl;
    [by apply H0|].
  destruct (bool_decide (completed_with_reference hash (transactions w)));
    simpl; [by apply H0|].
  destruct (dep_get_transfer_by_txid env) as [[transfer|]|m]; simpl;
    try (by apply H1).
  destruct (dep_address env) as [address|m]; simpl; [|by apply H1].
  unfold amount_or_null.
  destruct (transfer_amount transfer =? 0)%Z; simpl; [by apply H1|].
  destruct (transfer_fee transfer =? 0)%Z; simpl; [by apply H1|].
  unfold storeAndBroadcastTransaction. munfold.
  destruct (dep_store env) as [newId | m | newId m]; simpl;
    try (by apply H1).
  - destruct (bool_decide (is_Some (transactions w !! newId))); simpl;
      [by apply H1|].
    eapply H2. simpl. by rewrite <- app_assoc.
  - destruct (bool_decide (is_Some (transactions w !! newId))); simpl;
      [by apply H1|].
    eapply H2. simpl. by rewrite <- app_assoc.
Qed.

Lemma unmonitored_has walletId monitored :
  monitored_has walletId (unmonitorMoneroDeposits walletId monitored) = false.
Proof.
  unfold monitored_has, unmonitorMoneroDeposits.
  induction monitored as [|x l IHl]; [done|]. simpl.
  destruct (w_id x =? walletId)%string eqn:Hx; simpl; [done|].
  by rewrite Hx.
Qed.

Lemma forTransfers_quiet env wallet transfers monitored w r w' :
  forTransfers env wallet transfers monitored w = (r, w') →
  ∃ monitored' evs,
    r = Ok monitored' ∧ trace w' = trace w ++ evs ∧ quiet evs ∧
    (monitored_has (w_id wallet) monitored = false →
     monitored_has (w_id wallet) monitored' = false).
Proof.
  revert monitored w. induction transfers as [|tx rest IH]; intros monitored w.
  { intros [= <- <-]. exists monitored, []. rewrite app_nil_r.
    split; [done|]. split; [done|]. split; [constructor | done]. }
  simpl. unfold pollTransfer.
  unfold mbind at 1, M_bind at 1, bind at 1.
  unfold mbind at 1, M_bind at 1, bind at 1, gets at 1.
  destruct (bool_decide (txid tx ∈ processedTransactions w)).
  { apply IH. }
  destruct (minConfirmations <=? confirmations tx)%Z.
  2:{ apply IH. }
  unfold mbind at 1, M_bind at 1, bind at 1.
  destruct (processMoneroTransaction (poll_deposit env (txid tx))
              (txid tx) wallet w) as [r1 w1] eqn:Hrun1.
  destruct (processMoneroTransaction_quiet _ _ _ _ _ _ Hrun1)
    as (b & evs1 & -> & Htr1 & Hq1).
  destruct b; unfold mret at 1, M_ret at 1, ret at 1; intros Hrun2;
    destruct (IH _ _ Hrun2) as (m' & evs2 & -> & Htr2 & Hq2 & Hkeep);
    exists m', (evs1 ++ evs2);
    (split; [done|]); (split; [by rewrite Htr2, Htr1, app_assoc|]);
    (split; [by apply quiet_app|]).
  - intros _. apply Hkeep, unmonitored_has.
  - done.
Qed.

(** One poll: it never raises; it asks for the transfers once; when that
    request fails nothing else happens; otherwise the wallet is closed,
    the counter goes up by one, and the poll is rescheduled only below
    the budget and while the wallet is monitored. *)
Lemma checkWalletForDeposits_run env wallet n monitored w r w' :
  checkWalletForDeposits env wallet n monitored w = (r, w') →
  ∃ outcome n' monitored' evs,
    r = Ok (outcome, n', monitored') ∧
    trace w' = trace w ++ evs ∧
    count is_get_transfers evs = 1%nat ∧
    match poll_get_transfers env with
    | Throw _ =>
        outcome = Ended ∧ n' = n ∧ monitored' = monitored ∧
        count is_close_wallet evs = 0%nat
    | Ok _ =>
        n' = S n ∧ count is_close_wallet evs = 1%nat ∧
        (outcome = Rescheduled →
         (S n < Monero_maxRetries)%nat ∧
         monitored_has (w_id wallet) monitored' = true) ∧
        ((Monero_maxRetries ≤ S n)%nat →
         outcome = Ended ∧ monitored_has (w_id wallet) monitored' = false)
    end.
Proof.
  unfold checkWalletForDeposits.
  unfold try_catch, mbind, M_bind, bind. rewrite openWallet_run.
  unfold modify, external. cbn -[Nat.ltb Nat.leb Monero_maxRetries].
  destruct (poll_get_transfers env) as [transfers|m];
    cbn -[Nat.ltb Nat.leb Monero_maxRetries].
  2:{ unfold mret, M_ret, ret. intros [= <- <-].
      exists Ended, n, monitored,
        [EvChain "XMR" "open_wallet"; EvChain "XMR" "get_transfers"].
      split; [done|].
      split; [unfold emit, emits; simpl; by rewrite <- ?app_assoc|].
      by repeat split. }
  set (w1 := emit (EvChain "XMR" "get_transfers")
               (emits [EvChain "XMR" "open_wallet"] w)).
  destruct (forTransfers env wallet transfers monitored w1) as [r1 w2] eqn:Hfor.
  destruct (forTransfers_quiet _ _ _ _ _ _ _ Hfor)
    as (monitored' & evs & -> & Htr & Hq & _).
  rewrite closeWallet_run.
  set (evs' := [EvChain "XMR" "open_wallet"; EvChain "XMR" "get_transfers"]
               ++ evs ++ [EvChain "XMR" "close_wallet"]).
  assert (Htr' : trace (emits [EvChain "XMR" "close_wallet"] w2)
                 = trace w ++ evs').
  { simpl. rewrite Htr. unfold w1, evs'. simpl. by rewrite <- !app_assoc. }
  assert (Hq0 : count is_get_transfers evs = 0%nat ∧
                count is_close_wallet evs = 0%nat).
  { split; apply count_none; (eapply Forall_impl; [exact Hq|]);
      by intros e [? ?]. }
  destruct Hq0 as [Hg Hc].
  assert (Hg' : count is_get_transfers evs' = 1%nat).
  { unfold evs'. rewrite !count_app, Hg. reflexivity. }
  assert (Hc' : count is_close_wallet evs' = 1%nat).
  { unfold evs'. rewrite !count_app, Hc. reflexivity. }
  destruct (S n <? Monero_maxRetries)%nat eqn:Hlt; cbn [andb].
  - apply Nat.ltb_lt in Hlt.
    destruct (monitored_has (w_id wallet) monitored') eqn:Hhas; cbn [andb].
    + unfold mret, M_ret, ret. intros [= <- <-].
      exists Rescheduled, (S n), monitored', evs'.
      repeat (split; [done|]). intros; lia.
    + assert (Hle : (Monero_maxRetries <=? S n)%nat = false)
        by (apply Nat.leb_gt; lia).
      rewrite Hle. unfold mret, M_ret, ret. intros [= <- <-].
      exists Ended, (S n), monitored', evs'.
      repeat (split; [done|]). intros; lia.
  - apply Nat.ltb_ge in Hlt.
    assert (Hle : (Monero_maxRetries <=? S n)%nat = true)
      by (apply Nat.leb_le; lia).
    rewrite Hle. unfold mret, M_ret, ret. intros [= <- <-].
    exists Ended, (S n), (unmonitorMoneroDeposits (w_id wallet) monitored'),
      evs'.
    repeat (split; [done|]). apply unmonitored_has.
Qed.

Lemma pollChain_run envs wallet remaining n monitored w r w' :
  (n + remaining = Monero_maxRetries)%nat →
  pollChain envs wallet remaining n monitored w = (r, w') →
  ∃ n' monitored' evs,
    r = Ok (n', monitored') ∧
    trace w' = trace w ++ evs ∧
    (n ≤ n' ≤ Monero_maxRetries)%nat ∧
    count is_close_wallet evs = (n' - n)%nat ∧
    (count is_get_transfers evs = (n' - n)%nat ∨
     (count is_get_transfers evs = S (n' - n) ∧
      (n' < Monero_maxRetries)%nat ∧
      ∃ m, poll_get_transfers (envs n') = Throw m)) ∧
    ((n < n')%nat → n' = Monero_maxRetries →
     monitored_has (w_id wallet) monitored' = false).
Proof.
  revert n monitored w. induction remaining as [|rem IH];
    intros n monitored w Hn.
  { simpl. unfold mret, M_ret, ret. intros [= <- <-].
    exists n, monitored, []. rewrite app_nil_r, Nat.sub_diag.
    split; [done|]. split; [done|]. split; [lia|]. split; [done|].
    split; [by left | lia]. }
  simpl. unfold mbind at 1, M_bind at 1, bind at 1.
  destruct (checkWalletForDeposits (envs n) wallet n monitored w)
    as [r1 w1] eqn:Hpoll.
  destruct (checkWalletForDeposits_run _ _ _ _ _ _ _ Hpoll)
    as (outcome & n1 & m1 & evs1 & -> & Htr1 & Hg1 & Hcase).
  destruct (poll_get_transfers (envs n)) as [transfers|m] eqn:Hget.
  2:{ destruct Hcase as (-> & -> & -> & Hc1).
      unfold mret, M_ret, ret. intros [= <- <-].
      exists n, monitored, evs1. rewrite Nat.sub_diag.
      split; [done|]. split; [done|]. split; [lia|]. split; [done|].
      split; [|lia]. right. split; [done|]. split; [lia|]. by exists m. }
  destruct Hcase as (-> & Hc1 & Hres & Hend).
  destruct outcome.
  - destruct (Hres eq_refl) as [Hlt Hhas]. intros Hrun.
    destruct (IH (S n) m1 w1 ltac:(lia) Hrun)
      as (n' & m' & evs2 & -> & Htr2 & Hn' & Hc2 & Hg2 & Hlast).
    exists n', m', (evs1 ++ evs2).
    split; [done|]. split; [by rewrite Htr2, Htr1, app_assoc|].
    split; [lia|]. rewrite !count_app, Hc1, Hg1, Hc2.
    split; [lia|]. split.
    + destruct Hg2 as [-> | (-> & Hlt' & Hm)]; [left; lia|].
      right. split; [lia|]. by split.
    + intros _ Heq. destruct (decide (S n < n')%nat) as [Hs|Hs];
        [by apply Hlast|]. unfold Monero_maxRetries in *. lia.
  - unfold mret, M_ret, ret. intros [= <- <-].
    exists (S n), m1, evs1.
    split; [done|]. split; [done|]. split; [lia|].
    rewrite Hc1, Hg1. split; [lia|]. split; [left; lia|].
    intros _ Heq. apply Hend. lia.
Qed.

Lemma bind_congr {A B} (m : M A) (k1 k2 : A → M B) w :
  (∀ a w', m w = (Ok a, w') → k1 a w' = k2 a w') →
  bind m k1 w = bind m k2 w.
Proof.
  intros H. unfold bind. destruct (m w) as [[a|e] w'] eqn:Hm; [|done].
  by apply H.
Qed.

Lemma pollChain_fuel envs wallet extra remaining n monitored w :
  (n < Monero_maxRetries)%nat → (Monero_maxRetries ≤ n + S remaining)%nat →
  pollChain envs wallet (S remaining + extra) n monitored w
  = pollChain envs wallet (S remaining) n monitored w.
Proof.
  revert n monitored w. induction remaining as [|rem IH];
    intros n monitored w Hlt Hge.
  - change (1 + extra)%nat with (S extra). cbn [pollChain].
    apply bind_congr. intros [[outcome n1] m1] w1 Hpoll.
    destruct (checkWalletForDeposits_run _ _ _ _ _ _ _ Hpoll)
      as (outcome' & n1' & m1' & evs1 & [= <- <- <-] & _ & _ & Hcase).
    destruct outcome; [|done]. exfalso.
    destruct (poll_get_transfers (envs n)); [|by destruct Hcase].
    destruct Hcase as (_ & _ & Hres & _). destruct (Hres eq_refl). lia.
  - change (S (S rem) + extra)%nat with (S (S rem + extra)).
    cbn [pollChain]. apply bind_congr. intros [[outcome n1] m1] w1 Hpoll.
    destruct (checkWalletForDeposits_run _ _ _ _ _ _ _ Hpoll)
      as (outcome' & n1' & m1' & evs1 & [= <- <- <-] & _ & _ & Hcase).
    destruct outcome; [|done].
    destruct (poll_get_transfers (envs n)); [|by destruct Hcase].
    destruct Hcase as (-> & _ & Hres & _). destruct (Hres eq_refl) as [Hlt' _].
    apply (IH (S n) m1 w1); lia.
Qed.

(** X16. A chain of polls of the Monero deposit monitor never raises and
    makes at most sixty polls: every poll that was not cut short by its
    [get_transfers] request has closed the wallet and counted one retry;
    the chain that reaches sixty retries removes the wallet from the
    monitored map. A poll whose [get_transfers] request fails is the last
    of its chain: it neither closes the wallet nor reschedules itself,
    and it leaves the map as it was. (The bound is not that of the
    recursion: a longer [remaining] gives the same run.) *)
Theorem pollChain_budget envs wallet monitored w :
  let run := pollChain envs wallet Monero_maxRetries 0 monitored w in
  let evs := events_since w run.2 in
  (∃ retryCount monitored',
     run.1 = Ok (retryCount, monitored') ∧
     (retryCount ≤ Monero_maxRetries)%nat ∧
     count is_close_wallet evs = retryCount ∧
     (count is_get_transfers evs = retryCount ∨
      (count is_get_transfers evs = S retryCount ∧
       (retryCount < Monero_maxRetries)%nat ∧
       ∃ m, poll_get_transfers (envs retryCount) = Throw m)) ∧
     (retryCount = Monero_maxRetries →
      monitored_has (w_id wallet) monitored' = false)) ∧
  (count is_get_transfers evs ≤ Monero_maxRetries)%nat ∧
  (∀ extra,
     pollChain envs wallet (Monero_maxRetries + extra) 0 monitored w = run) ∧
  (∀ env n m,
     poll_get_transfers env = Throw m →
     checkWalletForDeposits env wallet n monitored w
     = (Ok (Ended, n, monitored),
        emits [EvChain "XMR" "open_wallet"; EvChain "XMR" "get_transfers"] w)).
Proof.
  intros run evs.
  destruct (pollChain envs wallet Monero_maxRetries 0 monitored w)
    as [r w'] eqn:Hrun.
  destruct (pollChain_run envs wallet Monero_maxRetries 0 monitored w r w'
              eq_refl Hrun)
    as (n' & m' & evs0 & -> & Htr & Hn' & Hc & Hg & Hlast).
  subst run evs. cbn [fst snd]. rewrite (events_since_app _ _ _ Htr).
  rewrite Nat.sub_0_r in *.
  split; [|split; [|split]].
  - exists n', m'. split; [done|]. split; [lia|]. split; [done|].
    split; [done|]. intros Heq. apply Hlast; [|done].
    unfold Monero_maxRetries in *. lia.
  - destruct Hg as [-> | (-> & Hlt & _)]; lia.
  - intros extra. rewrite <- Hrun.
    apply (pollChain_fuel envs wallet extra 59 0 monitored w);
      unfold Monero_maxRetries; lia.
  - intros env n m Hm. unfold checkWalletForDeposits.
    unfold try_catch, mbind, M_bind, bind. rewrite openWallet_run.
    unfold modify, external. simpl. rewrite Hm. simpl.
    unfold mret, M_ret, ret, emit. by rewrite emits_emits.
Qed.

Lemma pollChain_budget_witness :
  (count is_get_transfers
     (events_since world0
        (pollChain (fun _ => poll_env_quiet) wallet_w2 Monero_maxRetries 0
           [wallet_w2] world0).2) ≤ Monero_maxRetries)%nat ∧
  checkWalletForDeposits
    {| poll_monero := monero_ok; poll_get_transfers := Throw "fetch failed";
       poll_deposit := fun _ => deposit_env |} wallet_w2 3 [wallet_w2] world0
  = (Ok (Ended, 3%nat, [wallet_w2]),
     emits [EvChain "XMR" "open_wallet"; EvChain "XMR" "get_transfers"] world0).
Proof.
  split.
  - apply (proj1 (proj2 (pollChain_budget (fun _ => poll_env_quiet) wallet_w2
                           [wallet_w2] world0))).
  - apply (proj2 (proj2 (proj2 (pollChain_budget (fun _ => poll_env_quiet)
                                  wallet_w2 [wallet_w2] world0)))
             _ 3%nat "fetch failed").
    reflexivity.
Defined.

Lemma monitored_has_app walletId a b :
  monitored_has walletId (a ++ b)
  = monitored_has walletId a || monitored_has walletId b.
Proof. unfold monitored_has. apply existsb_app. Qed.

Lemma monitor_each_run wallets monitored :
  NoDup (w_id <$> wallets) →
  (∀ wallet, wallet ∈ wallets →
             monitored_has (w_id wallet) monitored = false) →
  (monitor_each wallets monitored).1 = monitored ++ wallets ∧
  (2 * List.length (monitor_each wallets monitored).2
   = List.length wallets
     * (2 * List.length monitored + List.length wallets + 1))%nat.
Proof.
  revert monitored. induction wallets as [|wallet rest IH];
    intros monitored Hnd Hnew.
  { simpl. by rewrite app_nil_r. }
  rewrite fmap_cons in Hnd. apply NoDup_cons in Hnd as [Hhead Hnd].
  simpl. unfold monitorMoneroDeposits.
  rewrite (Hnew wallet) by apply list_elem_of_here.
  destruct (IH (monitored ++ [wallet]) Hnd) as [Hm Hs].
  { intros wl Hwl. rewrite monitored_has_app.
    rewrite (Hnew wl) by (by apply list_elem_of_further). simpl.
    rewrite orb_false_r.
    destruct (w_id wallet =? w_id wl)%string eqn:Heq; [|done].
    apply String.eqb_eq in Heq. exfalso. apply Hhead. rewrite Heq.
    by apply list_elem_of_fmap_2. }
  destruct (monitor_each rest (monitored ++ [wallet])) as [m2 s2].
  simpl in *. split; [by rewrite Hm, <- app_assoc|].
  rewrite !length_app in *. simpl in *. nia.
Qed.

(** X17. [monitorMoneroDeposits] for a wallet that is already in the
    monitored map changes nothing and starts no poll - also when that
    wallet's chain of polls has ended. For a new wallet it starts a chain
    of polls for every wallet in the map, not only for the new one: as
    long as no wallet leaves the map, registering [n] wallets one after
    the other starts [n (n + 1) / 2] chains. *)
Theorem monitoring_restarts_every_chain wallets :
  NoDup (w_id <$> wallets) →
  (monitor_each wallets []).1 = wallets ∧
  (2 * List.length (monitor_each wallets []).2
   = List.length wallets * (List.length wallets + 1))%nat ∧
  (∀ wallet monitored,
     monitored_has (w_id wallet) monitored = true →
     monitorMoneroDeposits wallet monitored = (monitored, [])) ∧
  (∀ wallet monitored,
     monitored_has (w_id wallet) monitored = false →
     monitorMoneroDeposits wallet monitored
     = (monitored ++ [wallet], monitored ++ [wallet])).
Proof.
  intros Hnd. destruct (monitor_each_run wallets [] Hnd) as [Hm Hs]; [done|].
  split; [done|]. split; [simpl in Hs; lia|].
  split; intros wallet monitored Hhas; unfold monitorMoneroDeposits;
    by rewrite Hhas.
Qed.

Lemma monitoring_restarts_every_chain_witness :
  List.length (monitor_each [wallet_w1; wallet_w2] []).2 = 3%nat.
Proof.
  assert (Hnd : NoDup (w_id <$> [wallet_w1; wallet_w2])).
  { apply (bool_decide_unpack _). by vm_compute. }
  pose proof (proj1 (proj2 (monitoring_restarts_every_chain
                              [wallet_w1; wallet_w2] Hnd))) as H.
  simpl in H. simpl. lia.
Defined.

(** * MoneroService: the queue of wallet operations *)

Lemma runOp_inactive env operation w :
  q_chainActive env = false → is_main_op operation = true →
  ∃ message, runOp env operation w = (Throw message, w).
Proof.
  intros Hoff Hmain. destruct operation; try discriminate Hmain;
    unfold runOp, queue_ensureChainActive; rewrite Hoff;
    by eexists.
Qed.

Lemma processQueue_inactive env operation fuel w :
  q_chainActive env = false → is_main_op operation = true →
  processQueue (S fuel) env [operation] w
  = (Ok ([(operation, NotSettled)], []), w).
Proof.
  intros Hoff Hmain. cbn [processQueue].
  unfold mbind at 1, M_bind at 1, bind at 1, try_catch at 1.
  destruct (runOp_inactive env operation w Hoff Hmain) as (m & ->).
  unfold mret at 1, M_ret at 1, ret at 1. cbn [app].
  by destruct fuel.
Qed.

Lemma queued_inactive env operation w :
  q_chainActive env = false → is_main_op operation = true →
  queued env operation w = (Ok NotSettled, w).
Proof.
  intros Hoff Hmain. unfold queued. unfold mbind, M_bind, bind.
  by rewrite processQueue_inactive.
Qed.

(** X18. On a chain that the startup probe found inactive, [createWallet],
    [getBalance] and [transferXMR] send nothing to the wallet daemon, not
    even [close_wallet], and the promise they return is neither resolved
    nor rejected: the operation raises in [ensureChainActive], outside
    its [try] block, and [processQueue] only logs that error. *)
Theorem queued_operation_hangs_on_inactive_chain env operation w :
  q_chainActive env = false → is_main_op operation = true →
  queued env operation w = (Ok NotSettled, w) ∧
  (∀ fuel, processQueue (S fuel) env [operation] w
           = (Ok ([(operation, NotSettled)], []), w)).
Proof.
  intros Hoff Hmain. split; [by apply queued_inactive|].
  intros fuel. by apply processQueue_inactive.
Qed.

Lemma queued_operation_hangs_on_inactive_chain_witness :
  transferXMR (queue_env false) "w2" "Addr2" (1 # 2) world0
  = (Ok NotSettled, world0).
Proof.
  apply (proj1 (queued_operation_hangs_on_inactive_chain (queue_env false)
                  (OpTransferXMR "w2" "Addr2" (1 # 2)) world0
                  eq_refl eq_refl)).
Defined.

Lemma processQueue_cons fuel env operation rest w :
  processQueue (S fuel) env (operation :: rest) w
  = match try_catch (runOp env operation)
            (fun _ => mret (NotSettled, [])) w with
    | (Ok (settled, pushed), w1) =>
        match processQueue fuel env (rest ++ pushed) w1 with
        | (Ok (ran, waiting), w2) =>
            (Ok ((operation, settled) :: ran, waiting), w2)
        | (Throw e, w2) => (Throw e, w2)
        end
    | (Throw e, w1) => (Throw e, w1)
    end.
Proof.
  cbn [processQueue]. unfold mbind, M_bind, bind.
  destruct (try_catch (runOp env operation) (fun _ => mret (NotSettled, [])) w)
    as [[[settled pushed]|e] w1]; [|done].
  by destruct (processQueue fuel env (rest ++ pushed) w1)
    as [[[ran waiting]|e] w2].
Qed.

Lemma runOp_close env w :
  try_catch (runOp env OpCloseWallet) (fun _ => mret (NotSettled, [])) w
  = (Ok (NotSettled, []), emits [EvChain "XMR" "close_wallet"] w).
Proof.
  unfold runOp. munfold.
  destruct (q_close_wallet env) as [[[e|] h]|m]; reflexivity.
Qed.

(** An operation on an active chain: it sends at least one request, none
    of them [close_wallet], and pushes the close operation. *)
Lemma runOp_active env operation w :
  q_chainActive env = true → is_main_op operation = true →
  ∃ settled evs,
    try_catch (runOp env operation) (fun _ => mret (NotSettled, [])) w
    = (Ok (settled, [OpCloseWallet]), emits evs w) ∧
    count is_close_wallet evs = 0%nat ∧ evs ≠ [].
Proof.
  intros Hon Hmain.
  assert (Hleaf : ∀ (settled : Settlement) (evs : list Event),
    count is_close_wallet evs = 0%nat → evs ≠ [] →
    ∃ settled' evs',
      ((Ok (settled, [OpCloseWallet]), emits evs w)
       : Result (Settlement * list QueuedOp) * World)
      = (Ok (settled', [OpCloseWallet]), emits evs' w) ∧
      count is_close_wallet evs' = 0%nat ∧ evs' ≠ []).
  { intros settled evs ? ?. by exists settled, evs. }
  destruct operation as [name | name | name dest amount |];
    try discriminate Hmain;
    unfold runOp, queue_ensureChainActive; rewrite Hon; munfold; simpl.
  - destruct (q_create_wallet env) as [[json|]|m]; simpl;
      [by apply (Hleaf _ [_]) | | by apply (Hleaf _ [_])].
    destruct (q_get_address env) as [[a|]|m]; simpl;
      [| unfold emit; rewrite emits_emits; by apply (Hleaf _ [_; _])
       | unfold emit; rewrite emits_emits; by apply (Hleaf _ [_; _])].
    destruct (q_query_key env) as [[k|]|m]; simpl;
      unfold emit; rewrite !emits_emits; by apply (Hleaf _ [_; _; _]).
  - destruct (q_open_wallet env) as [[res err]|m]; simpl;
      [|by apply (Hleaf _ [_])].
    destruct (res || negb (bool_decide (is_Some err))); simpl;
      [|by apply (Hleaf _ [_])].
    destruct (q_get_balance env) as [[b|]|m]; simpl;
      [destruct (0 <=? b)%Z; simpl| |];
      unfold emit; rewrite emits_emits; by apply (Hleaf _ [_; _]).
  - destruct (q_open_wallet env) as [[res err]|m]; simpl;
      [|by apply (Hleaf _ [_])].
    destruct res; simpl; [|by apply (Hleaf _ [_])].
    destruct (q_transfer env) as [[[h|] json]|m]; simpl;
      [destruct (truthy h); simpl| |];
      unfold emit; rewrite emits_emits; by apply (Hleaf _ [_; _]).
Qed.

Lemma processQueue_closes env k fuel w :
  (k ≤ fuel)%nat →
  ∃ ran,
    processQueue fuel env (replicate k OpCloseWallet) w
    = (Ok (ran, []),
       emits (replicate k (EvChain "XMR" "close_wallet")) w) ∧
    ran.*1 = replicate k OpCloseWallet.
Proof.
  revert fuel w. induction k as [|k IH]; intros fuel w Hk.
  { exists []. simpl. rewrite emits_nil. by destruct fuel. }
  destruct fuel as [|fuel]; [lia|].
  cbn [replicate]. rewrite processQueue_cons, runOp_close, app_nil_r.
  destruct (IH fuel (emits [EvChain "XMR" "close_wallet"] w) ltac:(lia))
    as (ran & -> & Hran).
  exists ((OpCloseWallet, NotSettled) :: ran). rewrite emits_emits.
  split; [done|]. rewrite fmap_cons. cbn [fst replicate]. by rewrite Hran.
Qed.

Lemma processQueue_deferred env operations k fuel w :
  q_chainActive env = true →
  Forall (fun operation => is_main_op operation = true) operations →
  (2 * List.length operations + k ≤ fuel)%nat →
  ∃ ran before,
    processQueue fuel env (operations ++ replicate k OpCloseWallet) w
    = (Ok (ran, []),
       emits (before ++ replicate (List.length operations + k)
                          (EvChain "XMR" "close_wallet")) w) ∧
    count is_close_wallet before = 0%nat ∧
    (List.length operations ≤ List.length before)%nat ∧
    ran.*1 = operations
             ++ replicate (List.length operations + k) OpCloseWallet.
Proof.
  intros Hon. revert k fuel w.
  induction operations as [|operation rest IH]; intros k fuel w Hmain Hfuel.
  { destruct (processQueue_closes env k fuel w ltac:(simpl in *; lia))
      as (ran & Hrun & Hran).
    exists ran, []. simpl. split; [done|]. by repeat split. }
  apply Forall_cons in Hmain as [Hop Hmain].
  destruct fuel as [|fuel]; [simpl in *; lia|].
  rewrite <- app_comm_cons, processQueue_cons.
  destruct (runOp_active env operation w Hon Hop) as (settled & evs & -> & Hc & Hne).
  rewrite <- app_assoc.
  change [OpCloseWallet] with (replicate 1 OpCloseWallet).
  rewrite <- replicate_add.
  destruct (IH (k + 1)%nat fuel (emits evs w) Hmain ltac:(simpl in *; lia))
    as (ran & before & -> & Hb & Hlen & Hran).
  exists ((operation, settled) :: ran), (evs ++ before).
  rewrite emits_emits, <- app_assoc.
  replace (List.length rest + (k + 1))%nat
    with (List.length (operation :: rest) + k)%nat in * by (simpl; lia).
  split; [done|]. split; [by rewrite count_app, Hc, Hb|].
  split.
  { rewrite length_app. simpl. destruct evs; [done | simpl; lia]. }
  rewrite fmap_cons. cbn [fst]. by rewrite Hran.
Qed.

(** X19. [processQueue] runs the waiting operations in the order in which
    they were queued, and the [close_wallet] that each of them asks for
    in its [finally] block is queued behind all of them: on an active
    chain, with [n] operations waiting, no [close_wallet] is sent before
    every operation has run, and [n] of them are sent at the end; the
    errors of the close operations are dropped. The loop empties the
    queue and never raises. *)
Theorem close_wallet_is_deferred env operations fuel w :
  q_chainActive env = true →
  Forall (fun operation => is_main_op operation = true) operations →
  (2 * List.length operations ≤ fuel)%nat →
  ∃ ran before,
    processQueue fuel env operations w
    = (Ok (ran, []),
       emits (before ++ replicate (List.length operations)
                          (EvChain "XMR" "close_wallet")) w) ∧
    count is_close_wallet before = 0%nat ∧
    (List.length operations ≤ List.length before)%nat ∧
    ran.*1 = operations
             ++ replicate (List.length operations) OpCloseWallet.
Proof.
  intros Hon Hmain Hfuel.
  destruct (processQueue_deferred env operations 0 fuel w Hon Hmain
              ltac:(lia)) as (ran & before & Hrun & Hb & Hlen & Hran).
  simpl in Hrun. rewrite app_nil_r, Nat.add_0_r in *.
  by exists ran, before.
Qed.

Lemma close_wallet_is_deferred_witness :
  ∃ ran before,
    processQueue 4 (queue_env true)
      [OpGetBalance "w1"; OpTransferXMR "w2" "Addr2" (1 # 2)] world0
    = (Ok (ran, []),
       emits (before ++ replicate 2 (EvChain "XMR" "close_wallet")) world0) ∧
    count is_close_wallet before = 0%nat ∧
    (2 ≤ List.length before)%nat ∧
    ran.*1 = [OpGetBalance "w1"; OpTransferXMR "w2" "Addr2" (1 # 2)]
             ++ replicate 2 OpCloseWallet.
Proof.
  apply (close_wallet_is_deferred (queue_env true)
           [OpGetBalance "w1"; OpTransferXMR "w2" "Addr2" (1 # 2)] 4 world0).
  - reflexivity.
  - by repeat constructor.
  - simpl. lia.
Defined.

Lemma queued_run env operation settled evs w :
  try_catch (runOp env operation) (fun _ => mret (NotSettled, [])) w
  = (Ok (settled, [OpCloseWallet]), emits evs w) →
  queued env operation w
  = (Ok settled, emits (evs ++ [EvChain "XMR" "close_wallet"]) w).
Proof.
  intros Hop. unfold queued. unfold mbind, M_bind, bind.
  rewrite processQueue_cons, Hop. cbn [app].
  rewrite processQueue_cons, runOp_close. cbn [app processQueue].
  unfold mret, M_ret, ret. by rewrite emits_emits.
Qed.

(** X20. On an active chain, [transferXMR] always settles its promise and
    ends with [close_wallet]. It sends the [transfer] request only after
    an [open_wallet] response that carries a result - when the wallet
    cannot be opened nothing is transferred and the promise is rejected -
    and it resolves, with the hash, exactly when the transfer response
    carries a non-empty [tx_hash]. The amount sent is
    [Math.round(amountXMR * 1e12)]; the answer of [close_wallet] changes
    nothing. *)
Theorem transferXMR_settles env walletName destinationAddress amountXMR w :
  q_chainActive env = true →
  let run := transferXMR env walletName destinationAddress amountXMR w in
  let sent := EvTransfer "XMR" destinationAddress (toAtomicUnits amountXMR) in
  (∃ settled, run.1 = Ok settled ∧ settled ≠ NotSettled) ∧
  (run.2 = emits [EvChain "XMR" "open_wallet";
                  EvChain "XMR" "close_wallet"] w ∨
   run.2 = emits [EvChain "XMR" "open_wallet"; sent;
                  EvChain "XMR" "close_wallet"] w) ∧
  (sent ∈ events_since w run.2 ↔
   ∃ response, q_open_wallet env = Ok response ∧
               open_result response = true) ∧
  (∀ tx_hash,
     run.1 = Ok (Resolved (VHash tx_hash)) ↔
     (∃ response, q_open_wallet env = Ok response ∧
                  open_result response = true) ∧
     (∃ json, q_transfer env = Ok (Some tx_hash, json)) ∧
     truthy tx_hash = true).
Proof.
  intros Hon run sent. subst run. unfold transferXMR.
  assert (Hleaf : ∀ settled evs,
    try_catch (runOp env (OpTransferXMR walletName destinationAddress amountXMR))
      (fun _ => mret (NotSettled, [])) w
    = (Ok (settled, [OpCloseWallet]), emits evs w) →
    queued env (OpTransferXMR walletName destinationAddress amountXMR) w
    = (Ok settled, emits (evs ++ [EvChain "XMR" "close_wallet"]) w)).
  { intros settled evs. apply queued_run. }
  assert (Hnot : ∀ a b : list Event,
            sent ∈ events_since w (emits (a ++ b) w) ↔ sent ∈ a ++ b).
  { intros a b. by rewrite (events_since_app w (emits (a ++ b) w) _ eq_refl). }
  unfold runOp, queue_ensureChainActive in Hleaf. rewrite Hon in Hleaf.
  munfold. simpl in Hleaf.
  destruct (q_open_wallet env) as [[res err]|m] eqn:Hopen; simpl in Hleaf.
  2:{ rewrite (Hleaf _ [_] eq_refl). cbn [fst snd].
      split; [by eexists|]. split; [by left|]. split.
      - rewrite Hnot. split; [|by intros (? & [=] & _)].
        intros [[=] | [[=] | []%elem_of_nil]%elem_of_cons]%elem_of_cons.
      - intros h. split; [done | by intros [(? & [=] & _) _]]. }
  destruct res; simpl in Hleaf.
  2:{ rewrite (Hleaf _ [_] eq_refl). cbn [fst snd].
      split; [by eexists|]. split; [by left|]. split.
      - rewrite Hnot. split; [|by intros (? & [= <-] & [=])].
        intros [[=] | [[=] | []%elem_of_nil]%elem_of_cons]%elem_of_cons.
      - intros h. split; [done | by intros [(? & [= <-] & [=]) _]]. }
  assert (Hsent : sent ∈ [EvChain "XMR" "open_wallet"; sent]
                         ++ [EvChain "XMR" "close_wallet"]).
  { apply elem_of_cons. right. apply list_elem_of_here. }
  unfold emit in Hleaf. rewrite emits_emits in Hleaf.
  destruct (q_transfer env) as [[[h|] json]|m] eqn:Htr; simpl in Hleaf.
  - destruct (truthy h) eqn:Hh; simpl in Hleaf;
      rewrite (Hleaf _ [_; _] eq_refl); cbn [fst snd];
      (split; [by eexists|]); (split; [by right|]);
      (split; [rewrite Hnot; split; [by eexists | done]|]).
    + intros h'. split.
      * intros [= <-]. split; [by eexists|]. split; [by eexists | done].
      * intros (_ & (j & [= <- <-]) & _). done.
    + intros h'. split; [done|].
      intros (_ & (j & [= <- <-]) & ?). congruence.
  - rewrite (Hleaf _ [_; _] eq_refl); cbn [fst snd].
    split; [by eexists|]. split; [by right|].
    split; [rewrite Hnot; split; [by eexists | done]|].
    intros h'. split; [done | by intros (_ & (j & [=]) & _)].
  - rewrite (Hleaf _ [_; _] eq_refl); cbn [fst snd].
    split; [by eexists|]. split; [by right|].
    split; [rewrite Hnot; split; [by eexists | done]|].
    intros h'. split; [done | by intros (_ & (j & [=]) & _)].
Qed.

Lemma transferXMR_settles_witness :
  (transferXMR (queue_env true) "w2" "Addr2" (1 # 2) world0).1
  = Ok (Resolved (VHash "Hash1")).
Proof.
  apply (proj2 (proj2 (proj2 (transferXMR_settles (queue_env true)
                                "w2" "Addr2" (1 # 2) world0 eq_refl)))
           "Hash1").
  split; [by eexists|]. split; [by eexists | reflexivity].
Defined.

(** * SolanaService: processing a deposit by its hash *)

Lemma receivedLamports_last address instructions :
  receivedLamports address instructions
  = match last (List.filter (pays address) instructions) with
    | Some instruction => lamports_of instruction
    | None => 0%Z
    end.
Proof.
  unfold receivedLamports.
  induction instructions as [|instruction rest IH] using rev_ind; [done|].
  rewrite foldl_app, List.filter_app. cbn [foldl List.filter]. rewrite IH.
  destruct (pays address instruction) eqn:Hp.
  - rewrite last_snoc. unfold pays in Hp. unfold lamports_of.
    destruct (ins_parsed instruction) as [info|]; [|done]. by rewrite Hp.
  - rewrite app_nil_r. unfold pays in Hp.
    destruct (ins_parsed instruction) as [info|]; [|done]. by rewrite Hp.
Qed.

(** X21. [processSolanaTransaction] never raises and asks the node once.
    It hands a deposit to [storeAndBroadcastTransaction] exactly when the
    transaction is found, has metadata, and the last System Program
    transfer to the address among its instructions moves a non-zero
    amount; the amount handed over is that of this last transfer alone
    (earlier transfers to the address in the same transaction are not
    added), the fee is the transaction's fee and the hash its first
    signature. *)
Theorem processSolanaTransaction_last_transfer
    env transactionHash wallet address w :
  let run := processSolanaTransaction env transactionHash wallet address w in
  let asked := EvChain "SOL" "getTransaction" in
  run.1 = Ok tt ∧
  match ps_getTransaction env with
  | Ok (Some tx) =>
      match rs_meta tx,
            last (List.filter (pays address) (rs_instructions tx)) with
      | Some meta, Some transfer =>
          if (lamports_of transfer =? 0)%Z then run.2 = emits [asked] w
          else
            run.2 = emits [asked;
                           EvDeposit (w_id wallet) "SOL" (rs_signature0 tx)
                             (lamports_of transfer) (rm_fee meta)] w
      | _, _ => run.2 = emits [asked] w
      end
  | _ => run.2 = emits [asked] w
  end.
Proof.
  unfold processSolanaTransaction. munfold. simpl.
  destruct (ps_getTransaction env) as [[tx|]|m]; simpl; [|done|done].
  destruct (rs_meta tx) as [meta|]; simpl; [|done].
  rewrite receivedLamports_last.
  destruct (last (List.filter (pays address) (rs_instructions tx)))
    as [transfer|]; simpl; [|done].
  destruct (lamports_of transfer =? 0)%Z; simpl; [done|].
  unfold emit. rewrite emits_emits.
  by destruct (ps_store env) as [[]|ms].
Qed.

Lemma processSolanaTransaction_last_transfer_witness :
  (processSolanaTransaction process_env "Sig7" wallet_w1 "Addr1" world0).2
  = emits [EvChain "SOL" "getTransaction";
           EvDeposit "w1" "SOL" "Sig7" 300 5000] world0.
Proof.
  exact (proj2 (processSolanaTransaction_last_transfer
                  process_env "Sig7" wallet_w1 "Addr1" world0)).
Defined.

(** * MoneroService.ensureWalletExists *)



(** * Failures that the user is not told about *)



